(** * Multi-tenant BI platform: the ETL pipeline of [main.py]

    A shallow embedding of [ETLPipeline] (schema set-up, the three
    transforms, the loader, the two dashboard queries) and of [main],
    together with the properties the specification states about them.

    Modelling conventions.
    - A pandas [DataFrame] is a mutable object: frames live in a heap and
      the pipeline passes references to them.  A frame is its index
      length and its columns in order, each a [Series] with its dtype.
    - A [float64] is an exact rational extended with the IEEE special
      values [+inf], [-inf] and [NaN]; the special values follow IEEE 754
      (in particular [x/0] for [x <> 0] is infinite and [0/0] is [NaN]).
      The binary rounding error of finite results, overflow to infinity
      and the sign of zero are not modelled.
    - An [int64] is a [Z] with the wrap-around of the machine written out.
    - Python exceptions are the [Raise] outcomes of a state-and-error
      monad; the state a raising statement leaves behind is kept.
    - The SQLite store maps table names to tables; a table is a column
      list, a row list and the counter of its rowids.  A store holds
      tables only: views, indexes and triggers, and the tables SQLite
      keeps for itself ([sqlite_sequence]), are not modelled.  Cells keep the
      storage class they are given (SQLite's text/number affinity
      coercions are not modelled).
    - SQLite compares the names of tables and columns without regard to
      the case of ASCII letters, and lets a statement address the key of
      a table as [rowid], [oid] or [_rowid_].  The store and the loader
      below look names up byte for byte, as pandas looks up the table;
      what is stated about tables that are missing and about labels
      that a table lacks is stated for names that no name of the store,
      or of the table, equals in SQLite's sense ([has_name]).
    - [DataFrame.to_sql] and the two SELECT statements are given the
      behaviour pandas and SQLite document for them: one INSERT per row
      inside one transaction that is rolled back on error, nothing
      executed for a frame without rows; GROUP BY as a stable sort
      followed by the runs of equal keys; SUM, AVG, COUNT and ROUND with
      their treatment of NULL and of integer overflow. *)

From Stdlib Require Import ZArith QArith Qround Qabs List String Ascii Bool Lia Lqa Sorted.
From stdpp Require Import base option gmap strings pretty.
Import ListNotations.
Local Open Scope string_scope.
Local Open Scope Z_scope.

(** ** Exceptions and results *)

Inductive exn :=
| KeyError (column : string)
| TypeError
| ValueError (msg : string)
| OperationalError (msg : string)
| IntegrityError (msg : string)
| ProgrammingError
| OverflowError
| ExtractionFailure.

Inductive result (A : Type) :=
| Ok (a : A)
| Raise (e : exn).
Arguments Ok {A} a.
Arguments Raise {A} e.

Definition is_ok {A} (r : result A) : bool :=
  match r with Ok _ => true | Raise _ => false end.

(** ** Numbers *)

Module Float.

(** [float64], idealised: exact finite values plus the IEEE specials. *)
Inductive t :=
| Fin (q : Q)
| PInf
| NInf
| NaN.

Definition fin (q : Q) : t := Fin (Qred q).
Definition of_Z (z : Z) : t := Fin (inject_Z z).
Definition zero : t := of_Z 0.

Definition is_nan (x : t) : bool :=
  match x with NaN => true | _ => false end.

Definition qsign (q : Q) : comparison := (Qnum q ?= 0)%Z.

Definition add (x y : t) : t :=
  match x, y with
  | NaN, _ | _, NaN => NaN
  | Fin a, Fin b => fin (a + b)
  | PInf, NInf | NInf, PInf => NaN
  | PInf, _ | _, PInf => PInf
  | NInf, _ | _, NInf => NInf
  end.

Definition opp (x : t) : t :=
  match x with
  | Fin a => fin (- a)
  | PInf => NInf
  | NInf => PInf
  | NaN => NaN
  end.

Definition sub (x y : t) : t := add x (opp y).

(** IEEE division: a finite non-zero value over zero is infinite, zero
    over zero and infinity over infinity are [NaN]. *)
Definition div (x y : t) : t :=
  match x, y with
  | NaN, _ | _, NaN => NaN
  | Fin a, Fin b =>
      match qsign b with
      | Eq => match qsign a with Eq => NaN | Gt => PInf | Lt => NInf end
      | _ => fin (a / b)
      end
  | Fin _, _ => zero
  | PInf, Fin b => match qsign b with Lt => NInf | _ => PInf end
  | NInf, Fin b => match qsign b with Lt => PInf | _ => NInf end
  | _, _ => NaN
  end.

Definition pow10 (n : nat) : positive := Pos.pow 10 (Pos.of_nat n).
Definition scale (n : nat) : positive :=
  match n with O => 1%positive | _ => pow10 n end.

(** Nearest integer, ties to even ([numpy.rint]). *)
Definition rint (q : Q) : Z :=
  let n := Qnum q in
  let d := Zpos (Qden q) in
  let f := (n / d)%Z in
  match (2 * (n mod d) ?= d)%Z with
  | Lt => f
  | Gt => (f + 1)%Z
  | Eq => if Z.even f then f else (f + 1)%Z
  end.

(** Nearest integer, ties away from zero (SQLite's [ROUND]). *)
Definition round_away (q : Q) : Z :=
  let n := Qnum q in
  let d := Zpos (Qden q) in
  match (n ?= 0)%Z with
  | Lt => (- ((2 * (- n) + d) / (2 * d)))%Z
  | _ => ((2 * n + d) / (2 * d))%Z
  end.

(** [numpy.round(x, n)]: scale by [10^n], [rint], scale back. *)
Definition np_round (n : nat) (x : t) : t :=
  match x with
  | Fin q => fin (Qmake (rint (q * inject_Z (Zpos (scale n)))) (scale n))
  | _ => x
  end.

(** SQLite [ROUND(x, n)] on a REAL. *)
Definition sql_round (n : nat) (x : t) : t :=
  match x with
  | Fin q => fin (Qmake (round_away (q * inject_Z (Zpos (scale n)))) (scale n))
  | _ => x
  end.

(** Order of the extended rationals; [NaN] is only compared by callers
    that have excluded it. *)
Definition leb (x y : t) : bool :=
  match x, y with
  | NaN, _ | _, NaN => false
  | NInf, _ => true
  | _, PInf => true
  | Fin a, Fin b => Qle_bool a b
  | _, _ => false
  end.

End Float.

Module Int64.
Definition min_int : Z := - 2 ^ 63.
Definition max_int : Z := 2 ^ 63 - 1.
Definition in_range (z : Z) : bool := (min_int <=? z) && (z <=? max_int).
Definition wrap (z : Z) : Z := (z + 2 ^ 63) mod 2 ^ 64 - 2 ^ 63.
End Int64.

(** ** Cells, series and frames *)

(** A scalar: a Python object held in an [object] column, and a SQLite
    cell ([VNull] is Python's [None] and SQL's [NULL]). *)
Inductive value :=
| VNull
| VInt (z : Z)
| VReal (x : Float.t)
| VText (s : string).

(** A pandas [Series] with its dtype. *)
Inductive Series :=
| SInt (l : list Z)
| SFloat (l : list Float.t)
| SObject (l : list value).

(** The cell a series element is bound to in an INSERT: a missing value
    ([NaN]) is sent as [NULL]. *)
Definition cell_of_float (x : Float.t) : value :=
  if Float.is_nan x then VNull else VReal x.

Definition cell_of_object (v : value) : value :=
  match v with
  | VReal x => cell_of_float x
  | _ => v
  end.

Definition cells (s : Series) : list value :=
  match s with
  | SInt l => map VInt l
  | SFloat l => map cell_of_float l
  | SObject l => map cell_of_object l
  end.

(** A [DataFrame]: the length of its index and its columns, in order. *)
Record DataFrame := mkDataFrame {
  df_index : nat;
  df_data : list (string * Series)
}.

Definition df_columns (d : DataFrame) : list string := map fst (df_data d).

(** [c in l] on column labels. *)
Definition mem (c : string) (l : list string) : bool := existsb (String.eqb c) l.

Fixpoint lookup_col (c : string) (cols : list (string * Series)) : option Series :=
  match cols with
  | [] => None
  | (c', s) :: rest => if String.eqb c c' then Some s else lookup_col c rest
  end.

(** [df[c] = s]: an existing column is replaced where it stands, a new
    one is appended as the last column. *)
Fixpoint set_col (c : string) (s : Series) (cols : list (string * Series))
  : list (string * Series) :=
  match cols with
  | [] => [(c, s)]
  | (c', s') :: rest =>
      if String.eqb c c' then (c', s) :: rest else (c', s') :: set_col c s rest
  end.

Definition df_set (c : string) (s : Series) (d : DataFrame) : DataFrame :=
  mkDataFrame (df_index d) (set_col c s (df_data d)).

(** ** Element-wise arithmetic of pandas *)

Definition as_floats (s : Series) : option (list Float.t) :=
  match s with
  | SInt l => Some (map Float.of_Z l)
  | SFloat l => Some l
  | SObject _ => None
  end.

(** [a / b]: true division, always a [float64] series.  [object] columns
    are taken to hold text, which does not support arithmetic. *)
Definition truediv (a b : Series) : result (list Float.t) :=
  match as_floats a, as_floats b with
  | Some x, Some y => Ok (zip_with Float.div x y)
  | _, _ => Raise TypeError
  end.

(** [a - b]: [int64] minus [int64] stays [int64] and wraps around. *)
Definition series_sub (a b : Series) : result Series :=
  match a, b with
  | SInt x, SInt y => Ok (SInt (zip_with (fun u v => Int64.wrap (u - v)) x y))
  | _, _ =>
      match as_floats a, as_floats b with
      | Some x, Some y => Ok (SFloat (zip_with Float.sub x y))
      | _, _ => Raise TypeError
      end
  end.

(** [Series.round(n)] and [Series.fillna(0)] per dtype. *)
Definition series_round (n : nat) (s : Series) : Series :=
  match s with
  | SFloat l => SFloat (map (Float.np_round n) l)
  | _ => s
  end.

Definition fillna_float (x : Float.t) : Float.t :=
  if Float.is_nan x then Float.zero else x.

Definition fillna_object (v : value) : value :=
  match v with
  | VNull => VInt 0
  | VReal x => if Float.is_nan x then VInt 0 else v
  | _ => v
  end.

Definition series_fillna0 (s : Series) : Series :=
  match s with
  | SInt l => SInt l
  | SFloat l => SFloat (map fillna_float l)
  | SObject l => SObject (map fillna_object l)
  end.

(** ** The heap of frames and the monad of the transforms *)

Definition loc := nat.
Abbreviation heap := (gmap loc DataFrame).

Definition M (S A : Type) : Type := S -> result A * S.

Definition ret {S A} (a : A) : M S A := fun s => (Ok a, s).
Definition throw {S A} (e : exn) : M S A := fun s => (Raise e, s).
Definition bind {S A B} (m : M S A) (k : A -> M S B) : M S B :=
  fun s =>
    match m s with
    | (Ok a, s') => k a s'
    | (Raise e, s') => (Raise e, s')
    end.
Definition lift {S A} (r : result A) : M S A := fun s => (r, s).

Notation "x <- m ;; k" := (bind m (fun x => k))
  (at level 100, m at next level, right associativity).
Notation "m ;;; k" := (bind m (fun _ => k))
  (at level 100, right associativity).

(** [df[c]]: a label that is not a column raises [KeyError]. *)
Definition getitem (df : loc) (c : string) : M heap Series :=
  fun h =>
    match h !! df with
    | Some d =>
        match lookup_col c (df_data d) with
        | Some s => (Ok s, h)
        | None => (Raise (KeyError c), h)
        end
    | None => (Raise (KeyError c), h)
    end.

(** [df[c] = s], in place. *)
Definition setitem (df : loc) (c : string) (s : Series) : M heap unit :=
  fun h =>
    match h !! df with
    | Some d => (Ok tt, <[df := df_set c s d]> h)
    | None => (Raise (KeyError c), h)
    end.

(** ** The Metric Transformer *)

Definition transform_campaigns (df : loc) : M heap loc :=
  clicks <- getitem df "clicks" ;;
  impressions <- getitem df "impressions" ;;
  q <- lift (truediv clicks impressions) ;;
  setitem df "ctr" (series_round 4 (SFloat q)) ;;;
  revenue <- getitem df "revenue" ;;
  spend <- getitem df "spend" ;;
  net <- lift (series_sub revenue spend) ;;
  spend' <- getitem df "spend" ;;
  q' <- lift (truediv net spend') ;;
  setitem df "roi" (series_round 2 (SFloat q')) ;;;
  ctr <- getitem df "ctr" ;;
  setitem df "ctr" (series_fillna0 ctr) ;;;
  roi <- getitem df "roi" ;;
  setitem df "roi" (series_fillna0 roi) ;;;
  ret df.

Definition transform_targets (df : loc) : M heap loc :=
  target_revenue <- getitem df "target_revenue" ;;
  target_spend <- getitem df "target_spend" ;;
  q <- lift (truediv target_revenue target_spend) ;;
  setitem df "target_roi" (series_round 2 (SFloat q)) ;;;
  target_roi <- getitem df "target_roi" ;;
  setitem df "target_roi" (series_fillna0 target_roi) ;;;
  ret df.

Definition transform_customers (df : loc) : M heap loc :=
  total_spent <- getitem df "total_spent" ;;
  total_orders <- getitem df "total_orders" ;;
  q <- lift (truediv total_spent total_orders) ;;
  setitem df "avg_order_value" (series_round 2 (SFloat q)) ;;;
  avg_order_value <- getitem df "avg_order_value" ;;
  setitem df "avg_order_value" (series_fillna0 avg_order_value) ;;;
  ret df.

(** ** The warehouse *)

Inductive sql_type := TEXT | INTEGER | REAL | TIMESTAMP.

Record column_def := mkColumn {
  col_name : string;
  col_type : sql_type;
  col_not_null : bool;
  col_rowid : bool;        (* INTEGER PRIMARY KEY AUTOINCREMENT *)
  col_default_now : bool   (* DEFAULT CURRENT_TIMESTAMP *)
}.

Record row := mkRow {
  row_id : Z;              (* the rowid *)
  row_cells : list value   (* one cell per column of the table *)
}.

Record table := mkTable {
  tbl_columns : list column_def;
  tbl_rows : list row;
  tbl_seq : Z              (* largest rowid ever handed out *)
}.

Abbreviation db := (gmap string table).

Definition column_names (t : table) : list string := map col_name (tbl_columns t).

Definition plain (name : string) (ty : sql_type) : column_def :=
  mkColumn name ty false false false.
Definition required (name : string) (ty : sql_type) : column_def :=
  mkColumn name ty true false false.
Definition id_column : column_def := mkColumn "id" INTEGER false true false.
Definition created_at_column : column_def :=
  mkColumn "created_at" TIMESTAMP false false true.

Definition fact_campaigns_columns : list column_def :=
  [ id_column;
    required "tenant_id" TEXT;
    required "campaign_id" TEXT;
    plain "campaign_name" TEXT;
    plain "date" TEXT;
    plain "impressions" INTEGER;
    plain "clicks" INTEGER;
    plain "conversions" INTEGER;
    plain "spend" REAL;
    plain "revenue" REAL;
    plain "ctr" REAL;
    plain "roi" REAL;
    plain "region" TEXT;
    plain "product" TEXT;
    created_at_column ].

Definition dim_sales_targets_columns : list column_def :=
  [ id_column;
    required "tenant_id" TEXT;
    plain "region" TEXT;
    plain "product" TEXT;
    plain "month" INTEGER;
    plain "year" INTEGER;
    plain "target_revenue" REAL;
    plain "target_conversions" INTEGER;
    plain "target_spend" REAL;
    created_at_column ].

Definition dim_customers_columns : list column_def :=
  [ id_column;
    required "tenant_id" TEXT;
    required "customer_id" TEXT;
    plain "customer_name" TEXT;
    plain "region" TEXT;
    plain "product_preference" TEXT;
    plain "total_spent" REAL;
    plain "total_orders" INTEGER;
    created_at_column ].

(** *** Names

    SQLite compares identifiers ignoring the case of the letters [A-Z]. *)
Definition lower_ascii (a : ascii) : ascii :=
  let n := N_of_ascii a in
  if ((65 <=? n) && (n <=? 90))%N then ascii_of_N (n + 32) else a.

Fixpoint lower (s : string) : string :=
  match s with
  | EmptyString => EmptyString
  | String a s' => String (lower_ascii a) (lower s')
  end.

Definition same_name (a b : string) : bool := String.eqb (lower a) (lower b).

(** One of the names [l] is the name [c], in SQLite's sense. *)
Definition has_name (c : string) (l : list string) : bool := existsb (same_name c) l.

(** The names under which a statement can address the rowid of a table
    that has no column of that name. *)
Definition rowid_aliases : list string := ["rowid"; "oid"; "_rowid_"].

(** The names of the tables of a store. *)
Definition table_names (s : db) : list string := map fst (map_to_list s).

(** [CREATE TABLE IF NOT EXISTS name (...)] *)
Definition create_table_if_not_exists (name : string) (cols : list column_def)
    (s : db) : db :=
  match s !! name with
  | Some _ => s
  | None => <[name := mkTable cols [] 0]> s
  end.

(** The pipeline object and the process around it: the store file, the
    connections that are open, and [self.conn]. *)
Record state := mkState {
  st_store : db;
  st_open : gset nat;
  st_next : nat;
  st_conn : option nat
}.

Definition with_store (s : state) (d : db) : state :=
  mkState d (st_open s) (st_next s) (st_conn s).

(** [sqlite3.connect(self.db_path)]: a fresh handle on the store file. *)
Definition connect (s : state) : nat * state :=
  (st_next s,
   mkState (st_store s) ({[st_next s]} ∪ st_open s) (S (st_next s)) (st_conn s)).

(** [setup_database]: a new connection becomes [self.conn], and the three
    tables are created where the store has none of that name.  The store
    file is taken to be one that SQLite can open, and a database: the
    failures of [sqlite3.connect] and of the CREATE statements, which
    the source logs and raises again, are outside this model. *)
Definition setup_database : M state unit :=
  fun s =>
    let '(c, s1) := connect s in
    let s2 := mkState (st_store s1) (st_open s1) (st_next s1) (Some c) in
    let d1 := create_table_if_not_exists "fact_campaigns" fact_campaigns_columns
                (st_store s2) in
    let d2 := create_table_if_not_exists "dim_sales_targets"
                dim_sales_targets_columns d1 in
    let d3 := create_table_if_not_exists "dim_customers" dim_customers_columns d2 in
    (Ok tt, with_store s2 d3).

(** The connection [self.conn], when it can still be used. *)
Definition usable_conn (s : state) : bool :=
  match st_conn s with
  | Some c => bool_decide (c ∈ st_open s)
  | None => false
  end.

Definition close_connection : M state unit :=
  fun s =>
    match st_conn s with
    | Some c => (Ok tt, mkState (st_store s) (st_open s ∖ {[c]}) (st_next s) (st_conn s))
    | None => (Ok tt, s)
    end.

(** ** The Warehouse Loader: [DataFrame.to_sql(..., if_exists='append')] *)

Definition type_of_series (s : Series) : sql_type :=
  match s with
  | SInt _ => INTEGER
  | SFloat _ => REAL
  | SObject _ => TEXT
  end.

(** Row [i] of a frame, as the parameters of one INSERT. *)
Definition frame_row (d : DataFrame) (i : nat) : list value :=
  map (fun cs => nth i (cells (snd cs)) VNull) (df_data d).

Definition frame_rows (d : DataFrame) : list (list value) :=
  map (frame_row d) (seq 0 (df_index d)).

Fixpoint lookup_cell (c : string) (cols : list string) (vals : list value)
  : option value :=
  match cols, vals with
  | c' :: cols', v :: vals' =>
      if String.eqb c c' then Some v else lookup_cell c cols' vals'
  | _, _ => None
  end.

Definition is_null (v : value) : bool :=
  match v with VNull => true | _ => false end.

Definition value_in_range (v : value) : bool :=
  match v with VInt z => Int64.in_range z | _ => true end.

Definition rowids (t : table) : list Z := map row_id (tbl_rows t).

Definition max_rowid (t : table) : Z := fold_right Z.max (tbl_seq t) (rowids t).

Definition next_rowid (t : table) : result Z :=
  if Int64.max_int <=? max_rowid t
  then Raise (OperationalError "database or disk is full")
  else Ok (max_rowid t + 1).

(** The rowid a cell offers for the INTEGER PRIMARY KEY, if any. *)
Definition rowid_of (v : value) : result (option Z) :=
  match v with
  | VNull => Ok None
  | VInt z => Ok (Some z)
  | VReal (Float.Fin q) =>
      if (Zpos (Qden (Qred q)) =? 1)%Z then Ok (Some (Qnum (Qred q)))
      else Raise (IntegrityError "datatype mismatch")
  | _ => Raise (IntegrityError "datatype mismatch")
  end.

Definition offered (now : string) (cols : list string) (vals : list value)
    (cd : column_def) : value :=
  match lookup_cell (col_name cd) cols vals with
  | Some v => v
  | None => if col_default_now cd then VText now else VNull
  end.

Definition choose_rowid (now : string) (cols : list string) (vals : list value)
    (t : table) : result Z :=
  match find col_rowid (tbl_columns t) with
  | None => next_rowid t
  | Some cd =>
      match rowid_of (offered now cols vals cd) with
      | Raise e => Raise e
      | Ok None => next_rowid t
      | Ok (Some z) =>
          if existsb (Z.eqb z) (rowids t)
          then Raise (IntegrityError "UNIQUE constraint failed")
          else Ok z
      end
  end.

Definition build_cells (now : string) (cols : list string) (vals : list value)
    (rid : Z) (t : table) : list value :=
  map (fun cd => if col_rowid cd then VInt rid else offered now cols vals cd)
      (tbl_columns t).

Definition violates_not_null (t : table) (cs : list value) : bool :=
  existsb (fun p => col_not_null (fst p) && is_null (snd p))
          (combine (tbl_columns t) cs).

(** One [INSERT INTO t (cols) VALUES (vals)]. *)
Definition insert_row (now : string) (cols : list string) (vals : list value)
    (t : table) : result table :=
  if negb (forallb value_in_range vals) then Raise OverflowError else
  match choose_rowid now cols vals t with
  | Raise e => Raise e
  | Ok rid =>
      let cs := build_cells now cols vals rid t in
      if violates_not_null t cs
      then Raise (IntegrityError "NOT NULL constraint failed")
      else Ok (mkTable (tbl_columns t) (tbl_rows t ++ [mkRow rid cs])
                       (Z.max (tbl_seq t) rid))
  end.

Fixpoint insert_rows (now : string) (cols : list string)
    (rows : list (list value)) (t : table) : result table :=
  match rows with
  | [] => Ok t
  | vals :: rest =>
      match insert_row now cols vals t with
      | Ok t' => insert_rows now cols rest t'
      | Raise e => Raise e
      end
  end.

(** The first label of the INSERT that is no column of the table.  Labels
    are compared byte for byte: a label that is a column only as SQLite
    compares names, or that is a name of the rowid, is refused here
    where SQLite accepts it. *)
Definition unknown_column (t : table) (cols : list string) : option string :=
  find (fun c => negb (mem c (column_names t))) cols.

(** [SQLiteTable.insert]: nothing is executed for a frame without rows;
    otherwise one statement is prepared against the table and run for
    every row, inside one transaction. *)
Definition insert_frame (now : string) (d : DataFrame) (t : table) : result table :=
  if (df_index d =? 0)%nat then Ok t else
  match df_columns d with
  | [] => Raise (OperationalError "syntax error")
  | cols =>
      match unknown_column t cols with
      | Some c => Raise (OperationalError ("no column named " ++ c))
      | None => insert_rows now cols (frame_rows d) t
      end
  end.

(** The table pandas creates when the name is not in the store. *)
Definition table_of_frame (d : DataFrame) : table :=
  mkTable (map (fun cs => plain (fst cs) (type_of_series (snd cs))) (df_data d)) [] 0.

(** [_get_valid_sqlite_name]: when it builds the table object, before
    any statement is run, pandas refuses an empty identifier and one
    with a NUL character. *)
Definition identifier_error (n : string) : option exn :=
  if String.eqb n EmptyString
  then Some (ValueError "Empty table or column name specified")
  else if existsb (Ascii.eqb Ascii.zero) (list_ascii_of_string n)
  then Some (ValueError "SQLite identifier cannot contain NULs")
  else None.

Fixpoint first_identifier_error (l : list string) : option exn :=
  match l with
  | [] => None
  | n :: l' =>
      match identifier_error n with
      | Some e => Some e
      | None => first_identifier_error l'
      end
  end.

(** What makes SQLite refuse [CREATE TABLE name (labels)]: a name it
    reserves for its own tables, a name that a table of the store has
    (in SQLite's sense, although pandas did not find it byte for byte),
    more columns than a table may have, two columns of the same name. *)
Definition reserved_name (n : string) : bool := String.prefix "sqlite_" (lower n).

Fixpoint distinct_names (l : list string) : bool :=
  match l with
  | [] => true
  | c :: l' => negb (has_name c l') && distinct_names l'
  end.

Definition max_columns : nat := 2000.

(** The number of parameters every version of SQLite accepts in one
    statement; the INSERT of a frame has one per column. *)
Definition max_parameters : nat := 999.

Definition create_table_error (name : string) (labels : list string) (s : db)
  : option exn :=
  if reserved_name name
  then Some (OperationalError "object name reserved for internal use")
  else if has_name name (table_names s)
  then Some (OperationalError "table already exists")
  else if (max_columns <? length labels)%nat
  then Some (OperationalError "too many columns")
  else if negb (distinct_names labels)
  then Some (OperationalError "duplicate column name")
  else None.

(** [SQLiteDatabase.to_sql] with [if_exists='append']: the table object
    is built from the frame, the table is created when [has_table] does
    not find its name, and the rows are inserted.  The CREATE statement
    is committed on its own, so the new table stays when the INSERT
    fails. *)
Definition to_sql (now : string) (d : DataFrame) (name : string) (s : db)
  : result unit * db :=
  match first_identifier_error (df_columns d ++ [name]) with
  | Some e => (Raise e, s)
  | None =>
      match s !! name with
      | Some t =>
          match insert_frame now d t with
          | Ok t' => (Ok tt, <[name := t']> s)
          | Raise e => (Raise e, s)
          end
      | None =>
          match df_data d with
          | [] => (Raise (OperationalError "syntax error"), s)
          | _ =>
              match create_table_error name (df_columns d) s with
              | Some e => (Raise e, s)
              | None =>
                  let t := table_of_frame d in
                  match insert_frame now d t with
                  | Ok t' => (Ok tt, <[name := t']> s)
                  | Raise e => (Raise e, <[name := t]> s)
                  end
              end
          end
      end
  end.

(** [load_to_database]: the frame is appended to the table; an
    exception is logged and raised again.  A connection that cannot be
    used is reported before the identifiers are looked at; pandas looks
    at the identifiers first and raises [ValueError] where both are
    wrong.  Either way the load raises and changes nothing. *)
Definition load_to_database (now : string) (df : DataFrame) (table_name : string)
  : M state unit :=
  fun s =>
    if usable_conn s then
      let '(r, d) := to_sql now df table_name (st_store s) in (r, with_store s d)
    else (Raise ProgrammingError, s).

(** ** The Report Engine: the SQL of [execute_dashboard_query] *)

#[global] Instance result_ret : MRet result := fun _ a => Ok a.
#[global] Instance result_bind : MBind result := fun _ _ f r =>
  match r with
  | Ok a => f a
  | Raise e => Raise e
  end.

Fixpoint map_result {A B} (f : A -> result B) (l : list A) : result (list B) :=
  match l with
  | [] => Ok []
  | a :: l' =>
      match f a with
      | Ok b => match map_result f l' with
                | Ok bs => Ok (b :: bs)
                | Raise e => Raise e
                end
      | Raise e => Raise e
      end
  end.

Module Sql.

(** Storage classes in SQLite's sort order: NULL, then numbers, then
    text.  A [NaN] is never stored (it is bound as NULL). *)
Definition rank (v : value) : nat :=
  match v with
  | VNull => 0
  | VInt _ => 1
  | VReal x => if Float.is_nan x then 0 else 1
  | VText _ => 2
  end.

(** The number a cell stands for in an aggregate.  A text counts as 0
    (SQLite reads the numeric prefix of a text, if it has one; the
    statements below are about numeric cells). *)
Definition num (v : value) : Float.t :=
  match v with
  | VInt z => Float.of_Z z
  | VReal x => x
  | _ => Float.zero
  end.

Definition text (v : value) : string :=
  match v with VText s => s | _ => "" end.

Definition value_leb (a b : value) : bool :=
  if (rank a <? rank b)%nat then true
  else if (rank b <? rank a)%nat then false
  else match rank a with
       | 1%nat => Float.leb (num a) (num b)
       | 2%nat => String.leb (text a) (text b)
       | _ => true
       end.

(** Lexicographic order of the key of an ORDER BY / GROUP BY. *)
Fixpoint key_leb (k1 k2 : list value) : bool :=
  match k1, k2 with
  | a :: k1', b :: k2' =>
      if value_leb a b then (if value_leb b a then key_leb k1' k2' else true)
      else false
  | [], _ => true
  | _ :: _, [] => false
  end.

Definition key_eqb (k1 k2 : list value) : bool := key_leb k1 k2 && key_leb k2 k1.

Definition key_ltb (k1 k2 : list value) : bool :=
  key_leb k1 k2 && negb (key_leb k2 k1).

Section Grouping.
Context {A : Type} (key : A -> list value).

Fixpoint insert_sorted (x : A) (l : list A) : list A :=
  match l with
  | [] => [x]
  | y :: l' => if key_leb (key x) (key y) then x :: l else y :: insert_sorted x l'
  end.

(** The sorter: stable, ascending in the key. *)
Definition sort_by (l : list A) : list A := fold_right insert_sorted [] l.

(** The key of a group: that of its first row. *)
Definition head_key (g : list A) : list value :=
  match g with x :: _ => key x | [] => [] end.

(** Consecutive rows with the same key form one group. *)
Fixpoint runs (l : list A) : list (list A) :=
  match l with
  | [] => []
  | x :: l' =>
      match runs l' with
      | g :: gs =>
          if key_eqb (key x) (head_key g) then (x :: g) :: gs
          else [x] :: g :: gs
      | [] => [[x]]
      end
  end.

(** [GROUP BY key ORDER BY key] *)
Definition group_by (l : list A) : list (list A) := runs (sort_by l).
End Grouping.

(** *** Aggregates *)

Definition non_null (vs : list value) : list value :=
  List.filter (fun v => negb (rank v =? 0)%nat) vs.

Definition is_int (v : value) : bool :=
  match v with VInt _ => true | _ => false end.

Definition int_of (v : value) : Z :=
  match v with VInt z => z | _ => 0 end.

(** Integer sum; SQLite raises when a partial sum leaves [int64]. *)
Fixpoint sum_ints (acc : Z) (l : list Z) : result Z :=
  match l with
  | [] => Ok acc
  | z :: l' =>
      if Int64.in_range (acc + z) then sum_ints (acc + z) l'
      else Raise (OperationalError "integer overflow")
  end.

Definition sum_reals (l : list Float.t) : Float.t :=
  fold_left Float.add l Float.zero.

(** [SUM(x)] over the cells of one group. *)
Definition agg_sum (vs : list value) : result value :=
  match non_null vs with
  | [] => Ok VNull
  | xs =>
      if forallb is_int xs
      then z ← sum_ints 0 (map int_of xs); Ok (VInt z)
      else Ok (cell_of_float (sum_reals (map num xs)))
  end.

(** [AVG(x)] over the cells of one group. *)
Definition agg_avg (vs : list value) : value :=
  match non_null vs with
  | [] => VNull
  | xs => cell_of_float
            (Float.div (sum_reals (map num xs))
                       (Float.of_Z (Z.of_nat (length xs))))
  end.

(** [COUNT(_*_)] *)
Definition agg_count {A} (g : list A) : value := VInt (Z.of_nat (length g)).

(** [ROUND(x, n)] *)
Definition round (n : nat) (v : value) : value :=
  if (rank v =? 0)%nat then VNull
  else cell_of_float (Float.sql_round n (num v)).

End Sql.

Fixpoint col_index (c : string) (cols : list column_def) : option nat :=
  match cols with
  | [] => None
  | cd :: rest =>
      if String.eqb c (col_name cd) then Some 0%nat
      else S <$> col_index c rest
  end.

Definition cell (k : nat) (r : row) : value := nth k (row_cells r) VNull.

Definition column_of (c : string) (t : table) : result nat :=
  match col_index c (tbl_columns t) with
  | Some k => Ok k
  | None => Raise (OperationalError ("no such column: " ++ c))
  end.

Definition head_cell (k : nat) (g : list row) : value :=
  match g with r :: _ => cell k r | [] => VNull end.

(** The [campaign_summary] statement: its SELECT list over one group,
    and the whole statement. *)
Definition campaign_summary_header : list string :=
  ["tenant_id"; "total_campaigns"; "total_impressions"; "total_clicks";
   "total_conversions"; "total_spend"; "total_revenue"; "avg_ctr"; "avg_roi"].

Definition campaign_summary_select
    (tenant_id impressions clicks conversions spend revenue ctr roi : nat)
    (g : list row) : result (list value) :=
  total_impressions ← Sql.agg_sum (map (cell impressions) g);
  total_clicks ← Sql.agg_sum (map (cell clicks) g);
  total_conversions ← Sql.agg_sum (map (cell conversions) g);
  total_spend ← Sql.agg_sum (map (cell spend) g);
  total_revenue ← Sql.agg_sum (map (cell revenue) g);
  Ok [ head_cell tenant_id g;
       Sql.agg_count g;
       total_impressions; total_clicks; total_conversions;
       total_spend; total_revenue;
       Sql.round 4 (Sql.agg_avg (map (cell ctr) g));
       Sql.round 2 (Sql.agg_avg (map (cell roi) g)) ].

Definition campaign_summary (t : table) : result (list (list value)) :=
  tenant_id ← column_of "tenant_id" t;
  impressions ← column_of "impressions" t;
  clicks ← column_of "clicks" t;
  conversions ← column_of "conversions" t;
  spend ← column_of "spend" t;
  revenue ← column_of "revenue" t;
  ctr ← column_of "ctr" t;
  roi ← column_of "roi" t;
  map_result
    (campaign_summary_select tenant_id impressions clicks conversions spend revenue
       ctr roi)
    (Sql.group_by (fun r => [cell tenant_id r]) (tbl_rows t)).

(** The [daily_performance] statement; [LIMIT 50] stops after fifty
    groups. *)
Definition daily_performance_header : list string :=
  ["tenant_id"; "date"; "daily_conversions"; "daily_revenue"; "daily_spend"].

Definition daily_performance_select (tenant_id date conversions revenue spend : nat)
    (g : list row) : result (list value) :=
  daily_conversions ← Sql.agg_sum (map (cell conversions) g);
  daily_revenue ← Sql.agg_sum (map (cell revenue) g);
  daily_spend ← Sql.agg_sum (map (cell spend) g);
  Ok [ head_cell tenant_id g; head_cell date g;
       daily_conversions; daily_revenue; daily_spend ].

Definition daily_performance (t : table) : result (list (list value)) :=
  tenant_id ← column_of "tenant_id" t;
  date ← column_of "date" t;
  conversions ← column_of "conversions" t;
  revenue ← column_of "revenue" t;
  spend ← column_of "spend" t;
  map_result
    (daily_performance_select tenant_id date conversions revenue spend)
    (firstn 50 (Sql.group_by (fun r => [cell tenant_id r; cell date r]) (tbl_rows t))).

(** [pandas.read_sql_query]: the result rows as a frame, one series per
    result column with the dtype pandas infers. *)
Definition series_of_cells (vs : list value) : Series :=
  if forallb Sql.is_int vs then SInt (map Sql.int_of vs)
  else if forallb (fun v => negb (Sql.rank v =? 2)%nat) vs
       then SFloat (map (fun v => if (Sql.rank v =? 0)%nat then Float.NaN else Sql.num v) vs)
       else SObject vs.

Fixpoint frame_columns (k : nat) (header : list string) (rows : list (list value))
  : list (string * Series) :=
  match header with
  | [] => []
  | c :: rest =>
      (c, series_of_cells (map (fun r => nth k r VNull) rows))
        :: frame_columns (S k) rest rows
  end.

Definition frame_of_rows (header : list string) (rows : list (list value)) : DataFrame :=
  mkDataFrame (length rows) (frame_columns 0 header rows).

Definition read_sql_query (header : list string)
    (q : table -> result (list (list value))) : M state DataFrame :=
  fun s =>
    if usable_conn s then
      match st_store s !! "fact_campaigns" with
      | Some t =>
          match q t with
          | Ok rows => (Ok (frame_of_rows header rows), s)
          | Raise e => (Raise e, s)
          end
      | None => (Raise (OperationalError "no such table: fact_campaigns"), s)
      end
    else (Raise ProgrammingError, s).

Definition execute_dashboard_query (query_type : string) : M state DataFrame :=
  if String.eqb query_type "campaign_summary"
  then read_sql_query campaign_summary_header campaign_summary
  else if String.eqb query_type "daily_performance"
  then read_sql_query daily_performance_header daily_performance
  else throw (ValueError ("Unknown query type: " ++ query_type)).

(** ** The run: [main] *)

(** What the collaborators outside the pipeline hand to one run: the
    outcome of the two generators, of the file readers, the customer
    records of the (mock) API, and the wall clock read by
    [CURRENT_TIMESTAMP] at each of the three loads. *)
Record sources := mkSources {
  gen_campaigns : result unit;
  gen_targets : result unit;
  csv_data : result DataFrame;
  excel_data : result DataFrame;
  api_data : DataFrame;
  clock : nat -> string
}.

Definition on_heap {A} (m : M heap A) : M (heap * state) A :=
  fun hs => let '(r, h) := m (fst hs) in (r, (h, snd hs)).

Definition on_state {A} (m : M state A) : M (heap * state) A :=
  fun hs => let '(r, s) := m (snd hs) in (r, (fst hs, s)).

(** A new frame object. *)
Definition alloc (d : DataFrame) : M heap loc :=
  fun h => let l := fresh (dom h) in (Ok l, <[l := d]> h).

Definition deref (l : loc) : M heap DataFrame :=
  fun h =>
    match h !! l with
    | Some d => (Ok d, h)
    | None => (Raise (KeyError ""), h)
    end.

Definition load (now : string) (df : loc) (table_name : string)
  : M (heap * state) unit :=
  d <- on_heap (deref df) ;;
  on_state (load_to_database now d table_name).

Definition main (w : sources) : M (heap * state) unit :=
  on_state setup_database ;;;
  lift (gen_campaigns w) ;;;
  lift (gen_targets w) ;;;
  campaigns <- lift (csv_data w) ;;
  campaigns_data <- on_heap (alloc campaigns) ;;
  targets <- lift (excel_data w) ;;
  targets_data <- on_heap (alloc targets) ;;
  customers_data <- on_heap (alloc (api_data w)) ;;
  campaigns_transformed <- on_heap (transform_campaigns campaigns_data) ;;
  targets_transformed <- on_heap (transform_targets targets_data) ;;
  customers_transformed <- on_heap (transform_customers customers_data) ;;
  load (clock w 0%nat) campaigns_transformed "fact_campaigns" ;;;
  load (clock w 1%nat) targets_transformed "dim_sales_targets" ;;;
  load (clock w 2%nat) customers_transformed "dim_customers" ;;;
  summary_df <- on_state (execute_dashboard_query "campaign_summary") ;;
  daily_df <- on_state (execute_dashboard_query "daily_performance") ;;
  on_state close_connection.

(** A fresh process on a store: nothing open, no pipeline object yet. *)
Definition boot (d : db) : heap * state := (∅, mkState d ∅ 0 None).

(** ** Vocabulary of the statements *)

(** The three record-set types and their transforms. *)
Inductive record_set := Campaigns | Targets | Customers.

Definition transform (k : record_set) : loc -> M heap loc :=
  match k with
  | Campaigns => transform_campaigns
  | Targets => transform_targets
  | Customers => transform_customers
  end.

(** The documented formulas: derived field, numerator, denominator and
    the number of decimals kept. *)
Inductive numerator := Col (c : string) | Diff (c1 c2 : string).

Record derived_field := mkDerived {
  d_name : string;
  d_num : numerator;
  d_den : string;
  d_places : nat
}.

Definition derived (k : record_set) : list derived_field :=
  match k with
  | Campaigns => [ mkDerived "ctr" (Col "clicks") "impressions" 4;
                   mkDerived "roi" (Diff "revenue" "spend") "spend" 2 ]
  | Targets => [ mkDerived "target_roi" (Col "target_revenue") "target_spend" 2 ]
  | Customers => [ mkDerived "avg_order_value" (Col "total_spent") "total_orders" 2 ]
  end.

Definition floats_of (d : DataFrame) (c : string) : option (list Float.t) :=
  match lookup_col c (df_data d) with
  | Some s => as_floats s
  | None => None
  end.

Definition eval_numerator (d : DataFrame) (n : numerator) : option (list Float.t) :=
  match n with
  | Col c => floats_of d c
  | Diff c1 c2 =>
      match lookup_col c1 (df_data d), lookup_col c2 (df_data d) with
      | Some a, Some b =>
          match series_sub a b with
          | Ok s => as_floats s
          | Raise _ => None
          end
      | _, _ => None
      end
  end.

(** The input columns of every derived field are there and numeric. *)
Definition inputs_numeric (k : record_set) (d : DataFrame) : bool :=
  forallb (fun f => bool_decide (is_Some (eval_numerator d (d_num f)))
                    && bool_decide (is_Some (floats_of d (d_den f))))
          (derived k).

(** What one row of a derived column computes. *)
Definition ratio (n : nat) (x y : Float.t) : Float.t :=
  fillna_float (Float.np_round n (Float.div x y)).

Definition is_zero (x : Float.t) : bool :=
  match x with
  | Float.Fin q => Qeq_bool q 0
  | _ => false
  end.

(** The zero-substitution rule of the specification: over a zero
    denominator the derived value is [0]. *)
Definition zero_substituted (den out : list Float.t) : Prop :=
  forall i y o, den !! i = Some y -> out !! i = Some o ->
    is_zero y = true -> is_zero o = true.

(** What holds of a derived column: a value in every row, never null,
    the rounded ratio over a non-zero denominator, and [0] for [0/0]. *)
Definition ratio_column (n : nat) (num den out : list Float.t) : Prop :=
  forall i x y, num !! i = Some x -> den !! i = Some y ->
    exists o, out !! i = Some o /\ Float.is_nan o = false /\
      (forall a b, x = Float.Fin a -> y = Float.Fin b -> ~ (b == 0)%Q ->
         o = Float.np_round n (Float.fin (a / b))) /\
      (forall a b, x = Float.Fin a -> y = Float.Fin b -> (a == 0)%Q -> (b == 0)%Q ->
         o = Float.zero).

(** Sample record sets. *)
Definition campaign_frame (clicks impressions : Z) (revenue spend : Q) : DataFrame :=
  mkDataFrame 1
    [ ("tenant_id", SObject [VText "tenant_a"]);
      ("campaign_id", SObject [VText "camp_tenant_a_000"]);
      ("date", SObject [VText "2024-10-01"]);
      ("impressions", SInt [impressions]);
      ("clicks", SInt [clicks]);
      ("conversions", SInt [10]);
      ("spend", SFloat [Float.fin spend]);
      ("revenue", SFloat [Float.fin revenue]) ].

(** Several column assignments in a row. *)
Definition set_cols (news : list (string * Series)) (d : DataFrame) : DataFrame :=
  fold_left (fun acc cs => df_set (fst cs) (snd cs) acc) news d.

Definition derived_names (k : record_set) : list string := map d_name (derived k).

(** The columns of a frame that do not bear the name of a derived field. *)
Definition originals (k : record_set) (d : DataFrame) : list (string * Series) :=
  List.filter (fun cs => negb (mem (fst cs) (derived_names k))) (df_data d).

(** From heap [h] to heap [h'] every frame is still there with its rows
    and its original columns, and only the frame at [df] may differ. *)
Definition frame_kept (k : record_set) (df : loc) (h h' : heap) : Prop :=
  forall l d, h !! l = Some d ->
    exists d', h' !! l = Some d' /\
      df_index d' = df_index d /\
      originals k d' = originals k d /\
      (l <> df -> d' = d).

Definition keeps_frames {A} (k : record_set) (df : loc) (m : M heap A) : Prop :=
  forall h r h', m h = (r, h') -> frame_kept k df h h'.

(** The three warehouse tables. *)
Definition warehouse_tables : list string :=
  ["fact_campaigns"; "dim_sales_targets"; "dim_customers"].

Definition has_tables (d : db) : bool :=
  forallb (fun name => bool_decide (is_Some (d !! name))) warehouse_tables.

(** A column that is the auto-incrementing identifier, or the insertion
    timestamp. *)
Definition has_identifier (t : table) : bool :=
  existsb (fun cd => String.eqb (col_name cd) "id" && col_rowid cd) (tbl_columns t).

Definition has_timestamp (t : table) : bool :=
  existsb (fun cd => String.eqb (col_name cd) "created_at" && col_default_now cd)
          (tbl_columns t).

(** A source set that fails while reading the campaigns file. *)
Definition unreadable_csv : sources :=
  mkSources (Ok tt) (Ok tt) (Raise ExtractionFailure)
            (Ok (mkDataFrame 0 [])) (mkDataFrame 0 []) (fun _ => "2024-12-01 00:00:00").

(** Well-formed sources: one campaign, one planning cell, one customer. *)
Definition sample_sources : sources :=
  mkSources (Ok tt) (Ok tt)
    (Ok (campaign_frame 120 4000 900 300))
    (Ok (mkDataFrame 1
           [ ("tenant_id", SObject [VText "tenant_a"]);
             ("region", SObject [VText "North"]);
             ("product", SObject [VText "Product A"]);
             ("month", SInt [1]);
             ("year", SInt [2024]);
             ("target_revenue", SFloat [Float.fin 20000]);
             ("target_conversions", SInt [100]);
             ("target_spend", SFloat [Float.fin 8000]) ]))
    (mkDataFrame 1
       [ ("tenant_id", SObject [VText "tenant_a"]);
         ("customer_id", SObject [VText "cust_tenant_a_000"]);
         ("customer_name", SObject [VText "Customer 1"]);
         ("region", SObject [VText "North"]);
         ("product_preference", SObject [VText "Product A"]);
         ("total_spent", SFloat [Float.fin 500]);
         ("total_orders", SInt [4]) ])
    (fun _ => "2024-12-01 00:00:00").

(** The connection [c] of the pipeline object is open, or released. *)
Definition conn_open (c : nat) (s : state) : Prop :=
  st_conn s = Some c /\ st_open s = {[c]} /\ st_next s = S c.

Definition conn_released (c : nat) (s : state) : Prop :=
  st_conn s = Some c /\ st_open s = ∅ /\ st_next s = S c.

(** A stage that leaves the connection as it finds it, whatever its
    outcome; and a run that releases it exactly when it returns. *)
Definition keeps_conn {A} (c : nat) (m : M (heap * state) A) : Prop :=
  forall hs r hs', m hs = (r, hs') -> conn_open c (snd hs) -> conn_open c (snd hs').

Definition releases_on_return (c : nat) (m : M (heap * state) unit) : Prop :=
  forall hs r hs', m hs = (r, hs') -> conn_open c (snd hs) ->
    if is_ok r then conn_released c (snd hs') else conn_open c (snd hs').

(** A column the INSERT must be given: NOT NULL, and filled in neither by
    the rowid nor by a default. *)
Definition required_column (cd : column_def) : bool :=
  col_not_null cd && negb (col_rowid cd) && negb (col_default_now cd).

(** The record set has a column the table lacks (a label that, as SQLite
    compares names, is no column of the table and no name of its
    rowid), or lacks a required column of the table (no label is the
    name of the column, as SQLite compares names). *)
Definition schema_mismatch (t : table) (d : DataFrame) : bool :=
  existsb (fun c => negb (has_name c (column_names t))
                    && negb (has_name c rowid_aliases))
          (df_columns d)
  || existsb (fun cd => required_column cd
                        && negb (has_name (col_name cd) (df_columns d)))
             (tbl_columns t).

(** An identifier pandas accepts: not empty and without NUL character. *)
Definition valid_identifier (n : string) : bool :=
  negb (String.eqb n EmptyString)
  && forallb (fun a => negb (Ascii.eqb a Ascii.zero)) (list_ascii_of_string n).

(** The table a load into [name] works on: the one in the store, or the
    empty one pandas creates from the frame when there is none. *)
Definition target_table (s : state) (name : string) (d : DataFrame) : table :=
  default (table_of_frame d) (st_store s !! name).

(** The record set leaves the identifier to the table. *)
Definition auto_id (t : table) (d : DataFrame) : bool :=
  match find col_rowid (tbl_columns t) with
  | None => true
  | Some cd => negb (mem (col_name cd) (df_columns d)) && negb (col_default_now cd)
  end.

(** A row whose identifier cell is its rowid and whose timestamp cells,
    when the record set does not carry them, hold the time of the load. *)
Definition stamped (now : string) (frame_cols : list string)
    (cols : list column_def) (r : row) : Prop :=
  forall k cd, cols !! k = Some cd ->
    (col_rowid cd = true -> row_cells r !! k = Some (VInt (row_id r))) /\
    (col_rowid cd = false -> col_default_now cd = true ->
     mem (col_name cd) frame_cols = false ->
     row_cells r !! k = Some (VText now)).

(** A record set with no rows and a column the fact table does not have. *)
Definition empty_mismatched : DataFrame := mkDataFrame 0 [("bogus", SObject [])].

(** A store whose dimension tables were created elsewhere with the
    derived columns. *)
Definition migrated_store : db :=
  <["dim_sales_targets" :=
      mkTable (dim_sales_targets_columns ++ [plain "target_roi" REAL])%list [] 0]>
  (<["dim_customers" :=
      mkTable (dim_customers_columns ++ [plain "avg_order_value" REAL])%list [] 0]> ∅).

(** The pipeline object right after its construction on an empty store. *)
Definition ready : state := snd (setup_database (snd (boot ∅))).

(** Order and classes of rows under a key. *)
Definition row_le {A} (key : A -> list value) (x y : A) : Prop :=
  Sql.key_leb (key x) (key y) = true.

Definition same_key {A} (key : A -> list value) (k : list value) (y : A) : bool :=
  Sql.key_eqb k (key y).

Definition group_lt {A} (key : A -> list value) (g1 g2 : list A) : Prop :=
  Sql.key_ltb (Sql.head_key key g1) (Sql.head_key key g2) = true.

(** A group is not empty and all its rows have the key of its head. *)
Definition one_class {A} (key : A -> list value) (g : list A) : Prop :=
  g <> [] /\ Forall (fun y => same_key key (Sql.head_key key g) y = true) g.

(** ** Vocabulary of the report statements *)

(** Positions of the Campaign Fact columns, as [setup_database] lays
    them out. *)
Definition c_tenant_id : nat := 1.
Definition c_date : nat := 4.
Definition c_impressions : nat := 5.
Definition c_clicks : nat := 6.
Definition c_conversions : nat := 7.
Definition c_spend : nat := 8.
Definition c_revenue : nat := 9.
Definition c_ctr : nat := 10.
Definition c_roi : nat := 11.

(** The integers of column [k]. *)
Definition integer_of (v : value) : Z :=
  match v with VInt z => z | _ => 0 end.

Definition column_ints (k : nat) (rows : list row) : list Z :=
  map (fun r => integer_of (cell k r)) rows.

(** The integers of column [k] are small enough for no [SUM] over some
    of the rows, in whatever order, to leave [int64]. *)
Definition no_overflow (rows : list row) (k : nat) : Prop :=
  fold_right Z.add 0 (map Z.abs (column_ints k rows)) <= Int64.max_int.

Definition is_text (v : value) : bool :=
  match v with VText _ => true | _ => false end.

Definition text_or_null (v : value) : bool := is_text v || is_null v.

Definition is_finite_real (v : value) : bool :=
  match v with VReal (Float.Fin _) => true | _ => false end.

(** A row of the Campaign Fact table whose cells hold what their columns
    declare: a text as tenant, a text or nothing as date, integers as
    impressions, clicks and conversions, finite reals as spend, revenue,
    [ctr] and [roi]. *)
Definition campaign_row (r : row) : bool :=
  is_text (cell c_tenant_id r)
  && text_or_null (cell c_date r)
  && forallb (fun k => Sql.is_int (cell k r)) [c_impressions; c_clicks; c_conversions]
  && forallb (fun k => is_finite_real (cell k r)) [c_spend; c_revenue; c_ctr; c_roi].

(** The sum of the values of column [k] over the rows [g], computed on
    the integers, and on the rationals; and their mean. *)
Definition int_total (k : nat) (g : list row) : Z :=
  fold_right Z.add 0 (column_ints k g).

Definition real_of (v : value) : Q :=
  match v with
  | VInt z => inject_Z z
  | VReal (Float.Fin q) => q
  | _ => 0%Q
  end.

Definition real_total (k : nat) (g : list row) : Q :=
  fold_right Qplus 0%Q (map (fun r => real_of (cell k r)) g).

Definition mean (k : nat) (g : list row) : Q :=
  (real_total k g / inject_Z (Z.of_nat (length g)))%Q.

(** The cell is the real number [q]. *)
Definition is_real (q : Q) (v : value) : Prop :=
  exists q', v = VReal (Float.Fin q') /\ (q' == q)%Q.

(** The cell is [m] rounded to [n] decimal places: a multiple of
    [10^-n] that is at most half of [10^-n] away from [m]. *)
Definition is_rounded (n : nat) (m : Q) (v : value) : Prop :=
  exists b z, v = VReal (Float.Fin b) /\
    (b == z # Pos.of_nat (10 ^ n))%Q /\
    (Qabs (b - m) <= 1 # (2 * Pos.of_nat (10 ^ n)))%Q.

(** Field [i] of a result row. *)
Definition field (i : nat) (o : list value) : value := nth i o VNull.

(** The rows of a table that have the key of a result row. *)
Definition rows_of (key : row -> list value) (k : list value) (rows : list row)
  : list row :=
  List.filter (same_key key k) rows.

Definition tenant_key (r : row) : list value := [cell c_tenant_id r].
Definition day_key (r : row) : list value := [cell c_tenant_id r; cell c_date r].

(** The value of a finite numeric cell, and the value [ROUND] gives. *)
Definition finite_q (v : value) : option Q :=
  match v with
  | VInt z => Some (inject_Z z)
  | VReal (Float.Fin q) => Some q
  | _ => None
  end.

Definition round_q (n : nat) (q : Q) : Q :=
  Qmake (Float.round_away (q * inject_Z (Zpos (Float.scale n)))) (Float.scale n).

(** Every cell of [vs] is a finite number between [lo] and [hi]. *)
Definition within (lo hi : Q) (vs : list value) : Prop :=
  Forall (fun v => exists q, finite_q v = Some q /\ (lo <= q)%Q /\ (q <= hi)%Q) vs.

(** A value with at most [n] decimals. *)
Definition on_grid (n : nat) (q : Q) : Prop :=
  exists z : Z, (q == z # Float.scale n)%Q.

(** The average reported for a column whose exact mean is [m]: the mean
    lies between the bounds of the per-record values; the reported value
    is the mean rounded to [n] places and lies between these bounds
    rounded the same way, hence between the bounds themselves where they
    have no more decimals. *)
Definition average_within (n : nat) (lo hi m : Q) (reported : value) : Prop :=
  ((lo <= m)%Q /\ (m <= hi)%Q) /\
  (exists b, reported = VReal (Float.Fin b) /\
     (b == round_q n m)%Q /\
     (round_q n lo <= b)%Q /\ (b <= round_q n hi)%Q /\
     (on_grid n lo -> (lo <= b)%Q) /\
     (on_grid n hi -> (b <= hi)%Q)).

(** What [campaign_summary] returns for the rows of the fact table.  The
    totals and means are those of [int_total], [real_total] and [mean]
    over the rows of the tenant; the two averages are the means rounded
    to 4 and to 2 decimal places. *)
Record summary_of (rows : list row) (out : list (list value)) : Prop := {
  summary_ascending :
    StronglySorted (fun o1 o2 => Sql.key_ltb [field 0 o1] [field 0 o2] = true) out;
  summary_complete :
    forall r, In r rows ->
      exists o, In o out /\ Sql.key_eqb [field 0 o] (tenant_key r) = true;
  summary_totals :
    forall o, In o out ->
      let g := rows_of tenant_key [field 0 o] rows in
      g <> [] /\
      length o = 9%nat /\
      field 1 o = VInt (Z.of_nat (length g)) /\
      field 2 o = VInt (int_total c_impressions g) /\
      field 3 o = VInt (int_total c_clicks g) /\
      field 4 o = VInt (int_total c_conversions g) /\
      is_real (real_total c_spend g) (field 5 o) /\
      is_real (real_total c_revenue g) (field 6 o) /\
      is_rounded 4 (mean c_ctr g) (field 7 o) /\
      is_rounded 2 (mean c_roi g) (field 8 o);
  summary_averages :
    forall o lo hi, In o out ->
      let g := rows_of tenant_key [field 0 o] rows in
      (within lo hi (map (cell c_ctr) g) ->
       average_within 4 lo hi (mean c_ctr g) (field 7 o)) /\
      (within lo hi (map (cell c_roi) g) ->
       average_within 2 lo hi (mean c_roi g) (field 8 o))
}.

(** What [daily_performance] returns for the rows of the fact table. *)
Record daily_of (rows : list row) (out : list (list value)) : Prop := {
  daily_capped : (length out <= 50)%nat;
  daily_ascending :
    StronglySorted
      (fun o1 o2 => Sql.key_ltb [field 0 o1; field 1 o1] [field 0 o2; field 1 o2] = true)
      out;
  daily_first :
    forall r, In r rows ->
      (exists o, In o out /\ Sql.key_eqb [field 0 o; field 1 o] (day_key r) = true) \/
      (length out = 50%nat /\
       forall o, In o out -> Sql.key_ltb [field 0 o; field 1 o] (day_key r) = true);
  daily_totals :
    forall o, In o out ->
      let g := rows_of day_key [field 0 o; field 1 o] rows in
      g <> [] /\
      length o = 5%nat /\
      field 2 o = VInt (int_total c_conversions g) /\
      is_real (real_total c_revenue g) (field 3 o) /\
      is_real (real_total c_spend g) (field 4 o)
}.

(** The kinds of cells a result column can hold, one kind per column,
    for a frame read from the rows to hold exactly these rows. *)
Definition column_kinds : list (value -> bool) :=
  [Sql.is_int; text_or_null; is_finite_real].

Definition of_kinds (ks : list (value -> bool)) (o : list value) : Prop :=
  Forall2 (fun kd v => kd v = true) ks o.

(** The fact table of a state (empty when the store has none). *)
Definition fact_table (s : state) : table :=
  default (mkTable [] [] 0) (st_store s !! "fact_campaigns").

(** Three transformed campaign records of two tenants, and the pipeline
    after loading them into an empty store. *)
Definition sample_fact : DataFrame :=
  mkDataFrame 3
    [ ("tenant_id", SObject [VText "tenant_b"; VText "tenant_a"; VText "tenant_b"]);
      ("campaign_id", SObject [VText "camp_1"; VText "camp_2"; VText "camp_3"]);
      ("date", SObject [VText "2024-10-02"; VText "2024-10-01"; VText "2024-10-02"]);
      ("impressions", SInt [1000; 2000; 4000]);
      ("clicks", SInt [100; 30; 10]);
      ("conversions", SInt [1; 2; 3]);
      ("spend", SFloat [Float.fin 100; Float.fin 200; Float.fin 50]);
      ("revenue", SFloat [Float.fin 150; Float.fin 100; Float.fin 75]);
      ("ctr", SFloat [Float.fin (1 # 10); Float.fin (15 # 1000); Float.fin (25 # 10000)]);
      ("roi", SFloat [Float.fin (1 # 2); Float.fin (- (1 # 2)); Float.fin (1 # 2)]) ].

Definition loaded : state :=
  snd (load_to_database "2024-12-01 00:00:00" sample_fact "fact_campaigns" ready).

(** One campaign whose [roi] is 0.125, loaded into an empty store. *)
Definition eighth_fact : DataFrame :=
  mkDataFrame 1
    [ ("tenant_id", SObject [VText "tenant_a"]);
      ("campaign_id", SObject [VText "camp_1"]);
      ("date", SObject [VText "2024-10-01"]);
      ("impressions", SInt [1000]);
      ("clicks", SInt [100]);
      ("conversions", SInt [8]);
      ("spend", SFloat [Float.fin 800]);
      ("revenue", SFloat [Float.fin 900]);
      ("ctr", SFloat [Float.fin (1 # 10)]);
      ("roi", SFloat [Float.fin (1 # 8)]) ].

Definition loaded_eighth : state :=
  snd (load_to_database "2024-12-01 00:00:00" eighth_fact "fact_campaigns" ready).

(** [n] campaigns of one tenant on one day, each with [2^62]
    conversions, loaded into an empty store. *)
Definition huge_fact (n : nat) : DataFrame :=
  mkDataFrame n
    [ ("tenant_id", SObject (repeat (VText "tenant_a") n));
      ("campaign_id", SObject (repeat (VText "camp_1") n));
      ("date", SObject (repeat (VText "2024-10-01") n));
      ("impressions", SInt (repeat 1000 n));
      ("clicks", SInt (repeat 100 n));
      ("conversions", SInt (repeat (2 ^ 62) n));
      ("spend", SFloat (repeat (Float.fin 800) n));
      ("revenue", SFloat (repeat (Float.fin 900) n));
      ("ctr", SFloat (repeat (Float.fin (1 # 10)) n));
      ("roi", SFloat (repeat (Float.fin (1 # 8)) n)) ].

Definition loaded_huge (n : nat) : state :=
  snd (load_to_database "2024-12-01 00:00:00" (huge_fact n) "fact_campaigns" ready).

(** The customer record of the specification's scenario: 500 spent over
    no orders. *)
Definition customer_without_orders : DataFrame :=
  mkDataFrame 1
    [ ("tenant_id", SObject [VText "tenant_a"]);
      ("customer_id", SObject [VText "cust_tenant_a_000"]);
      ("total_spent", SFloat [Float.fin 500]);
      ("total_orders", SInt [0]) ].

(** Column [c] of the frame at [l], as floats. *)
Definition column_at (h : heap) (l : loc) (c : string) : option (list Float.t) :=
  match h !! l with
  | Some d => floats_of d c
  | None => None
  end.

(** ** Vocabulary of the further properties *)

(** The columns the first ratio of a transform reads, in the order it
    reads them, and the columns the second ratio of
    [transform_campaigns] reads. *)
Definition first_inputs (k : record_set) : list string :=
  match k with
  | Campaigns => ["clicks"; "impressions"]
  | Targets => ["target_revenue"; "target_spend"]
  | Customers => ["total_spent"; "total_orders"]
  end.

Definition roi_inputs : list string := ["revenue"; "spend"].

(** The first label of [cs] that is not a column of the frame. *)
Definition first_missing (d : DataFrame) (cs : list string) : option string :=
  find (fun c => negb (mem c (df_columns d))) cs.

(** A finite value between two integers. *)
Definition finite_between (lo hi : Z) (x : Float.t) : Prop :=
  exists q, x = Float.Fin q /\ (inject_Z lo <= q)%Q /\ (q <= inject_Z hi)%Q.

(** The tables of [setup_database] with the columns it declares. *)
Definition warehouse_schema : list (string * list column_def) :=
  [ ("fact_campaigns", fact_campaigns_columns);
    ("dim_sales_targets", dim_sales_targets_columns);
    ("dim_customers", dim_customers_columns) ].

(** No two rows of a table have the same rowid. *)
Definition keys_unique (d : db) : Prop :=
  forall n t, d !! n = Some t -> NoDup (rowids t).

(** Store [d'] holds every table of [d] with the same columns, and the
    rows of [d] are the first rows there, unchanged and in order. *)
Definition extends (d d' : db) : Prop :=
  forall n t, d !! n = Some t ->
    exists t' new, d' !! n = Some t' /\
      tbl_columns t' = tbl_columns t /\
      tbl_rows t' = (tbl_rows t ++ new)%list.

(** A column without constraint or default, as pandas declares them. *)
Definition unconstrained (cd : column_def) : Prop :=
  col_not_null cd = false /\ col_rowid cd = false /\ col_default_now cd = false.

(** Every integer of the frame fits [int64]. *)
Definition ints_in_range (d : DataFrame) : bool :=
  forallb (forallb value_in_range) (frame_rows d).

(** A stage of the run under which a property of the pipeline state,
    once true, stays true, whether the stage returns or raises. *)
Definition preserves {A} (P : state -> Prop) (m : M (heap * state) A) : Prop :=
  forall hs r hs', m hs = (r, hs') -> P (snd hs) -> P (snd hs').

(** The store a run leaves behind, whatever its outcome. *)
Definition store_after (w : sources) (d : db) : db :=
  st_store (snd (snd (main w (boot d)))).

(** ** The customer source: [extract_api_data] and its fallback *)

(** Python's [random] module: the generator is a stream of raw draws,
    and every call consumes the next one.  Only the range of each result
    is modelled, not its distribution.  A computation that draws returns
    [None] for the [IndexError] that [random.choice] raises on an empty
    sequence, together with the position the stream is left at. *)
Definition Gen (A : Type) : Type := nat -> option A * nat.

Definition gret {A} (a : A) : Gen A := fun p => (Some a, p).
Definition gbind {A B} (m : Gen A) (k : A -> Gen B) : Gen B :=
  fun p =>
    match m p with
    | (Some a, p') => k a p'
    | (None, p') => (None, p')
    end.

Notation "x <~ m ;; k" := (gbind m (fun x => k))
  (at level 100, m at next level, right associativity).

Definition randbelow (draw : nat -> N) (n : N) : Gen N :=
  fun p => (Some (draw p mod n)%N, S p).

(** [random.randint(a, b)]: an integer [a <= n <= b]. *)
Definition randint (draw : nat -> N) (a b : Z) : Gen Z :=
  i <~ randbelow draw (Z.to_N (b - a + 1)) ;;
  gret (a + Z.of_N i).

(** [random.random()]: 53 random bits over [2^53], in [[0, 1)]. *)
Definition random (draw : nat -> N) : Gen Q :=
  fun p => (Some (Z.of_N (draw p mod 2 ^ 53)%N # 2 ^ 53), S p).

(** [random.uniform(a, b)] is [a + (b - a) * random()]. *)
Definition uniform (draw : nat -> N) (a b : Q) : Gen Q :=
  u <~ random draw ;;
  gret (a + (b - a) * u)%Q.

(** [random.choice(seq)] *)
Definition choice {A} (draw : nat -> N) (l : list A) : Gen A :=
  match l with
  | [] => fun p => (None, p)
  | x :: _ =>
      i <~ randbelow draw (N.of_nat (length l)) ;;
      gret (nth (N.to_nat i) l x)
  end.

(** The loop [for a in l: data.append(f(a))]. *)
Fixpoint for_each {A B} (f : A -> Gen B) (l : list A) : Gen (list B) :=
  match l with
  | [] => gret []
  | a :: l' =>
      b <~ f a ;;
      bs <~ for_each f l' ;;
      gret (b :: bs)
  end.

(** The format [{i:03d}]: decimal, padded with zeros to three digits. *)
Definition pad3 (i : nat) : string :=
  (if (i <? 10)%nat then "00" else if (i <? 100)%nat then "0" else "") ++ pretty i.

Record customer := mkCustomer {
  cu_tenant_id : string;
  cu_customer_id : string;
  cu_customer_name : string;
  cu_region : string;
  cu_product_preference : string;
  cu_total_spent : Q;
  cu_total_orders : Z
}.

(** The dictionary built for customer [i] of a tenant; the four random
    values are drawn in the order of the dictionary display. *)
Definition customer_data (draw : nat -> N) (regions : list string)
    (tenant : string) (i : nat) : Gen customer :=
  region <~ choice draw regions ;;
  product_preference <~ choice draw ["Product A"; "Product B"; "Product C"] ;;
  total_spent <~ uniform draw 100 5000 ;;
  total_orders <~ randint draw 1 20 ;;
  gret (mkCustomer tenant ("cust_" ++ tenant ++ "_" ++ pad3 i)
          ("Customer " ++ pretty (i + 1)%nat)
          region product_preference total_spent total_orders).

(** The two nested loops: fifty customers for every tenant of the
    configuration ([TENANTS] and [REGIONS] of [config], lists of
    strings). *)
Definition customer_records (draw : nat -> N) (tenants regions : list string)
  : Gen (list customer) :=
  per_tenant <~ for_each
                  (fun tenant => for_each (customer_data draw regions tenant) (seq 0 50))
                  tenants ;;
  gret (concat per_tenant).

(** [pd.DataFrame(data)] for a list of such dictionaries: one column per
    key, strings as [object], floats as [float64], integers as [int64];
    no column at all for an empty list. *)
Definition customers_frame (data : list customer) : DataFrame :=
  match data with
  | [] => mkDataFrame 0 []
  | _ =>
      mkDataFrame (length data)
        [ ("tenant_id", SObject (map (fun c => VText (cu_tenant_id c)) data));
          ("customer_id", SObject (map (fun c => VText (cu_customer_id c)) data));
          ("customer_name", SObject (map (fun c => VText (cu_customer_name c)) data));
          ("region", SObject (map (fun c => VText (cu_region c)) data));
          ("product_preference",
           SObject (map (fun c => VText (cu_product_preference c)) data));
          ("total_spent", SFloat (map (fun c => Float.fin (cu_total_spent c)) data));
          ("total_orders", SInt (map cu_total_orders data)) ]
  end.

Definition generate_mock_customer_data (draw : nat -> N)
    (tenants regions : list string) : Gen DataFrame :=
  data <~ customer_records draw tenants regions ;;
  gret (customers_frame data).

(** [extract_api_data]: the same loops inside [try]; any exception sends
    it to [_generate_mock_customer_data], whose exceptions propagate. *)
Definition extract_api_data (draw : nat -> N) (tenants regions : list string)
  : Gen DataFrame :=
  fun p =>
    match (data <~ customer_records draw tenants regions ;;
           gret (customers_frame data)) p with
    | (Some df, p') => (Some df, p')
    | (None, p') => generate_mock_customer_data draw tenants regions p'
    end.

(** The labels of the customer frame, and the pairs (tenant, number) the
    loops go through. *)
Definition customer_columns : list string :=
  ["tenant_id"; "customer_id"; "customer_name"; "region"; "product_preference";
   "total_spent"; "total_orders"].

Definition numbered (n : nat) (tenants : list string) : list (string * nat) :=
  concat (map (fun tenant => map (pair tenant) (seq 0 n)) tenants).

Definition customer_keys (tenants : list string) : list (string * nat) :=
  numbered 50 tenants.

(** What the loops make of the pair (tenant, number): the identifying
    fields are determined, the drawn ones lie in their ranges. *)
Definition customer_of (k : string * nat) (c : customer) : Prop :=
  cu_tenant_id c = fst k /\
  cu_customer_id c = "cust_" ++ fst k ++ "_" ++ pad3 (snd k) /\
  (100 <= cu_total_spent c)%Q /\ (cu_total_spent c <= 5000)%Q /\
  1 <= cu_total_orders c <= 20.

(** The identifier the loops give the pair (tenant, number). *)
Definition record_id (prefix : string) (k : string * nat) : string :=
  prefix ++ fst k ++ "_" ++ pad3 (snd k).

Definition customer_id_of (k : string * nat) : string := record_id "cust_" k.

(** ** The generator of sales targets: [DataGenerator.generate_sales_targets] *)

(** [self.products] of [DataGenerator.__init__]. *)
Definition products : list string :=
  ["Product A"; "Product B"; "Product C"; "Product D"; "Product E"].

(** [range(1, 13)] *)
Definition months : list Z := map Z.of_nat (seq 1 12).

Record target := mkTarget {
  tg_tenant_id : string;
  tg_region : string;
  tg_product : string;
  tg_month : Z;
  tg_year : Z;
  tg_target_revenue : Q;
  tg_target_conversions : Z;
  tg_target_spend : Q
}.

Definition target_data (draw : nat -> N) (tenant region product : string) (month : Z)
  : Gen target :=
  target_revenue <~ uniform draw 5000 50000 ;;
  target_conversions <~ randint draw 50 500 ;;
  target_spend <~ uniform draw 2000 20000 ;;
  gret (mkTarget tenant region product month 2024
          target_revenue target_conversions target_spend).

(** The four nested loops, each appending to the one list [data]. *)
Definition target_records (draw : nat -> N) (tenants regions : list string)
  : Gen (list target) :=
  per_tenant <~ for_each (fun tenant =>
    per_region <~ for_each (fun region =>
      per_product <~ for_each (fun product =>
        for_each (target_data draw tenant region product) months) products ;;
      gret (concat per_product)) regions ;;
    gret (concat per_region)) tenants ;;
  gret (concat per_tenant).

Definition targets_frame (data : list target) : DataFrame :=
  match data with
  | [] => mkDataFrame 0 []
  | _ =>
      mkDataFrame (length data)
        [ ("tenant_id", SObject (map (fun t => VText (tg_tenant_id t)) data));
          ("region", SObject (map (fun t => VText (tg_region t)) data));
          ("product", SObject (map (fun t => VText (tg_product t)) data));
          ("month", SInt (map tg_month data));
          ("year", SInt (map tg_year data));
          ("target_revenue", SFloat (map (fun t => Float.fin (tg_target_revenue t)) data));
          ("target_conversions", SInt (map tg_target_conversions data));
          ("target_spend", SFloat (map (fun t => Float.fin (tg_target_spend t)) data)) ]
  end.

(** [generate_sales_targets]: the frame is written to the spreadsheet
    file and returned; [to_excel] stands for the outcome of writing it.
    The outer [option] is that of the draws (none of which can fail
    here), the inner result that of the function. *)
Definition generate_sales_targets (draw : nat -> N) (tenants regions : list string)
    (to_excel : DataFrame -> result unit) : Gen (result DataFrame) :=
  data <~ target_records draw tenants regions ;;
  gret (match to_excel (targets_frame data) with
        | Ok _ => Ok (targets_frame data)
        | Raise e => Raise e
        end).

(** The planning cells the loops go through, in their order, and the
    planning cell of a row of the frame: its first five fields
    (tenant, region, product, month, year). *)
Definition planning_cells (tenants regions : list string)
  : list (string * string * string * Z) :=
  concat (map (fun tenant =>
    concat (map (fun region =>
      concat (map (fun product =>
        map (fun month => (tenant, region, product, month)) months) products))
      regions)) tenants).

Definition target_of (k : string * string * string * Z) (t : target) : Prop :=
  (tg_tenant_id t, tg_region t, tg_product t, tg_month t) = k /\
  tg_year t = 2024 /\
  (5000 <= tg_target_revenue t)%Q /\ (tg_target_revenue t <= 50000)%Q /\
  (2000 <= tg_target_spend t)%Q /\ (tg_target_spend t <= 20000)%Q /\
  50 <= tg_target_conversions t <= 500.

Definition cell_key (r : list value) : list value := firstn 5 r.

(** A target as a row of the frame, and the key of a planning cell as
    the first five fields of such a row. *)
Definition target_row (t : target) : list value :=
  [ VText (tg_tenant_id t); VText (tg_region t); VText (tg_product t);
    VInt (tg_month t); VInt (tg_year t);
    cell_of_float (Float.fin (tg_target_revenue t));
    VInt (tg_target_conversions t);
    cell_of_float (Float.fin (tg_target_spend t)) ].

Definition planning_key (k : string * string * string * Z) : list value :=
  let '(tenant, region, product, month) := k in
  [VText tenant; VText region; VText product; VInt month; VInt 2024].

(** A sample configuration and run of the generator: two tenants, two
    regions, the draws 0, 1, 2, ... and a spreadsheet that is written. *)
Definition sample_targets : option (result DataFrame) * nat :=
  generate_sales_targets (fun n => N.of_nat n) ["tenant_a"; "tenant_b"]
    ["North"; "South"] (fun _ => Ok tt) 0%nat.

Definition sample_targets_frame : DataFrame :=
  match fst sample_targets with
  | Some (Ok d) => d
  | _ => mkDataFrame 0 []
  end.

(** ** The generator of campaigns: [DataGenerator.generate_marketing_campaigns] *)

(** [self.campaign_types] of [DataGenerator.__init__]. *)
Definition campaign_types : list string :=
  ["Social Media"; "Search"; "Display"; "Video"; "Email"].

(** Python's [round(x, n)] on a float, idealised as [numpy.round] is:
    the nearest value with [n] decimals, ties to even. *)
Definition py_round (n : nat) (q : Q) : Q :=
  Qmake (Float.rint (q * inject_Z (Zpos (Float.scale n)))) (Float.scale n).

Record campaign := mkCampaign {
  ca_tenant_id : string;
  ca_campaign_id : string;
  ca_campaign_name : string;
  ca_date : string;
  ca_impressions : Z;
  ca_clicks : Z;
  ca_conversions : Z;
  ca_spend : Q;
  ca_revenue : Q;
  ca_region : string;
  ca_product : string
}.

(** One iteration of the inner loop.  [date_string k] stands for
    [(datetime(2024, 10, 1) + timedelta(days=k)).strftime('%Y-%m-%d')]. *)
Definition campaign_data (draw : nat -> N) (date_string : Z -> string)
    (regions : list string) (tenant : string) (i : nat) : Gen campaign :=
  days <~ randint draw 0 60 ;;
  impressions <~ randint draw 5000 50000 ;;
  clicks <~ randint draw 100 5000 ;;
  conversions <~ randint draw 10 500 ;;
  spend <~ uniform draw 100 10000 ;;
  factor <~ uniform draw (1 # 2) 3 ;;
  campaign_type <~ choice draw campaign_types ;;
  region <~ choice draw regions ;;
  product <~ choice draw products ;;
  gret (mkCampaign tenant ("camp_" ++ tenant ++ "_" ++ pad3 i)
          ("Campaign " ++ pretty (i + 1)%nat ++ " - " ++ campaign_type)
          (date_string days) impressions clicks conversions
          (py_round 2 spend) (py_round 2 (spend * factor)%Q) region product).

Definition campaign_records (draw : nat -> N) (date_string : Z -> string)
    (tenants regions : list string) : Gen (list campaign) :=
  per_tenant <~ for_each
                  (fun tenant =>
                     for_each (campaign_data draw date_string regions tenant) (seq 0 100))
                  tenants ;;
  gret (concat per_tenant).

Definition campaigns_frame (data : list campaign) : DataFrame :=
  match data with
  | [] => mkDataFrame 0 []
  | _ =>
      mkDataFrame (length data)
        [ ("tenant_id", SObject (map (fun c => VText (ca_tenant_id c)) data));
          ("campaign_id", SObject (map (fun c => VText (ca_campaign_id c)) data));
          ("campaign_name", SObject (map (fun c => VText (ca_campaign_name c)) data));
          ("date", SObject (map (fun c => VText (ca_date c)) data));
          ("impressions", SInt (map ca_impressions data));
          ("clicks", SInt (map ca_clicks data));
          ("conversions", SInt (map ca_conversions data));
          ("spend", SFloat (map (fun c => Float.fin (ca_spend c)) data));
          ("revenue", SFloat (map (fun c => Float.fin (ca_revenue c)) data));
          ("region", SObject (map (fun c => VText (ca_region c)) data));
          ("product", SObject (map (fun c => VText (ca_product c)) data)) ]
  end.

(** [generate_marketing_campaigns]: the frame is written to the CSV
    file and returned; [to_csv] stands for the outcome of writing it. *)
Definition generate_marketing_campaigns (draw : nat -> N) (date_string : Z -> string)
    (tenants regions : list string) (to_csv : DataFrame -> result unit)
  : Gen (result DataFrame) :=
  data <~ campaign_records draw date_string tenants regions ;;
  gret (match to_csv (campaigns_frame data) with
        | Ok _ => Ok (campaigns_frame data)
        | Raise e => Raise e
        end).

(** What an iteration makes of the pair (tenant, number): the identifier
    is determined, the counts lie in their ranges, and spend and revenue
    are the rounded values of a spend between 100 and 10000 and of that
    spend times a factor between 0.5 and 3. *)
Definition campaign_of (k : string * nat) (c : campaign) : Prop :=
  ca_campaign_id c = record_id "camp_" k /\
  5000 <= ca_impressions c <= 50000 /\
  100 <= ca_clicks c <= 5000 /\
  exists spend factor : Q,
    (100 <= spend)%Q /\ (spend <= 10000)%Q /\
    (1 # 2 <= factor)%Q /\ (factor <= 3)%Q /\
    ca_spend c = py_round 2 spend /\
    ca_revenue c = py_round 2 (spend * factor)%Q.

(** A sample run of the generator: two tenants, one region. *)
Definition sample_campaigns : option (result DataFrame) * nat :=
  generate_marketing_campaigns (fun n => N.of_nat n) (fun k => pretty k)
    ["tenant_a"; "tenant_b"] ["North"] (fun _ => Ok tt) 0%nat.

Definition sample_campaigns_frame : DataFrame :=
  match fst sample_campaigns with
  | Some (Ok d) => d
  | _ => mkDataFrame 0 []
  end.
(** * Properties *)

(** ** Columns of a frame *)

Lemma lookup_set_col_eq c s cols : lookup_col c (set_col c s cols) = Some s.
Proof.
  induction cols as [|[c' s'] rest IH]; simpl.
  - now rewrite String.eqb_refl.
  - destruct (String.eqb c c') eqn:E; simpl; rewrite E; auto.
Qed.

Lemma lookup_set_col_ne c c' s cols :
  c <> c' -> lookup_col c' (set_col c s cols) = lookup_col c' cols.
Proof.
  intros Hne. induction cols as [|[c0 s0] rest IH]; simpl.
  - destruct (String.eqb c' c) eqn:E; auto.
    apply String.eqb_eq in E. congruence.
  - destruct (String.eqb c c0) eqn:E; simpl.
    + apply String.eqb_eq in E. subst c0.
      destruct (String.eqb c' c) eqn:E'; auto.
      apply String.eqb_eq in E'. congruence.
    + now rewrite IH.
Qed.

Lemma set_col_twice c s1 s2 cols :
  set_col c s2 (set_col c s1 cols) = set_col c s2 cols.
Proof.
  induction cols as [|[c' s'] rest IH]; simpl.
  - now rewrite String.eqb_refl.
  - destruct (String.eqb c c') eqn:E; simpl; rewrite E; auto. now rewrite IH.
Qed.

Lemma set_col_comm c1 c2 s1 s2 cols :
  c1 <> c2 -> In c1 (map fst cols) ->
  set_col c1 s1 (set_col c2 s2 cols) = set_col c2 s2 (set_col c1 s1 cols).
Proof.
  intros Hne. induction cols as [|[c' s'] rest IH]; simpl; [tauto|].
  intros Hin.
  destruct (String.eqb c2 c') eqn:E2; destruct (String.eqb c1 c') eqn:E1;
    simpl; rewrite ?E1, ?E2; auto.
  - apply String.eqb_eq in E1, E2. congruence.
  - f_equal. apply IH. destruct Hin as [Hin|Hin]; auto.
    apply String.eqb_neq in E1. congruence.
Qed.

Lemma set_col_In c s cols : In c (map fst (set_col c s cols)).
Proof.
  induction cols as [|[c' s'] rest IH]; simpl; auto.
  destruct (String.eqb c c') eqn:E; simpl; auto.
  apply String.eqb_eq in E. auto.
Qed.

(** ** Running the monad *)

Lemma bind_ok {S A B} (m : M S A) (k : A -> M S B) h a h' :
  m h = (Ok a, h') -> bind m k h = k a h'.
Proof. intros E. unfold bind. now rewrite E. Qed.

Lemma getitem_ok (h : heap) df d c s :
  h !! df = Some d -> lookup_col c (df_data d) = Some s ->
  getitem df c h = (Ok s, h).
Proof. intros Hd Hc. unfold getitem. now rewrite Hd, Hc. Qed.

Lemma setitem_ok (h : heap) df d c s :
  h !! df = Some d -> setitem df c s h = (Ok tt, <[df := df_set c s d]> h).
Proof. intros Hd. unfold setitem. now rewrite Hd. Qed.

(** ** The Metric Transformer *)

Lemma map_zip_with {A B C D} (f : C -> D) (g : A -> B -> C) (x : list A) (y : list B) :
  map f (zip_with g x y) = zip_with (fun a b => f (g a b)) x y.
Proof.
  revert y. induction x as [|a x IH]; intros [|b y]; simpl; auto.
  now rewrite IH.
Qed.

Lemma fillna_round_div n (x y : list Float.t) :
  map fillna_float (map (Float.np_round n) (zip_with Float.div x y))
  = zip_with (ratio n) x y.
Proof. now rewrite !map_zip_with. Qed.

Lemma fillna_not_nan x : Float.is_nan (fillna_float x) = false.
Proof. now destruct x. Qed.

Lemma qsign_Eq q : Float.qsign q = Eq <-> (q == 0)%Q.
Proof.
  unfold Float.qsign, Qeq. simpl. rewrite Z.compare_eq_iff. lia.
Qed.

Lemma ratio_nonzero_den n a b :
  ~ (b == 0)%Q ->
  ratio n (Float.Fin a) (Float.Fin b) = Float.np_round n (Float.fin (a / b)).
Proof.
  intros Hb. unfold ratio, Float.div.
  destruct (Float.qsign b) eqn:E; try reflexivity.
  apply qsign_Eq in E. contradiction.
Qed.

Lemma ratio_zero_zero n a b :
  (a == 0)%Q -> (b == 0)%Q -> ratio n (Float.Fin a) (Float.Fin b) = Float.zero.
Proof.
  intros Ha Hb. apply qsign_Eq in Ha, Hb.
  unfold ratio, Float.div. now rewrite Ha, Hb.
Qed.

Lemma zip_ratio_column n x y : ratio_column n x y (zip_with (ratio n) x y).
Proof.
  intros i a b Ha Hb. exists (ratio n a b). split; [|split; [|split]].
  - apply lookup_zip_with_Some. eauto.
  - apply fillna_not_nan.
  - intros p q -> -> Hq. now apply ratio_nonzero_den.
  - intros p q -> -> Hp Hq. now apply ratio_zero_zero.
Qed.

(** Running one statement of a transform. *)
Ltac run_getitem Hd :=
  erewrite bind_ok;
  [| eapply getitem_ok; [exact Hd | first [eassumption | reflexivity]]].

Lemma transform_campaigns_run (h : heap) df d clicks impressions revenue spend net x y z w :
  h !! df = Some d ->
  lookup_col "clicks" (df_data d) = Some clicks ->
  lookup_col "impressions" (df_data d) = Some impressions ->
  lookup_col "revenue" (df_data d) = Some revenue ->
  lookup_col "spend" (df_data d) = Some spend ->
  as_floats clicks = Some x ->
  as_floats impressions = Some y ->
  series_sub revenue spend = Ok net ->
  as_floats net = Some z ->
  as_floats spend = Some w ->
  transform_campaigns df h =
    (Ok df, <[df := df_set "roi" (SFloat (zip_with (ratio 2) z w))
                     (df_set "ctr" (SFloat (zip_with (ratio 4) x y)) d)]> h).
Proof.
  intros Hd Hc Hi Hr Hs Hx Hy Hnet Hz Hw.
  unfold transform_campaigns.
  run_getitem Hd. run_getitem Hd.
  erewrite bind_ok; [| unfold lift, truediv; rewrite Hx, Hy; reflexivity].
  erewrite bind_ok; [| eapply setitem_ok; exact Hd].
  set (d1 := df_set "ctr" _ d).
  assert (Hd1 : (<[df := d1]> h) !! df = Some d1) by apply lookup_insert_eq.
  assert (Hr1 : lookup_col "revenue" (df_data d1) = Some revenue).
  { unfold d1. simpl. now rewrite lookup_set_col_ne by discriminate. }
  assert (Hs1 : lookup_col "spend" (df_data d1) = Some spend).
  { unfold d1. simpl. now rewrite lookup_set_col_ne by discriminate. }
  run_getitem Hd1. run_getitem Hd1.
  erewrite bind_ok; [| unfold lift; rewrite Hnet; reflexivity].
  run_getitem Hd1.
  erewrite bind_ok; [| unfold lift, truediv; rewrite Hz, Hw; reflexivity].
  erewrite bind_ok; [| eapply setitem_ok; exact Hd1].
  rewrite insert_insert_eq.
  set (d2 := df_set "roi" _ d1).
  assert (Hd2 : (<[df := d2]> h) !! df = Some d2) by apply lookup_insert_eq.
  erewrite bind_ok;
    [| eapply getitem_ok; [exact Hd2|]; unfold d2, d1; simpl;
       rewrite lookup_set_col_ne by discriminate; apply lookup_set_col_eq].
  erewrite bind_ok; [| eapply setitem_ok; exact Hd2].
  rewrite insert_insert_eq.
  set (d3 := df_set "ctr" _ d2).
  assert (Hd3 : (<[df := d3]> h) !! df = Some d3) by apply lookup_insert_eq.
  erewrite bind_ok;
    [| eapply getitem_ok; [exact Hd3|]; unfold d3, d2; simpl;
       rewrite lookup_set_col_ne by discriminate; apply lookup_set_col_eq].
  erewrite bind_ok; [| eapply setitem_ok; exact Hd3].
  rewrite insert_insert_eq.
  unfold ret. f_equal. f_equal.
  unfold d3, d2, d1, df_set. simpl. f_equal.
  rewrite !fillna_round_div.
  rewrite (set_col_comm "ctr" "roi") by (try discriminate; apply set_col_In).
  now rewrite !set_col_twice.
Qed.

(** A transform with a single derived column. *)
Lemma single_ratio_run (h : heap) df d out cnum cden num den n x y :
  out <> cnum -> out <> cden ->
  h !! df = Some d ->
  lookup_col cnum (df_data d) = Some num ->
  lookup_col cden (df_data d) = Some den ->
  as_floats num = Some x ->
  as_floats den = Some y ->
  (a <- getitem df cnum ;;
   b <- getitem df cden ;;
   q <- lift (truediv a b) ;;
   setitem df out (series_round n (SFloat q)) ;;;
   r <- getitem df out ;;
   setitem df out (series_fillna0 r) ;;;
   ret df) h
  = (Ok df, <[df := df_set out (SFloat (zip_with (ratio n) x y)) d]> h).
Proof.
  intros Hn1 Hn2 Hd Hnum Hden Hx Hy.
  run_getitem Hd. run_getitem Hd.
  erewrite bind_ok; [| unfold lift, truediv; rewrite Hx, Hy; reflexivity].
  erewrite bind_ok; [| eapply setitem_ok; exact Hd].
  set (d1 := df_set out _ d).
  assert (Hd1 : (<[df := d1]> h) !! df = Some d1) by apply lookup_insert_eq.
  erewrite bind_ok;
    [| eapply getitem_ok; [exact Hd1|]; unfold d1; simpl; apply lookup_set_col_eq].
  erewrite bind_ok; [| eapply setitem_ok; exact Hd1].
  rewrite insert_insert_eq.
  unfold ret. f_equal. f_equal.
  unfold d1, df_set. simpl. f_equal.
  now rewrite fillna_round_div, set_col_twice.
Qed.

Lemma transform_targets_run (h : heap) df d num den x y :
  h !! df = Some d ->
  lookup_col "target_revenue" (df_data d) = Some num ->
  lookup_col "target_spend" (df_data d) = Some den ->
  as_floats num = Some x ->
  as_floats den = Some y ->
  transform_targets df h
  = (Ok df, <[df := df_set "target_roi" (SFloat (zip_with (ratio 2) x y)) d]> h).
Proof. intros. eapply single_ratio_run; eauto; discriminate. Qed.

Lemma transform_customers_run (h : heap) df d num den x y :
  h !! df = Some d ->
  lookup_col "total_spent" (df_data d) = Some num ->
  lookup_col "total_orders" (df_data d) = Some den ->
  as_floats num = Some x ->
  as_floats den = Some y ->
  transform_customers df h
  = (Ok df, <[df := df_set "avg_order_value" (SFloat (zip_with (ratio 2) x y)) d]> h).
Proof. intros. eapply single_ratio_run; eauto; discriminate. Qed.

Lemma floats_of_Some d c x :
  floats_of d c = Some x ->
  exists s, lookup_col c (df_data d) = Some s /\ as_floats s = Some x.
Proof.
  unfold floats_of. destruct (lookup_col c (df_data d)); [eauto | discriminate].
Qed.

Lemma inputs_numeric_field k d f :
  inputs_numeric k d = true -> In f (derived k) ->
  exists xs ys, eval_numerator d (d_num f) = Some xs /\
                floats_of d (d_den f) = Some ys.
Proof.
  unfold inputs_numeric. rewrite forallb_forall. intros H Hf.
  apply H in Hf. apply andb_prop in Hf as [H1 H2].
  apply bool_decide_eq_true in H1 as [xs H1].
  apply bool_decide_eq_true in H2 as [ys H2]. eauto.
Qed.

(** What each transform leaves in the frame it was given. *)
Lemma transform_run (k : record_set) (h : heap) df d :
  h !! df = Some d -> inputs_numeric k d = true ->
  exists d', transform k df h = (Ok df, <[df := d']> h) /\
    (exists news, map fst news = derived_names k /\ d' = set_cols news d) /\
    forall f, In f (derived k) ->
      exists xs ys,
        eval_numerator d (d_num f) = Some xs /\
        floats_of d (d_den f) = Some ys /\
        lookup_col (d_name f) (df_data d')
          = Some (SFloat (zip_with (ratio (d_places f)) xs ys)).
Proof.
  intros Hd Hin.
  assert (Hf := fun f => inputs_numeric_field k d f Hin).
  destruct k; simpl in Hf |- *.
  - (* campaigns *)
    destruct (Hf _ (or_introl eq_refl)) as (x & y & Hx & Hy).
    destruct (Hf _ (or_intror (or_introl eq_refl))) as (z & w & Hz & Hw).
    simpl in Hx, Hy, Hz, Hw.
    apply floats_of_Some in Hx as (clicks & Hc & Hx).
    apply floats_of_Some in Hy as (impressions & Hi & Hy).
    apply floats_of_Some in Hw as (spend & Hs & Hw).
    destruct (lookup_col "revenue" (df_data d)) as [revenue|] eqn:Hr; [|discriminate].
    rewrite Hs in Hz.
    destruct (series_sub revenue spend) as [net|] eqn:Hnet; [|discriminate].
    eexists. split; [|split].
    + eapply transform_campaigns_run; eauto.
    + eexists [(_, _); (_, _)]. split; reflexivity.
    + intros f [<-|[<-|[]]]; simpl.
      * exists x, y. unfold floats_of. rewrite Hc, Hi.
        repeat split; auto.
        rewrite lookup_set_col_ne by discriminate. apply lookup_set_col_eq.
      * exists z, w. unfold floats_of. rewrite Hr, Hs, Hnet.
        repeat split; auto. apply lookup_set_col_eq.
  - (* targets *)
    destruct (Hf _ (or_introl eq_refl)) as (x & y & Hx & Hy).
    simpl in Hx, Hy.
    apply floats_of_Some in Hx as (num & Hc & Hx).
    apply floats_of_Some in Hy as (den & Hi & Hy).
    eexists. split; [|split].
    + eapply transform_targets_run; eauto.
    + eexists [(_, _)]. split; reflexivity.
    + intros f [<-|[]]; simpl.
      exists x, y. unfold floats_of. rewrite Hc, Hi.
      repeat split; auto. apply lookup_set_col_eq.
  - (* customers *)
    destruct (Hf _ (or_introl eq_refl)) as (x & y & Hx & Hy).
    simpl in Hx, Hy.
    apply floats_of_Some in Hx as (num & Hc & Hx).
    apply floats_of_Some in Hy as (den & Hi & Hy).
    eexists. split; [|split].
    + eapply transform_customers_run; eauto.
    + eexists [(_, _)]. split; reflexivity.
    + intros f [<-|[]]; simpl.
      exists x, y. unfold floats_of. rewrite Hc, Hi.
      repeat split; auto. apply lookup_set_col_eq.
Qed.

(** What does hold of the derived fields: every transform succeeds on a
    record set whose input columns are numeric, and each derived field
    ([ctr], [roi], [target_roi], [avg_order_value]) then holds, in every
    row, a value that is never null; over a non-zero denominator it is the
    documented ratio rounded to the documented number of places (4 for
    [ctr], 2 for the others), and for a zero numerator over a zero
    denominator it is [0]. *)
Lemma derived_fields_present_and_rounded (k : record_set) (h : heap) (df : loc)
    (d : DataFrame) :
  h !! df = Some d ->
  inputs_numeric k d = true ->
  exists d', transform k df h = (Ok df, <[df := d']> h) /\
    forall f, In f (derived k) ->
      exists xs ys os,
        eval_numerator d (d_num f) = Some xs /\
        floats_of d (d_den f) = Some ys /\
        lookup_col (d_name f) (df_data d') = Some (SFloat os) /\
        ratio_column (d_places f) xs ys os.
Proof.
  intros Hd Hin.
  destruct (transform_run k h df d Hd Hin) as (d' & Hrun & _ & Hf).
  exists d'. split; [exact Hrun|].
  intros f Hin'. destruct (Hf f Hin') as (xs & ys & Hx & Hy & Ho).
  exists xs, ys, (zip_with (ratio (d_places f)) xs ys).
  repeat split; auto. apply zip_ratio_column.
Qed.

(** The campaign scenario of the specification: no impressions, no
    clicks, a spend of 100 and no revenue give [ctr = 0] and
    [roi = -1.0]. *)
Lemma zero_over_zero_scenario :
  exists h', transform_campaigns 0%nat {[ 0%nat := campaign_frame 0 0 0 100 ]}
             = (Ok 0%nat, h') /\
    column_at h' 0%nat "ctr" = Some [Float.Fin 0] /\
    column_at h' 0%nat "roi" = Some [Float.Fin (-1)].
Proof.
  eexists. split; [vm_compute; reflexivity|]. split; vm_compute; reflexivity.
Qed.

(** C1: the zero-substitution of the transforms only catches [0/0].  The
    customer of the specification's own scenario, 500 spent over 0 orders,
    is left with an infinite [avg_order_value] where the claim asks for
    [0]; likewise 5 clicks on 0 impressions leave an infinite [ctr] and a
    revenue of 50 on a spend of 0 an infinite [roi]. *)
Theorem nonzero_over_zero_is_not_substituted :
  (exists h',
     transform_customers 0%nat {[ 0%nat := customer_without_orders ]} = (Ok 0%nat, h') /\
     floats_of customer_without_orders "total_orders" = Some [Float.Fin 0] /\
     column_at h' 0%nat "avg_order_value" = Some [Float.PInf] /\
     ~ zero_substituted [Float.Fin 0] [Float.PInf]) /\
  (exists h',
     transform_campaigns 0%nat {[ 0%nat := campaign_frame 5 0 50 0 ]} = (Ok 0%nat, h') /\
     floats_of (campaign_frame 5 0 50 0) "impressions" = Some [Float.Fin 0] /\
     floats_of (campaign_frame 5 0 50 0) "spend" = Some [Float.Fin 0] /\
     column_at h' 0%nat "ctr" = Some [Float.PInf] /\
     column_at h' 0%nat "roi" = Some [Float.PInf]).
Proof.
  split.
  - eexists. split; [vm_compute; reflexivity|].
    split; [reflexivity|]. split; [vm_compute; reflexivity|].
    intros H. specialize (H 0%nat _ _ eq_refl eq_refl eq_refl). discriminate.
  - eexists. split; [vm_compute; reflexivity|].
    repeat split; vm_compute; reflexivity.
Qed.

(** ** Frame of the transforms *)

Lemma mem_In c l : mem c l = true <-> In c l.
Proof.
  unfold mem. rewrite existsb_exists. split.
  - intros (x & Hx & E). apply String.eqb_eq in E. now subst.
  - intros H. exists c. split; auto. apply String.eqb_refl.
Qed.

Lemma set_col_names c s cols :
  map fst (set_col c s cols)
  = (map fst cols ++ (if mem c (map fst cols) then [] else [c]))%list.
Proof.
  induction cols as [|[c' s'] rest IH]; simpl; auto.
  unfold mem in *. simpl.
  destruct (String.eqb c c') eqn:E; simpl.
  - now rewrite app_nil_r.
  - now rewrite IH.
Qed.

Lemma set_col_filter (p : string -> bool) c s cols :
  p c = false ->
  List.filter (fun cs => p (fst cs)) (set_col c s cols)
  = List.filter (fun cs => p (fst cs)) cols.
Proof.
  intros Hp. induction cols as [|[c' s'] rest IH]; simpl.
  - now rewrite Hp.
  - destruct (String.eqb c c') eqn:E; simpl.
    + apply String.eqb_eq in E. subst c'. now rewrite Hp.
    + now rewrite IH.
Qed.

Lemma set_cols_index news d : df_index (set_cols news d) = df_index d.
Proof.
  revert d. induction news as [|[c s] news IH]; intros d; simpl; auto.
  unfold set_cols in *. simpl. now rewrite IH.
Qed.

Lemma set_cols_filter (p : string -> bool) news d :
  (forall c, In c (map fst news) -> p c = false) ->
  List.filter (fun cs => p (fst cs)) (df_data (set_cols news d))
  = List.filter (fun cs => p (fst cs)) (df_data d).
Proof.
  revert d. induction news as [|[c s] news IH]; intros d Hp; simpl; auto.
  unfold set_cols in *. simpl. rewrite IH.
  - simpl. apply set_col_filter. apply Hp. now left.
  - intros c' Hc'. apply Hp. now right.
Qed.

Lemma set_cols_names news d :
  NoDup (map fst news) ->
  df_columns (set_cols news d)
  = (df_columns d ++ List.filter (fun c => negb (mem c (df_columns d))) (map fst news))%list.
Proof.
  revert d. induction news as [|[c s] news IH]; intros d Hnd; simpl.
  - now rewrite app_nil_r.
  - inversion Hnd as [|? ? Hnotin Hnd']; subst.
    unfold set_cols in *. simpl. rewrite IH by assumption.
    unfold df_columns at 1 2. simpl. rewrite set_col_names.
    fold (df_columns d). rewrite <- app_assoc. f_equal.
    assert (Hext : forall c', In c' (map fst news) ->
              negb (mem c' (df_columns d ++ (if mem c (df_columns d) then [] else [c]))%list)
              = negb (mem c' (df_columns d))).
    { intros c' Hc'. f_equal.
      destruct (mem c (df_columns d)); [now rewrite app_nil_r|].
      unfold mem. rewrite existsb_app. simpl.
      destruct (String.eqb c' c) eqn:E.
      - apply String.eqb_eq in E. subst c'. exfalso. apply Hnotin. now apply list_elem_of_In.
      - now rewrite !orb_false_r. }
    rewrite (filter_ext_in _ _ _ Hext).
    now destruct (mem c (df_columns d)).
Qed.

(** C4 (as amended): a transform works on the record set it is given, in
    place, and returns that same record set; no other frame changes, and
    in the frame itself the rows (the index), the original columns that do
    not bear the name of a derived field, their order and their values
    stay as they were, the derived columns that were not there being
    appended after them. *)
Theorem transforms_update_in_place (k : record_set) (h : heap) (df : loc)
    (d : DataFrame) :
  h !! df = Some d ->
  inputs_numeric k d = true ->
  exists d', transform k df h = (Ok df, <[df := d']> h) /\
    df_index d' = df_index d /\
    originals k d' = originals k d /\
    df_columns d'
    = (df_columns d ++ List.filter (fun c => negb (mem c (df_columns d))) (derived_names k))%list.
Proof.
  intros Hd Hin.
  destruct (transform_run k h df d Hd Hin) as (d' & Hrun & (news & Hnames & ->) & _).
  exists (set_cols news d). split; [exact Hrun|]. split; [apply set_cols_index|]. split.
  - unfold originals. apply (set_cols_filter (fun c => negb (mem c (derived_names k)))).
    intros c Hc. rewrite Hnames in Hc. apply mem_In in Hc. now rewrite Hc.
  - rewrite <- Hnames. apply set_cols_names. rewrite Hnames.
    destruct k; apply (bool_decide_unpack _); vm_compute; exact I.
Qed.

Lemma transforms_update_in_place_witness :
  exists d', transform Customers 0%nat
               {[ 0%nat := mkDataFrame 1 [("total_spent", SFloat [Float.fin 500]);
                                           ("total_orders", SInt [0])] ]}
             = (Ok 0%nat,
                <[0%nat := d']> {[ 0%nat := mkDataFrame 1 [("total_spent", SFloat [Float.fin 500]);
                                                          ("total_orders", SInt [0])] ]}) /\
    df_index d' = 1%nat /\
    originals Customers d'
    = [("total_spent", SFloat [Float.fin 500]); ("total_orders", SInt [0])] /\
    df_columns d' = ["total_spent"; "total_orders"; "avg_order_value"].
Proof.
  apply (transforms_update_in_place Customers
           {[ 0%nat := mkDataFrame 1 [("total_spent", SFloat [Float.fin 500]);
                                       ("total_orders", SInt [0])] ]}
           0%nat
           (mkDataFrame 1 [("total_spent", SFloat [Float.fin 500]);
                           ("total_orders", SInt [0])])).
  - apply lookup_singleton_eq.
  - reflexivity.
Defined.

(** C4, as worded, fails: the record set returned is the one passed in,
    and that input record set is no longer what it was: it has gained the
    derived column. *)
Lemma transform_customers_changes_its_input :
  exists h',
    transform_customers 0%nat
      {[ 0%nat := mkDataFrame 1 [("total_spent", SFloat [Float.fin 500]);
                                   ("total_orders", SInt [4])] ]}
    = (Ok 0%nat, h') /\
    h' !! 0%nat
    = Some (mkDataFrame 1 [("total_spent", SFloat [Float.fin 500]);
                           ("total_orders", SInt [4]);
                           ("avg_order_value", SFloat [Float.fin 125])]) /\
    h' !! 0%nat
    <> Some (mkDataFrame 1 [("total_spent", SFloat [Float.fin 500]);
                            ("total_orders", SInt [4])]).
Proof.
  eexists. split; [|split].
  - vm_compute. reflexivity.
  - vm_compute. reflexivity.
  - vm_compute. discriminate.
Qed.

(** *** Whatever the outcome *)

Lemma frame_kept_refl k df h : frame_kept k df h h.
Proof. intros l d H. exists d. auto. Qed.

Lemma frame_kept_trans k df h1 h2 h3 :
  frame_kept k df h1 h2 -> frame_kept k df h2 h3 -> frame_kept k df h1 h3.
Proof.
  intros H12 H23 l d H.
  destruct (H12 l d H) as (d2 & Hd2 & Hi2 & Ho2 & Hn2).
  destruct (H23 l d2 Hd2) as (d3 & Hd3 & Hi3 & Ho3 & Hn3).
  exists d3. repeat split; try congruence.
  intros Hne. rewrite (Hn3 Hne). auto.
Qed.

Lemma kept_getitem k df c : keeps_frames k df (getitem df c).
Proof.
  intros h r h' E. unfold getitem in E.
  destruct (h !! df) as [d|]; [destruct (lookup_col c (df_data d))|];
    inversion E; subst; apply frame_kept_refl.
Qed.

Lemma kept_lift {A} k df (x : result A) : keeps_frames k df (lift x).
Proof. intros h r h' E. inversion E; subst. apply frame_kept_refl. Qed.

Lemma kept_ret {A} k df (a : A) : keeps_frames k df (ret a).
Proof. intros h r h' E. inversion E; subst. apply frame_kept_refl. Qed.

Lemma kept_setitem k df c s :
  mem c (derived_names k) = true -> keeps_frames k df (setitem df c s).
Proof.
  intros Hc h r h' E. unfold setitem in E.
  destruct (h !! df) as [d|] eqn:Hd; inversion E; subst; [|apply frame_kept_refl].
  intros l d0 Hl. destruct (decide (l = df)) as [->|Hne].
  - rewrite Hd in Hl. inversion Hl; subst d0.
    exists (df_set c s d). rewrite lookup_insert_eq.
    repeat split; auto; [|congruence].
    unfold originals. simpl.
    apply (set_col_filter (fun c => negb (mem c (derived_names k)))).
    now rewrite Hc.
  - exists d0. rewrite lookup_insert_ne by congruence. auto.
Qed.

Lemma kept_bind {A B} k df (m : M heap A) (f : A -> M heap B) :
  keeps_frames k df m -> (forall a, keeps_frames k df (f a)) ->
  keeps_frames k df (bind m f).
Proof.
  intros Hm Hf h r h' E. unfold bind in E.
  destruct (m h) as [[a|e] h1] eqn:E1.
  - eapply frame_kept_trans; [eapply Hm; eauto | eapply Hf; eauto].
  - inversion E; subst. eapply Hm; eauto.
Qed.

Ltac kept_step :=
  first [ apply kept_getitem | apply kept_lift | apply kept_ret
        | apply kept_setitem; reflexivity ].

(** Whether a transform returns or raises, it removes no frame and, in
    every frame, leaves the rows and the original columns as they were;
    only the frame it was given can change at all. *)
Lemma transforms_keep_originals (k : record_set) (df : loc) :
  keeps_frames k df (transform k df).
Proof.
  destruct k; simpl;
    unfold transform_campaigns, transform_targets, transform_customers;
    repeat (apply kept_bind; [kept_step | intros ?]); kept_step.
Qed.

(** ** The Schema Manager *)

Lemma create_table_keeps name cols (d : db) n t :
  d !! n = Some t -> create_table_if_not_exists name cols d !! n = Some t.
Proof.
  intros H. unfold create_table_if_not_exists.
  destruct (d !! name) eqn:E; auto.
  rewrite lookup_insert_ne; auto. congruence.
Qed.

Lemma create_table_present name cols (d : db) :
  is_Some (d !! name) -> create_table_if_not_exists name cols d = d.
Proof. intros [t H]. unfold create_table_if_not_exists. now rewrite H. Qed.

Lemma create_table_creates name cols (d : db) :
  is_Some (create_table_if_not_exists name cols d !! name).
Proof.
  unfold create_table_if_not_exists. destruct (d !! name) eqn:E.
  - rewrite E. eauto.
  - rewrite lookup_insert_eq. eauto.
Qed.

Lemma has_tables_spec (d : db) :
  has_tables d = true <-> forall name, In name warehouse_tables -> is_Some (d !! name).
Proof.
  unfold has_tables. rewrite forallb_forall. split; intros H name Hn.
  - eapply bool_decide_eq_true_1, H, Hn.
  - apply bool_decide_eq_true_2, H, Hn.
Qed.

(** A first run leaves the three tables in the store and truncates
    nothing that was there. *)
Lemma setup_database_creates (s : state) :
  exists s', setup_database s = (Ok tt, s') /\
    has_tables (st_store s') = true /\
    forall n t, st_store s !! n = Some t -> st_store s' !! n = Some t.
Proof.
  eexists. split; [reflexivity|]. split.
  - apply has_tables_spec. simpl.
    intros name [<-|[<-|[<-|[]]]].
    + destruct (create_table_creates "fact_campaigns" fact_campaigns_columns
                  (st_store s)) as [t Ht].
      exists t. now do 2 apply create_table_keeps.
    + destruct (create_table_creates "dim_sales_targets" dim_sales_targets_columns
                  (create_table_if_not_exists "fact_campaigns" fact_campaigns_columns
                     (st_store s))) as [t Ht].
      exists t. now apply create_table_keeps.
    + apply create_table_creates.
  - intros n t H. simpl. now do 3 apply create_table_keeps.
Qed.

(** C10: on a store that already holds the three tables,
    [setup_database] succeeds and leaves the store as it was: the schema
    of every table and every row in it. *)
Theorem setup_database_idempotent (s : state) :
  has_tables (st_store s) = true ->
  exists s', setup_database s = (Ok tt, s') /\ st_store s' = st_store s.
Proof.
  intros H. rewrite has_tables_spec in H.
  eexists. split; [reflexivity|]. simpl.
  rewrite (create_table_present "fact_campaigns") by (apply H; simpl; auto).
  rewrite (create_table_present "dim_sales_targets") by (apply H; simpl; auto).
  now rewrite (create_table_present "dim_customers") by (apply H; simpl; auto).
Qed.

Lemma setup_database_idempotent_witness :
  exists s', setup_database (snd (setup_database (snd (boot ∅)))) = (Ok tt, s') /\
    st_store s' = st_store (snd (setup_database (snd (boot ∅)))).
Proof.
  apply (setup_database_idempotent (snd (setup_database (snd (boot ∅))))).
  vm_compute. reflexivity.
Defined.

(** C2: the tables [setup_database] creates in an empty store.  Each has
    the auto-incrementing [id] and the [created_at] timestamp, but
    [dim_sales_targets] has no [target_roi] column and [dim_customers] no
    [avg_order_value] column. *)
Theorem setup_database_omits_derived_columns :
  let d := st_store (snd (setup_database (snd (boot ∅)))) in
  column_names <$> d !! "fact_campaigns"
    = Some ["id"; "tenant_id"; "campaign_id"; "campaign_name"; "date";
            "impressions"; "clicks"; "conversions"; "spend"; "revenue";
            "ctr"; "roi"; "region"; "product"; "created_at"] /\
  column_names <$> d !! "dim_sales_targets"
    = Some ["id"; "tenant_id"; "region"; "product"; "month"; "year";
            "target_revenue"; "target_conversions"; "target_spend"; "created_at"] /\
  column_names <$> d !! "dim_customers"
    = Some ["id"; "tenant_id"; "customer_id"; "customer_name"; "region";
            "product_preference"; "total_spent"; "total_orders"; "created_at"] /\
  (forall name, In name warehouse_tables ->
     exists t, d !! name = Some t /\ has_identifier t = true /\ has_timestamp t = true) /\
  (mem "target_roi" <$> (column_names <$> d !! "dim_sales_targets")) = Some false /\
  (mem "avg_order_value" <$> (column_names <$> d !! "dim_customers")) = Some false.
Proof.
  repeat split; try (vm_compute; reflexivity).
  intros name [<-|[<-|[<-|[]]]]; eexists; (split; [vm_compute; reflexivity|]);
    split; reflexivity.
Qed.

(** Because of the missing column the pipeline cannot load its own
    transformed targets into a fresh store: the run stops there. *)
Lemma fresh_run_fails_on_targets :
  fst (main sample_sources (boot ∅))
  = Raise (OperationalError "no column named target_roi").
Proof. vm_compute. reflexivity. Qed.

(** ** The Report Engine never writes *)

Lemma read_sql_query_state header q s : snd (read_sql_query header q s) = s.
Proof.
  unfold read_sql_query.
  destruct (usable_conn s); auto.
  destruct (st_store s !! "fact_campaigns"); auto.
  now destruct (q t).
Qed.

(** C9: a query name other than the two known ones raises (the
    [ValueError] that is the report engine's query error) and every
    invocation, known name or not, leaves the state of the warehouse and
    of the connection as it was. *)
Theorem report_engine_read_only (query_type : string) (s : state) :
  snd (execute_dashboard_query query_type s) = s /\
  (query_type <> "campaign_summary" -> query_type <> "daily_performance" ->
   execute_dashboard_query query_type s
   = (Raise (ValueError ("Unknown query type: " ++ query_type)), s)).
Proof.
  unfold execute_dashboard_query. split.
  - destruct (String.eqb query_type "campaign_summary");
      [apply read_sql_query_state|].
    destruct (String.eqb query_type "daily_performance");
      [apply read_sql_query_state|]. reflexivity.
  - intros H1 H2.
    apply String.eqb_neq in H1, H2. now rewrite H1, H2.
Qed.

Lemma report_engine_read_only_witness :
  snd (execute_dashboard_query "nonexistent_report"
         (snd (setup_database (snd (boot ∅)))))
  = snd (setup_database (snd (boot ∅))) /\
  execute_dashboard_query "nonexistent_report" (snd (setup_database (snd (boot ∅))))
  = (Raise (ValueError "Unknown query type: nonexistent_report"),
     snd (setup_database (snd (boot ∅)))).
Proof.
  destruct (report_engine_read_only "nonexistent_report"
              (snd (setup_database (snd (boot ∅))))) as [H1 H2].
  split; [exact H1|]. apply H2; discriminate.
Defined.

(** ** The connection over one run *)

Lemma keeps_on_heap {A} c (m : M heap A) : keeps_conn c (on_heap m).
Proof.
  intros [h s] r hs' E H. unfold on_heap in E. simpl in *.
  destruct (m h). inversion E; subst. exact H.
Qed.

Lemma keeps_lift {A} c (x : result A) : keeps_conn c (lift x).
Proof. intros hs r hs' E H. unfold lift in E. inversion E; subst. exact H. Qed.

Lemma keeps_bind {A B} c (m : M (heap * state) A) (k : A -> M (heap * state) B) :
  keeps_conn c m -> (forall a, keeps_conn c (k a)) -> keeps_conn c (bind m k).
Proof.
  intros Hm Hk hs r hs' E H. unfold bind in E.
  destruct (m hs) as [[a|e] hs1] eqn:E1.
  - eapply Hk; eauto.
  - inversion E; subst. eauto.
Qed.

Lemma conn_open_with_store c s d : conn_open c s -> conn_open c (with_store s d).
Proof. now intros (H1 & H2 & H3). Qed.

Lemma keeps_load_to_database c now d name :
  keeps_conn c (on_state (load_to_database now d name)).
Proof.
  intros [h s] r hs' E H. unfold on_state, load_to_database in E. simpl in *.
  destruct (usable_conn s).
  - destruct (to_sql now d name (st_store s)). inversion E; subst. simpl.
    now apply conn_open_with_store.
  - now inversion E.
Qed.

Lemma keeps_load c now df name : keeps_conn c (load now df name).
Proof.
  apply keeps_bind; [apply keeps_on_heap|].
  intros d. apply keeps_load_to_database.
Qed.

Lemma keeps_query c q : keeps_conn c (on_state (execute_dashboard_query q)).
Proof.
  intros [h s] r hs' E H. unfold on_state in E. simpl in *.
  pose proof (proj1 (report_engine_read_only q s)) as Hs.
  destruct (execute_dashboard_query q s). simpl in Hs. subst.
  now inversion E.
Qed.

Lemma releases_close c : releases_on_return c (on_state close_connection).
Proof.
  intros [h s] r hs' E (H1 & H2 & H3). unfold on_state, close_connection in E.
  simpl in *. rewrite H1 in E. inversion E; subst. simpl.
  split; auto. split; auto. rewrite H2. apply difference_diag_L.
Qed.

Lemma releases_bind {A} c (m : M (heap * state) A) (k : A -> M (heap * state) unit) :
  keeps_conn c m -> (forall a, releases_on_return c (k a)) ->
  releases_on_return c (bind m k).
Proof.
  intros Hm Hk hs r hs' E H. unfold bind in E.
  destruct (m hs) as [[a|e] hs1] eqn:E1.
  - eapply Hk; eauto.
  - inversion E; subst. simpl. eauto.
Qed.



(** A store that has the derived columns lets the whole run through, and
    the connection is released at its end. *)
Lemma complete_run_releases_connection :
  fst (main sample_sources (boot migrated_store)) = Ok tt /\
  st_open (snd (snd (main sample_sources (boot migrated_store)))) = ∅.
Proof. split; vm_compute; reflexivity. Qed.

(** ** The Warehouse Loader *)

Lemma with_store_same s : with_store s (st_store s) = s.
Proof. now destruct s. Qed.

Lemma lookup_cell_absent c cols vals :
  mem c cols = false -> lookup_cell c cols vals = None.
Proof.
  revert vals. induction cols as [|c' cols IH]; intros vals H; simpl; auto.
  destruct vals as [|v vals]; auto.
  unfold mem in H. simpl in H. apply orb_false_elim in H as [H1 H2].
  rewrite H1. now apply IH.
Qed.

Lemma In_combine_map {A B} (f : A -> B) (l : list A) a :
  In a l -> In (a, f a) (combine l (map f l)).
Proof.
  induction l as [|x l IH]; simpl; [tauto|].
  intros [->|H]; auto.
Qed.

Lemma insert_row_missing_required now cols vals t cd :
  In cd (tbl_columns t) -> required_column cd = true ->
  mem (col_name cd) cols = false ->
  exists e, insert_row now cols vals t = Raise e.
Proof.
  intros Hin Hreq Hmem. unfold insert_row.
  destruct (negb (forallb value_in_range vals)); [eauto|].
  destruct (choose_rowid now cols vals t) as [rid|e]; [|eauto].
  assert (Hv : violates_not_null t (build_cells now cols vals rid t) = true).
  { unfold violates_not_null, build_cells. apply existsb_exists.
    eexists. split; [apply In_combine_map; exact Hin|]. simpl.
    unfold required_column in Hreq.
    apply andb_prop in Hreq as [Hreq Hd]. apply andb_prop in Hreq as [Hn Hr].
    apply negb_true_iff in Hr, Hd. rewrite Hn, Hr. simpl.
    unfold offered. now rewrite (lookup_cell_absent _ _ _ Hmem), Hd. }
  rewrite Hv. eauto.
Qed.

Lemma frame_rows_nonempty d :
  df_index d <> 0%nat -> exists r rest, frame_rows d = r :: rest.
Proof.
  unfold frame_rows. destruct (df_index d); [congruence|]. simpl. eauto.
Qed.

Lemma same_name_refl c : same_name c c = true.
Proof. unfold same_name. apply String.eqb_refl. Qed.

(** A name that no name of [l] equals in SQLite's sense is none of them
    byte for byte. *)
Lemma has_name_mem c l : has_name c l = false -> mem c l = false.
Proof.
  unfold has_name, mem. induction l as [|x l IH]; simpl; auto.
  intros H. apply orb_false_elim in H as [H1 H2]. rewrite (IH H2).
  destruct (String.eqb_spec c x) as [->|]; auto.
  now rewrite same_name_refl in H1.
Qed.

Lemma first_identifier_error_valid l :
  forallb valid_identifier l = true -> first_identifier_error l = None.
Proof.
  induction l as [|n l IH]; simpl; auto.
  intros H. apply andb_prop in H as [Hn Hl]. rewrite (IH Hl).
  unfold valid_identifier in Hn. apply andb_prop in Hn as [H1 H2].
  unfold identifier_error. apply negb_true_iff in H1. rewrite H1.
  assert (E : existsb (Ascii.eqb Ascii.zero) (list_ascii_of_string n) = false).
  { clear -H2. induction (list_ascii_of_string n) as [|a k IHk]; auto.
    cbn [existsb forallb] in *.
    apply andb_prop in H2 as [Ha Hk]. rewrite (IHk Hk).
    apply negb_true_iff in Ha. rewrite (Ascii.eqb_sym Ascii.zero a). now rewrite Ha. }
  now rewrite E.
Qed.

Lemma insert_frame_mismatch now d t :
  df_index d <> 0%nat -> schema_mismatch t d = true ->
  exists e, insert_frame now d t = Raise e.
Proof.
  intros Hn Hm. unfold insert_frame.
  destruct (Nat.eqb_spec (df_index d) 0); [contradiction|].
  destruct (df_columns d) as [|c cols] eqn:Hc; [eauto|]. rewrite <- Hc in *.
  destruct (unknown_column t (df_columns d)) eqn:Hu; [eauto|].
  unfold schema_mismatch in Hm. apply orb_prop in Hm as [Hm|Hm].
  - apply existsb_exists in Hm as (x & Hx & Hk).
    apply andb_prop in Hk as [Hk _]. apply negb_true_iff, has_name_mem in Hk.
    unfold unknown_column in Hu.
    apply (find_none _ _ Hu) in Hx. rewrite Hk in Hx. discriminate.
  - apply existsb_exists in Hm as (cd & Hcd & Hk).
    apply andb_prop in Hk as [Hreq Hmem]. apply negb_true_iff, has_name_mem in Hmem.
    destruct (frame_rows_nonempty d Hn) as (r & rest & ->). simpl.
    destruct (insert_row_missing_required now (df_columns d) r t cd Hcd Hreq Hmem)
      as [e ->]. eauto.
Qed.

(** A load into a table of the store that raises leaves the state as it
    was. *)
Lemma to_sql_raise_existing now d name (st : db) t :
  st !! name = Some t ->
  (exists e, insert_frame now d t = Raise e) ->
  exists e, to_sql now d name st = (Raise e, st).
Proof.
  intros Ht [e He]. unfold to_sql.
  destruct (first_identifier_error _); [eauto|].
  rewrite Ht, He. eauto.
Qed.

(** C3 (as amended): loading into a table of the store a record set that
    has at least one row and has a column the table lacks, or lacks a
    required column of it, raises, and so does any load when the
    connection is not usable; the failed load leaves the store, and so
    every table, as it was.  A record set without rows, on the other
    hand, is loaded without error and without effect whatever its columns
    are, provided the connection is usable and the names are identifiers
    pandas accepts. *)
Theorem load_rejects_schema_mismatch (now : string) (d : DataFrame) (name : string)
    (s : state) (t : table) :
  st_store s !! name = Some t ->
  ((df_index d <> 0%nat /\ schema_mismatch t d = true) \/ usable_conn s = false ->
   exists e, load_to_database now d name s = (Raise e, s)) /\
  (df_index d = 0%nat -> usable_conn s = true ->
   forallb valid_identifier (df_columns d ++ [name]) = true ->
   load_to_database now d name s = (Ok tt, s)).
Proof.
  intros Ht. split.
  - intros H. unfold load_to_database.
    destruct (usable_conn s) eqn:Hu; [|eauto].
    destruct H as [[Hn Hm]|H]; [|discriminate].
    destruct (to_sql_raise_existing now d name (st_store s) t Ht
                (insert_frame_mismatch now d t Hn Hm)) as [e ->].
    exists e. now rewrite with_store_same.
  - intros Hz Hu Hv. unfold load_to_database. rewrite Hu.
    unfold to_sql. rewrite (first_identifier_error_valid _ Hv), Ht.
    unfold insert_frame. rewrite Hz. simpl.
    rewrite insert_id by exact Ht. now rewrite with_store_same.
Qed.

Lemma load_rejects_schema_mismatch_witness :
  (exists e,
     load_to_database "2024-12-01 00:00:00"
       (mkDataFrame 1 [("tenant_id", SObject [VText "tenant_a"]);
                       ("target_roi", SFloat [Float.fin 2])])
       "dim_sales_targets" ready
     = (Raise e, ready)) /\
  load_to_database "2024-12-01 00:00:00"
    (mkDataFrame 0 [("target_roi", SFloat [])]) "dim_sales_targets" ready
  = (Ok tt, ready).
Proof.
  split.
  - apply (load_rejects_schema_mismatch "2024-12-01 00:00:00"
             (mkDataFrame 1 [("tenant_id", SObject [VText "tenant_a"]);
                             ("target_roi", SFloat [Float.fin 2])])
             "dim_sales_targets" ready (mkTable dim_sales_targets_columns [] 0)).
    + vm_compute. reflexivity.
    + left. split; [discriminate | vm_compute; reflexivity].
  - apply (load_rejects_schema_mismatch "2024-12-01 00:00:00"
             (mkDataFrame 0 [("target_roi", SFloat [])])
             "dim_sales_targets" ready (mkTable dim_sales_targets_columns [] 0)).
    + vm_compute. reflexivity.
    + reflexivity.
    + vm_compute. reflexivity.
    + vm_compute. reflexivity.
Defined.

(** C3, as worded, fails: a record set without rows is loaded without an
    error although it has a column the table lacks and lacks the required
    columns of the table. *)
Lemma empty_record_set_loads_despite_mismatch :
  schema_mismatch (mkTable fact_campaigns_columns [] 0) empty_mismatched = true /\
  st_store (snd (setup_database (snd (boot ∅)))) !! "fact_campaigns"
  = Some (mkTable fact_campaigns_columns [] 0) /\
  load_to_database "2024-12-01 00:00:00" empty_mismatched "fact_campaigns"
    (snd (setup_database (snd (boot ∅))))
  = (Ok tt, snd (setup_database (snd (boot ∅)))).
Proof. repeat split; vm_compute; reflexivity. Qed.

Lemma insert_row_ok now cols vals t t' :
  insert_row now cols vals t = Ok t' ->
  exists rid,
    choose_rowid now cols vals t = Ok rid /\
    t' = mkTable (tbl_columns t)
           (tbl_rows t ++ [mkRow rid (build_cells now cols vals rid t)])
           (Z.max (tbl_seq t) rid).
Proof.
  unfold insert_row.
  destruct (negb (forallb value_in_range vals)); [discriminate|].
  destruct (choose_rowid now cols vals t) as [rid|e]; [|discriminate].
  destruct (violates_not_null t _); [discriminate|].
  intros E. inversion E. eauto.
Qed.

Lemma build_cells_stamped now cols vals rid t :
  stamped now cols (tbl_columns t) (mkRow rid (build_cells now cols vals rid t)).
Proof.
  intros k cd Hk. unfold build_cells. simpl.
  rewrite list_lookup_fmap, Hk. simpl. split.
  - now intros ->.
  - intros -> Hd Hm. unfold offered.
    now rewrite (lookup_cell_absent _ _ _ Hm), Hd.
Qed.

Lemma max_rowid_insert t rid cs :
  max_rowid (mkTable (tbl_columns t) (tbl_rows t ++ [mkRow rid cs])
                     (Z.max (tbl_seq t) rid))
  = Z.max (max_rowid t) rid.
Proof.
  unfold max_rowid, rowids. simpl. rewrite map_app, fold_right_app. simpl.
  induction (map row_id (tbl_rows t)) as [|x l IH]; simpl; lia.
Qed.

Lemma choose_rowid_auto now cols vals t rid :
  (match find col_rowid (tbl_columns t) with
   | None => true
   | Some cd => negb (mem (col_name cd) cols) && negb (col_default_now cd)
   end) = true ->
  choose_rowid now cols vals t = Ok rid -> rid = max_rowid t + 1.
Proof.
  unfold choose_rowid. intros Ha.
  assert (Hn : next_rowid t = Ok rid -> rid = max_rowid t + 1).
  { unfold next_rowid. destruct (Int64.max_int <=? max_rowid t); [discriminate|].
    now intros [= <-]. }
  destruct (find col_rowid (tbl_columns t)) as [cd|]; auto.
  apply andb_prop in Ha as [Hm Hd]. apply negb_true_iff in Hm, Hd.
  unfold offered. rewrite (lookup_cell_absent _ _ _ Hm), Hd. simpl. exact Hn.
Qed.

Lemma insert_rows_ok now cols rows t t' :
  insert_rows now cols rows t = Ok t' ->
  exists new,
    tbl_columns t' = tbl_columns t /\
    tbl_rows t' = (tbl_rows t ++ new)%list /\
    length new = length rows /\
    Forall (stamped now cols (tbl_columns t)) new /\
    ((match find col_rowid (tbl_columns t) with
      | None => true
      | Some cd => negb (mem (col_name cd) cols) && negb (col_default_now cd)
      end) = true ->
     map row_id new
     = map (fun i => max_rowid t + 1 + Z.of_nat i) (seq 0 (length rows))).
Proof.
  revert t. induction rows as [|vals rows IH]; intros t; simpl.
  - intros [= <-]. exists []. rewrite app_nil_r. repeat split; auto.
  - destruct (insert_row now cols vals t) as [t1|e] eqn:E1; [|discriminate].
    intros E. apply insert_row_ok in E1 as (rid & Hrid & ->).
    apply IH in E as (new & Hc & Hr & Hl & Hs & Hid). simpl in *.
    exists (mkRow rid (build_cells now cols vals rid t) :: new).
    split; [exact Hc|]. split; [now rewrite Hr, <- app_assoc|].
    split; [simpl; now rewrite Hl|]. split.
    + constructor; [apply build_cells_stamped | exact Hs].
    + intros Ha. simpl. rewrite Hid by exact Ha.
      pose proof (choose_rowid_auto _ _ _ _ _ Ha Hrid) as ->.
      f_equal; [lia|].
      rewrite <- seq_shift, map_map. apply map_ext. intros i.
      rewrite max_rowid_insert. lia.
Qed.

Lemma frame_rows_length d : length (frame_rows d) = df_index d.
Proof. unfold frame_rows. now rewrite length_map, length_seq. Qed.

Lemma insert_frame_ok now d t t' :
  insert_frame now d t = Ok t' ->
  exists new,
    tbl_columns t' = tbl_columns t /\
    tbl_rows t' = (tbl_rows t ++ new)%list /\
    length new = df_index d /\
    Forall (stamped now (df_columns d) (tbl_columns t)) new /\
    (auto_id t d = true ->
     map row_id new
     = map (fun i => max_rowid t + 1 + Z.of_nat i) (seq 0 (df_index d))).
Proof.
  unfold insert_frame.
  destruct (Nat.eqb_spec (df_index d) 0) as [Hz|Hz].
  - intros [= <-]. exists []. rewrite app_nil_r, Hz. repeat split; auto.
  - destruct (df_columns d) as [|c cols] eqn:Hc; [discriminate|]. rewrite <- Hc.
    destruct (unknown_column t (df_columns d)); [discriminate|].
    intros E. apply insert_rows_ok in E as (new & H1 & H2 & H3 & H4 & H5).
    rewrite frame_rows_length in *. exists new. repeat split; auto.
Qed.

(** What a successful load does to the store. *)
Lemma load_to_database_ok now d name s s1 :
  load_to_database now d name s = (Ok tt, s1) ->
  exists new seq1,
    s1 = with_store s
           (<[name := mkTable (tbl_columns (target_table s name d))
                        (tbl_rows (target_table s name d) ++ new) seq1]> (st_store s)) /\
    length new = df_index d /\
    Forall (stamped now (df_columns d) (tbl_columns (target_table s name d))) new /\
    (auto_id (target_table s name d) d = true ->
     map row_id new
     = map (fun i => max_rowid (target_table s name d) + 1 + Z.of_nat i)
           (seq 0 (df_index d))).
Proof.
  unfold load_to_database, target_table.
  destruct (usable_conn s); [|discriminate].
  unfold to_sql.
  assert (Hgen : forall t t', insert_frame now d t = Ok t' ->
            exists new seq1,
              t' = mkTable (tbl_columns t) (tbl_rows t ++ new) seq1 /\
              length new = df_index d /\
              Forall (stamped now (df_columns d) (tbl_columns t)) new /\
              (auto_id t d = true ->
               map row_id new
               = map (fun i => max_rowid t + 1 + Z.of_nat i) (seq 0 (df_index d)))).
  { intros t t' E. apply insert_frame_ok in E as (new & H1 & H2 & H3 & H4 & H5).
    exists new, (tbl_seq t'). repeat split; auto.
    destruct t' as [c r q]. simpl in *. now subst. }
  destruct (first_identifier_error _); [discriminate|].
  destruct (st_store s !! name) as [t|] eqn:Ht; simpl.
  - destruct (insert_frame now d t) as [t'|e] eqn:E; [|discriminate].
    intros [= <-]. destruct (Hgen t t' E) as (new & seq1 & -> & H).
    exists new, seq1. split; [reflexivity | exact H].
  - destruct (df_data d) as [|c cs] eqn:Hd; [discriminate|]. rewrite <- Hd.
    destruct (create_table_error _ _ _); [discriminate|].
    destruct (insert_frame now d (table_of_frame d)) as [t'|e] eqn:E; [|discriminate].
    intros [= <-]. destruct (Hgen _ t' E) as (new & seq1 & -> & H).
    exists new, seq1. split; [reflexivity | exact H].
Qed.

(** C5: a successful load of a record set of [N] rows leaves the rows of
    the table in place and puts exactly [N] new rows after them, changing
    no other table; each new row carries its rowid as identifier and the
    time of the load as timestamp, the identifiers being the next [N]
    after the largest one handed out when the record set leaves them to
    the table; and when the table was empty, a second successful load of
    the same record set leaves [2N] rows. *)
Theorem load_appends (now now' : string) (d : DataFrame) (name : string)
    (s s1 : state) :
  load_to_database now d name s = (Ok tt, s1) ->
  exists new seq1,
    st_store s1
    = <[name := mkTable (tbl_columns (target_table s name d))
                  (tbl_rows (target_table s name d) ++ new) seq1]> (st_store s) /\
    length new = df_index d /\
    Forall (stamped now (df_columns d) (tbl_columns (target_table s name d))) new /\
    (auto_id (target_table s name d) d = true ->
     map row_id new
     = map (fun i => max_rowid (target_table s name d) + 1 + Z.of_nat i)
           (seq 0 (df_index d))) /\
    (tbl_rows (target_table s name d) = [] ->
     forall s2, load_to_database now' d name s1 = (Ok tt, s2) ->
       exists t2, st_store s2 !! name = Some t2 /\
                  length (tbl_rows t2) = (2 * df_index d)%nat).
Proof.
  intros E.
  destruct (load_to_database_ok _ _ _ _ _ E) as (new & seq1 & -> & Hl & Hs & Hid).
  exists new, seq1. repeat split; auto.
  intros Hempty s2 E2.
  apply load_to_database_ok in E2 as (new2 & seq2 & -> & Hl2 & _).
  set (t1 := mkTable (tbl_columns (target_table s name d))
               (tbl_rows (target_table s name d) ++ new) seq1) in *.
  assert (Ht1 : target_table (with_store s (<[name := t1]> (st_store s))) name d = t1).
  { unfold target_table. simpl. now rewrite lookup_insert_eq. }
  rewrite Ht1 in *.
  eexists. split; [simpl; apply lookup_insert_eq|].
  unfold t1. simpl. rewrite Hempty. simpl. rewrite !length_app. lia.
Qed.

Lemma load_appends_witness :
  exists new seq1,
    st_store (snd (load_to_database "2024-12-01 00:00:00"
                     (campaign_frame 120 4000 900 300) "fact_campaigns" ready))
    = <["fact_campaigns" := mkTable fact_campaigns_columns ([] ++ new) seq1]>
        (st_store ready) /\
    length new = 1%nat /\
    Forall (stamped "2024-12-01 00:00:00" (df_columns (campaign_frame 120 4000 900 300))
              fact_campaigns_columns) new /\
    (auto_id (mkTable fact_campaigns_columns [] 0) (campaign_frame 120 4000 900 300) = true ->
     map row_id new = map (fun i => 0 + 1 + Z.of_nat i) (seq 0 1)) /\
    (@nil row = [] ->
     forall s2,
       load_to_database "2024-12-02 00:00:00" (campaign_frame 120 4000 900 300)
         "fact_campaigns"
         (snd (load_to_database "2024-12-01 00:00:00"
                 (campaign_frame 120 4000 900 300) "fact_campaigns" ready))
       = (Ok tt, s2) ->
       exists t2, st_store s2 !! "fact_campaigns" = Some t2 /\
                  length (tbl_rows t2) = (2 * 1)%nat).
Proof.
  apply (load_appends "2024-12-01 00:00:00" "2024-12-02 00:00:00"
           (campaign_frame 120 4000 900 300) "fact_campaigns" ready
           (snd (load_to_database "2024-12-01 00:00:00"
                   (campaign_frame 120 4000 900 300) "fact_campaigns" ready))).
  vm_compute. reflexivity.
Defined.

(** Loading the same record set twice into the empty fact table: both
    loads succeed and the table holds two rows, with identifiers 1 and 2. *)
Lemma load_twice_example :
  let s0 := ready in
  let d := campaign_frame 120 4000 900 300 in
  let '(r1, s1) := load_to_database "2024-12-01 00:00:00" d "fact_campaigns" s0 in
  let '(r2, s2) := load_to_database "2024-12-02 00:00:00" d "fact_campaigns" s1 in
  r1 = Ok tt /\ r2 = Ok tt /\
  (rowids <$> st_store s2 !! "fact_campaigns") = Some [1; 2].
Proof. vm_compute. repeat split; reflexivity. Qed.

(** ** The order of SQLite cells *)

Lemma float_leb_refl x : Float.is_nan x = false -> Float.leb x x = true.
Proof.
  destruct x; simpl; try reflexivity; try discriminate.
  intros _. apply Qle_bool_iff. apply Qle_refl.
Qed.

Lemma float_leb_total x y :
  Float.is_nan x = false -> Float.is_nan y = false ->
  Float.leb x y = true \/ Float.leb y x = true.
Proof.
  destruct x, y; simpl; intros; try discriminate; auto.
  rewrite !Qle_bool_iff.
  destruct (Qlt_le_dec q q0) as [H1|H1]; [left; now apply Qlt_le_weak | now right].
Qed.

Lemma float_leb_trans x y z :
  Float.leb x y = true -> Float.leb y z = true -> Float.leb x z = true.
Proof.
  destruct x, y, z; simpl; intros; try discriminate; auto.
  rewrite Qle_bool_iff in *. eapply Qle_trans; eauto.
Qed.

Lemma ascii_compare_refl a : Ascii.compare a a = Eq.
Proof. unfold Ascii.compare. apply N.compare_refl. Qed.

Lemma string_compare_refl s : String.compare s s = Eq.
Proof.
  induction s as [|a s IH]; simpl; auto. now rewrite ascii_compare_refl.
Qed.

Lemma string_leb_refl s : String.leb s s = true.
Proof. unfold String.leb. now rewrite string_compare_refl. Qed.

Lemma string_compare_trans_le s1 : forall s2 s3,
  String.compare s1 s2 <> Gt -> String.compare s2 s3 <> Gt ->
  String.compare s1 s3 <> Gt.
Proof.
  induction s1 as [|a s1 IH]; intros [|b s2] [|c s3]; simpl; try congruence.
  unfold Ascii.compare.
  destruct (N.compare_spec (N_of_ascii a) (N_of_ascii b)) as [E1|E1|E1];
    destruct (N.compare_spec (N_of_ascii b) (N_of_ascii c)) as [E2|E2|E2];
    destruct (N.compare_spec (N_of_ascii a) (N_of_ascii c)) as [E3|E3|E3];
    try congruence; try lia; intros H1 H2; try (now apply (IH s2 s3)).
Qed.

Lemma string_leb_trans s1 s2 s3 :
  String.leb s1 s2 = true -> String.leb s2 s3 = true -> String.leb s1 s3 = true.
Proof.
  unfold String.leb. intros H1 H2.
  pose proof (string_compare_trans_le s1 s2 s3) as H.
  destruct (String.compare s1 s2); try discriminate;
    destruct (String.compare s2 s3); try discriminate;
    destruct (String.compare s1 s3); auto; exfalso; apply H; congruence.
Qed.

Lemma rank_cases v : (Sql.rank v = 0 \/ Sql.rank v = 1 \/ Sql.rank v = 2)%nat.
Proof. destruct v as [| |x|]; simpl; auto. destruct (Float.is_nan x); auto. Qed.

Lemma rank_one_not_nan v : Sql.rank v = 1%nat -> Float.is_nan (Sql.num v) = false.
Proof.
  destruct v as [| |x|]; simpl; try discriminate; auto.
  destruct (Float.is_nan x); [discriminate | auto].
Qed.

Lemma value_leb_refl v : Sql.value_leb v v = true.
Proof.
  unfold Sql.value_leb. rewrite Nat.ltb_irrefl.
  destruct (rank_cases v) as [H|[H|H]]; rewrite H; auto.
  - apply float_leb_refl. now apply rank_one_not_nan.
  - apply string_leb_refl.
Qed.

Lemma value_leb_total a b : Sql.value_leb a b = true \/ Sql.value_leb b a = true.
Proof.
  unfold Sql.value_leb.
  destruct (Nat.ltb_spec (Sql.rank a) (Sql.rank b)) as [L1|L1]; auto.
  destruct (Nat.ltb_spec (Sql.rank b) (Sql.rank a)) as [L2|L2]; auto.
  assert (E : Sql.rank a = Sql.rank b) by lia. rewrite <- E.
  destruct (rank_cases a) as [H|[H|H]]; rewrite H; auto.
  - apply float_leb_total; apply rank_one_not_nan; congruence.
  - apply String.leb_total.
Qed.

Lemma value_leb_trans a b c :
  Sql.value_leb a b = true -> Sql.value_leb b c = true -> Sql.value_leb a c = true.
Proof.
  unfold Sql.value_leb.
  destruct (Nat.ltb_spec (Sql.rank a) (Sql.rank b)) as [H1|H1];
    destruct (Nat.ltb_spec (Sql.rank b) (Sql.rank c)) as [H2|H2];
    destruct (Nat.ltb_spec (Sql.rank a) (Sql.rank c)) as [H3|H3]; auto;
    try (destruct (Nat.ltb_spec (Sql.rank b) (Sql.rank a)) as [L1|L1]; [discriminate|]);
    try (destruct (Nat.ltb_spec (Sql.rank c) (Sql.rank b)) as [L2|L2]; [discriminate|]);
    try (destruct (Nat.ltb_spec (Sql.rank c) (Sql.rank a)) as [L3|L3]; [lia|]);
    try lia.
  assert (E1 : Sql.rank b = Sql.rank a) by lia.
  assert (E2 : Sql.rank c = Sql.rank a) by lia.
  rewrite E1.
  destruct (rank_cases a) as [H|[H|H]]; rewrite H; auto.
  - apply float_leb_trans.
  - apply string_leb_trans.
Qed.

Lemma key_leb_refl k : Sql.key_leb k k = true.
Proof. induction k as [|a k IH]; simpl; auto. now rewrite value_leb_refl. Qed.

Lemma key_leb_total k1 : forall k2,
  Sql.key_leb k1 k2 = true \/ Sql.key_leb k2 k1 = true.
Proof.
  induction k1 as [|a k1 IH]; intros [|b k2]; simpl; auto.
  destruct (value_leb_total a b) as [H|H]; rewrite H;
    destruct (Sql.value_leb b a) eqn:E; destruct (Sql.value_leb a b) eqn:E';
    auto; discriminate.
Qed.

Lemma key_leb_trans k1 : forall k2 k3,
  Sql.key_leb k1 k2 = true -> Sql.key_leb k2 k3 = true -> Sql.key_leb k1 k3 = true.
Proof.
  induction k1 as [|a k1 IH]; intros [|b k2] [|c k3]; simpl; auto; try discriminate.
  destruct (Sql.value_leb a b) eqn:Hab; [|discriminate].
  destruct (Sql.value_leb b c) eqn:Hbc; [|intros; discriminate].
  rewrite (value_leb_trans a b c Hab Hbc).
  destruct (Sql.value_leb b a) eqn:Hba; destruct (Sql.value_leb c b) eqn:Hcb;
    destruct (Sql.value_leb c a) eqn:Hca; auto; intros H1 H2;
    try discriminate; try solve [eapply IH; eauto];
    match goal with
    | Hx : Sql.value_leb ?x ?y = false |- _ =>
        assert (Sql.value_leb x y = true) by eauto using value_leb_trans;
        congruence
    end.
Qed.

Lemma key_eqb_true k1 k2 :
  Sql.key_eqb k1 k2 = true <-> Sql.key_leb k1 k2 = true /\ Sql.key_leb k2 k1 = true.
Proof. unfold Sql.key_eqb. apply andb_true_iff. Qed.

Lemma key_ltb_true k1 k2 :
  Sql.key_ltb k1 k2 = true <-> Sql.key_leb k1 k2 = true /\ Sql.key_leb k2 k1 = false.
Proof. unfold Sql.key_ltb. now rewrite andb_true_iff, negb_true_iff. Qed.

Lemma key_eqb_refl k : Sql.key_eqb k k = true.
Proof. apply key_eqb_true. split; apply key_leb_refl. Qed.

Lemma key_eqb_sym k1 k2 : Sql.key_eqb k1 k2 = Sql.key_eqb k2 k1.
Proof. unfold Sql.key_eqb. apply andb_comm. Qed.

Lemma key_eqb_trans k1 k2 k3 :
  Sql.key_eqb k1 k2 = true -> Sql.key_eqb k2 k3 = true -> Sql.key_eqb k1 k3 = true.
Proof.
  rewrite !key_eqb_true. intros [H1 H2] [H3 H4].
  split; eapply key_leb_trans; eauto.
Qed.

Lemma key_ltb_not_eqb k1 k2 : Sql.key_ltb k1 k2 = true -> Sql.key_eqb k1 k2 = false.
Proof.
  rewrite key_ltb_true. intros [H1 H2]. unfold Sql.key_eqb. now rewrite H1, H2.
Qed.

Lemma key_ltb_leb_trans k1 k2 k3 :
  Sql.key_ltb k1 k2 = true -> Sql.key_leb k2 k3 = true -> Sql.key_ltb k1 k3 = true.
Proof.
  rewrite !key_ltb_true. intros [H1 H2] H3. split.
  - eapply key_leb_trans; eauto.
  - destruct (Sql.key_leb k3 k1) eqn:E; auto.
    now rewrite (key_leb_trans _ _ _ H3 E) in H2.
Qed.

Lemma key_leb_ltb_trans k1 k2 k3 :
  Sql.key_leb k1 k2 = true -> Sql.key_ltb k2 k3 = true -> Sql.key_ltb k1 k3 = true.
Proof.
  rewrite !key_ltb_true. intros H1 [H2 H3]. split.
  - eapply key_leb_trans; eauto.
  - destruct (Sql.key_leb k3 k1) eqn:E; auto.
    now rewrite (key_leb_trans _ _ _ E H1) in H3.
Qed.

(** ** Sorting and grouping *)

Section GroupingFacts.
Context {A : Type} (key : A -> list value).

Local Abbreviation le := (row_le key).
Local Abbreviation same := (same_key key).
Local Abbreviation glt := (group_lt key).
Local Abbreviation class := (one_class key).

Lemma insert_sorted_In x y l :
  In y (Sql.insert_sorted key x l) <-> y = x \/ In y l.
Proof.
  induction l as [|z l IH]; simpl.
  - intuition.
  - destruct (Sql.key_leb (key x) (key z)); simpl; rewrite ?IH; intuition.
Qed.

Lemma sort_by_In y l : In y (Sql.sort_by key l) <-> In y l.
Proof.
  induction l as [|x l IH]; simpl; [tauto|].
  rewrite insert_sorted_In, IH. intuition.
Qed.

Lemma insert_sorted_sorted x l :
  StronglySorted le l -> StronglySorted le (Sql.insert_sorted key x l).
Proof.
  induction 1 as [|z l Hs IH Hz]; simpl.
  - repeat constructor.
  - destruct (Sql.key_leb (key x) (key z)) eqn:E.
    + constructor; [now constructor|].
      constructor; [exact E|].
      eapply List.Forall_impl; [|exact Hz].
      intros a Ha. eapply key_leb_trans; eauto.
    + constructor; [exact IH|].
      apply List.Forall_forall. intros a Ha.
      apply insert_sorted_In in Ha as [->|Ha].
      * destruct (key_leb_total (key x) (key z)) as [H|H]; [congruence | exact H].
      * rewrite List.Forall_forall in Hz. now apply Hz.
Qed.

Lemma sort_by_sorted l : StronglySorted le (Sql.sort_by key l).
Proof.
  induction l as [|x l IH]; simpl; [constructor|].
  now apply insert_sorted_sorted.
Qed.

(** The sorter is stable: the rows of one key keep their order. *)
Lemma insert_sorted_filter k x l :
  List.filter (same k) (Sql.insert_sorted key x l)
  = if same k x then x :: List.filter (same k) l
    else List.filter (same k) l.
Proof.
  induction l as [|z l IH]; simpl; auto.
  destruct (Sql.key_leb (key x) (key z)) eqn:E; simpl; auto.
  rewrite IH.
  destruct (same k x) eqn:Hx; destruct (same k z) eqn:Hz; auto.
  unfold same in *. exfalso.
  rewrite key_eqb_sym in Hx.
  pose proof (key_eqb_trans _ _ _ Hx Hz) as H.
  apply key_eqb_true in H as [H _]. congruence.
Qed.

Lemma sort_by_filter k l :
  List.filter (same k) (Sql.sort_by key l) = List.filter (same k) l.
Proof.
  induction l as [|x l IH]; simpl; auto.
  rewrite insert_sorted_filter, IH. reflexivity.
Qed.

Lemma runs_concat l : concat (Sql.runs key l) = l.
Proof.
  induction l as [|x l IH]; simpl; auto.
  destruct (Sql.runs key l) as [|g gs] eqn:E; simpl in *.
  - now subst.
  - destruct (Sql.key_eqb (key x) (Sql.head_key key g)); simpl; now rewrite IH.
Qed.

Lemma runs_class l : Forall class (Sql.runs key l).
Proof.
  induction l as [|x l IH]; simpl; [constructor|].
  assert (Hx : class [x]).
  { split; [discriminate|]. repeat constructor. simpl. apply key_eqb_refl. }
  destruct (Sql.runs key l) as [|g gs] eqn:E.
  - constructor; [exact Hx | constructor].
  - inversion IH as [|? ? [Hne Hg] Hgs]; subst.
    destruct (Sql.key_eqb (key x) (Sql.head_key key g)) eqn:Hxy.
    + constructor; [|exact Hgs]. split; [discriminate|].
      constructor; [apply key_eqb_refl|].
      eapply List.Forall_impl; [|exact Hg]. simpl. intros a Ha.
      unfold same_key in *. eapply key_eqb_trans; eauto.
    + constructor; [exact Hx|]. now constructor.
Qed.

(** On a sorted list the groups come in strictly ascending key order. *)
Lemma runs_strict l :
  StronglySorted le l -> StronglySorted glt (Sql.runs key l).
Proof.
  induction 1 as [|x l Hs IH Hx]; simpl; [constructor|].
  pose proof (runs_class l) as Hc.
  destruct (Sql.runs key l) as [|g gs] eqn:E.
  - repeat constructor.
  - inversion Hc as [|? ? [Hne _] _]; subst.
    destruct g as [|y g]; [congruence|].
    assert (Hy : In y l).
    { rewrite <- (runs_concat l), E. simpl. now left. }
    rewrite List.Forall_forall in Hx. specialize (Hx y Hy).
    unfold row_le in Hx.
    inversion IH as [|? ? Hgs Hlt]; subst. simpl.
    destruct (Sql.key_eqb (key x) (key y)) eqn:Hxy.
    + constructor; [exact Hgs|].
      eapply List.Forall_impl; [|exact Hlt]. intros g' Hg'.
      unfold group_lt in *. simpl in *.
      eapply key_leb_ltb_trans; eauto.
    + constructor; [exact IH|].
      assert (Hxy' : Sql.key_ltb (key x) (key y) = true).
      { apply key_ltb_true. split; auto.
        unfold Sql.key_eqb in Hxy. rewrite Hx in Hxy. exact Hxy. }
      constructor; [exact Hxy'|].
      eapply List.Forall_impl; [|exact Hlt]. intros g' Hg'.
      unfold group_lt in *. simpl in *.
      apply key_ltb_true in Hg' as [Hg' _].
      eapply key_ltb_leb_trans; eauto.
Qed.

Lemma filter_all (p : A -> bool) l :
  (forall y, In y l -> p y = true) -> List.filter p l = l.
Proof.
  induction l as [|z l IH]; simpl; auto. intros H.
  rewrite (H z) by now left. f_equal. apply IH. intros y Hy. apply H. now right.
Qed.

Lemma filter_none (p : A -> bool) l :
  (forall y, In y l -> p y = false) -> List.filter p l = [].
Proof.
  induction l as [|z l IH]; simpl; auto. intros H.
  rewrite (H z) by now left. apply IH. intros y Hy. apply H. now right.
Qed.

Lemma class_same g x y :
  class g -> In x g -> In y g -> same (key x) y = true.
Proof.
  intros [_ Hg] Hx Hy. rewrite List.Forall_forall in Hg.
  pose proof (Hg x Hx) as H1. pose proof (Hg y Hy) as H2.
  unfold same_key in *. rewrite key_eqb_sym in H1.
  eapply key_eqb_trans; eauto.
Qed.

Lemma class_apart g1 g2 x y :
  class g1 -> class g2 -> glt g1 g2 -> In x g1 -> In y g2 ->
  same (key x) y = false /\ same (key y) x = false.
Proof.
  intros [_ H1] [_ H2] Hlt Hx Hy. rewrite List.Forall_forall in H1, H2.
  specialize (H1 x Hx). specialize (H2 y Hy).
  unfold same_key, group_lt in *.
  assert (Hne : Sql.key_eqb (key x) (key y) = false).
  { destruct (Sql.key_eqb (key x) (key y)) eqn:E; auto.
    pose proof (key_eqb_trans _ _ _ H1 E) as H3.
    rewrite key_eqb_sym in H2.
    pose proof (key_eqb_trans _ _ _ H3 H2) as H4.
    now rewrite (key_ltb_not_eqb _ _ Hlt) in H4. }
  split; [exact Hne | now rewrite key_eqb_sym].
Qed.

(** Groups that are classes in strictly ascending order cut the list
    into the rows of each key. *)
Lemma groups_partition G :
  Forall class G -> StronglySorted glt G ->
  forall g x, In g G -> In x g ->
    List.filter (same (key x)) (concat G) = g.
Proof.
  intros Hc Hs. induction Hs as [|g0 G Hs IH Hlt]; intros g x Hg Hx; [destruct Hg|].
  inversion Hc as [|? ? Hc0 Hc']; subst.
  rewrite List.Forall_forall in Hlt, Hc'.
  simpl. rewrite List.filter_app. destruct Hg as [->|Hg].
  - rewrite (filter_all _ g) by (intros y Hy; eapply class_same; eauto).
    rewrite filter_none; [apply app_nil_r|].
    intros z Hz. apply List.in_concat in Hz as (g' & Hg' & Hz).
    exact (proj1 (class_apart g g' x z Hc0 (Hc' _ Hg') (Hlt _ Hg') Hx Hz)).
  - rewrite filter_none.
    + simpl. apply IH; auto. apply List.Forall_forall. exact Hc'.
    + intros z Hz.
      exact (proj2 (class_apart g0 g z x Hc0 (Hc' _ Hg) (Hlt _ Hg) Hz Hx)).
Qed.

(** [GROUP BY]: the groups are the classes of the key, each holding its
    rows in table order, in strictly ascending order of the key. *)
Lemma group_by_spec l :
  StronglySorted glt (Sql.group_by key l) /\
  Forall class (Sql.group_by key l) /\
  (forall g x, In g (Sql.group_by key l) -> In x g ->
     g = List.filter (same (key x)) l) /\
  (forall x, In x l -> exists g, In g (Sql.group_by key l) /\ In x g).
Proof.
  unfold Sql.group_by.
  pose proof (sort_by_sorted l) as Hs.
  pose proof (runs_strict _ Hs) as Hg.
  pose proof (runs_class (Sql.sort_by key l)) as Hc.
  split; [exact Hg|]. split; [exact Hc|]. split.
  - intros g x Hin Hx.
    rewrite <- (groups_partition _ Hc Hg g x Hin Hx).
    rewrite runs_concat. apply sort_by_filter.
  - intros x Hx. apply sort_by_In in Hx.
    rewrite <- (runs_concat (Sql.sort_by key l)) in Hx.
    apply List.in_concat in Hx as (g & Hg' & Hx). eauto.
Qed.

End GroupingFacts.

(** ** Result rows of a grouped statement *)

Lemma map_result_ok {A B} (f : A -> result B) l rs :
  map_result f l = Ok rs -> List.Forall2 (fun a r => f a = Ok r) l rs.
Proof.
  revert rs. induction l as [|a l IH]; simpl; intros rs.
  - intros [= <-]. constructor.
  - destruct (f a) as [b|e] eqn:E; [|discriminate].
    destruct (map_result f l) as [bs|e]; [|discriminate].
    intros [= <-]. constructor; auto.
Qed.

Lemma Forall2_with_In {A B} (P : A -> B -> Prop) l rs :
  List.Forall2 P l rs -> List.Forall2 (fun a b => In a l /\ P a b) l rs.
Proof.
  induction 1 as [|a b l rs Hab H IH]; constructor.
  - split; [now left | exact Hab].
  - eapply List.Forall2_impl; [|exact IH]. simpl. intros a' b' [H1 H2]. auto.
Qed.

Lemma map_result_total {A B} (f : A -> result B) l :
  (forall a, In a l -> exists r, f a = Ok r) -> exists rs, map_result f l = Ok rs.
Proof.
  induction l as [|a l IH]; simpl; intros H; [eauto|].
  destruct (H a (or_introl eq_refl)) as [b ->].
  destruct IH as [bs ->]; [intros; apply H; now right|]. eauto.
Qed.

Lemma Forall2_In_r {A B} (P : A -> B -> Prop) l rs b :
  List.Forall2 P l rs -> In b rs -> exists a, In a l /\ P a b.
Proof.
  induction 1 as [|a0 b0 l rs H0 H IH]; simpl; [tauto|].
  intros [<-|Hb]; [eauto|]. destruct (IH Hb) as (a & Ha & Hp). eauto.
Qed.

Lemma Forall2_In_l {A B} (P : A -> B -> Prop) l rs a :
  List.Forall2 P l rs -> In a l -> exists b, In b rs /\ P a b.
Proof.
  induction 1 as [|a0 b0 l rs H0 H IH]; simpl; [tauto|].
  intros [<-|Ha]; [eauto|]. destruct (IH Ha) as (b & Hb & Hp). eauto.
Qed.

Lemma Forall2_sorted {A B} (P : A -> B -> Prop) (R : A -> A -> Prop)
    (R' : B -> B -> Prop) l rs :
  (forall a b a' b', P a b -> P a' b' -> R a a' -> R' b b') ->
  List.Forall2 P l rs -> StronglySorted R l -> StronglySorted R' rs.
Proof.
  intros HR H. induction H as [|a b l rs Hab H IH]; intros Hs; [constructor|].
  inversion Hs as [|? ? Hs' Hall]; subst.
  constructor; [now apply IH|].
  apply List.Forall_forall. intros b' Hb'.
  destruct (Forall2_In_r _ _ _ _ H Hb') as (a' & Ha' & Hp).
  rewrite List.Forall_forall in Hall. eapply HR; eauto.
Qed.

Lemma sorted_app_l {A} (R : A -> A -> Prop) l1 l2 :
  StronglySorted R (l1 ++ l2) -> StronglySorted R l1.
Proof.
  induction l1 as [|a l1 IH]; simpl; [constructor|].
  intros H. inversion H as [|? ? Hs Hall]; subst.
  constructor; [now apply IH|].
  apply List.Forall_forall. intros b Hb. rewrite List.Forall_forall in Hall.
  apply Hall. apply in_or_app. now left.
Qed.

Lemma sorted_app_cross {A} (R : A -> A -> Prop) l1 l2 a b :
  StronglySorted R (l1 ++ l2) -> In a l1 -> In b l2 -> R a b.
Proof.
  induction l1 as [|x l1 IH]; simpl; [tauto|].
  intros H [->|Ha] Hb; inversion H as [|? ? Hs Hall]; subst.
  - rewrite List.Forall_forall in Hall. apply Hall. apply in_or_app. now right.
  - now apply IH.
Qed.

Section ReportFacts.
Context (key : row -> list value).
Context (sel : list row -> result (list value)).
Context (okey : list value -> list value).
Hypothesis sel_key :
  forall g o, g <> [] -> sel g = Ok o -> okey o = Sql.head_key key g.

Lemma group_is_rows_of rows g :
  In g (Sql.group_by key rows) ->
  g <> [] /\ g = rows_of key (Sql.head_key key g) rows.
Proof.
  intros Hg.
  destruct (group_by_spec key rows) as (_ & Hc & Hf & _).
  rewrite List.Forall_forall in Hc. destruct (Hc g Hg) as [Hne _].
  split; [exact Hne|].
  destruct g as [|x g']; [congruence|].
  apply (Hf (x :: g') x Hg). now left.
Qed.

Lemma report_rows rows n out :
  map_result sel (firstn n (Sql.group_by key rows)) = Ok out ->
  (length out <= n)%nat /\
  StronglySorted (fun o1 o2 => Sql.key_ltb (okey o1) (okey o2) = true) out /\
  (forall r, In r rows ->
     (exists o, In o out /\ Sql.key_eqb (okey o) (key r) = true) \/
     ((n < length (Sql.group_by key rows))%nat /\ length out = n /\
      forall o, In o out -> Sql.key_ltb (okey o) (key r) = true)) /\
  (forall o, In o out ->
     rows_of key (okey o) rows <> [] /\ sel (rows_of key (okey o) rows) = Ok o).
Proof.
  intros Hout. apply map_result_ok, Forall2_with_In in Hout.
  set (G := Sql.group_by key rows) in *.
  destruct (group_by_spec key rows) as (Hs & Hc & Hf & Hall). fold G in Hs, Hc, Hf, Hall.
  assert (Hsub : forall g, In g (firstn n G) -> In g G).
  { intros g Hg. rewrite <- (firstn_skipn n G). apply in_or_app. now left. }
  assert (Hkey : forall g o, In g (firstn n G) -> sel g = Ok o ->
            g <> [] /\ okey o = Sql.head_key key g /\ g = rows_of key (okey o) rows).
  { intros g o Hg Ho. destruct (group_is_rows_of rows g (Hsub g Hg)) as [Hne Heq].
    split; [exact Hne|]. rewrite (sel_key g o Hne Ho). auto. }
  split; [|split; [|split]].
  - rewrite <- (List.Forall2_length Hout). apply firstn_le_length.
  - eapply (Forall2_sorted _ (group_lt key)); [| exact Hout |].
    + intros g o g' o' [Hg Ho] [Hg' Ho'] Hlt.
      destruct (Hkey g o Hg Ho) as (_ & -> & _).
      destruct (Hkey g' o' Hg' Ho') as (_ & -> & _). exact Hlt.
    + apply (sorted_app_l _ _ (skipn n G)). now rewrite firstn_skipn.
  - intros r Hr. destruct (Hall r Hr) as (g & Hg & Hrg).
    assert (Hgk : Sql.key_eqb (Sql.head_key key g) (key r) = true).
    { rewrite List.Forall_forall in Hc. destruct (Hc g Hg) as [_ Hcl].
      rewrite List.Forall_forall in Hcl. apply (Hcl r Hrg). }
    rewrite <- (firstn_skipn n G) in Hg. apply in_app_or in Hg as [Hg|Hg].
    + left. destruct (Forall2_In_l _ _ _ _ Hout Hg) as (o & Ho & _ & Hsel).
      exists o. split; [exact Ho|].
      destruct (Hkey g o Hg Hsel) as (_ & -> & _). exact Hgk.
    + right.
      assert (Hlen : (n < length G)%nat).
      { destruct (Nat.lt_ge_cases n (length G)) as [H|H]; auto.
        rewrite skipn_all2 in Hg by exact H. destruct Hg. }
      split; [exact Hlen|]. split.
      * rewrite <- (List.Forall2_length Hout). apply firstn_length_le. lia.
      * intros o Ho.
        destruct (Forall2_In_r _ _ _ _ Hout Ho) as (g' & Hg' & _ & Hsel).
        destruct (Hkey g' o Hg' Hsel) as (_ & -> & _).
        assert (Hlt : group_lt key g' g).
        { apply (sorted_app_cross _ (firstn n G) (skipn n G)); auto.
          now rewrite firstn_skipn. }
        unfold group_lt in Hlt. apply key_ltb_true in Hlt as [H1 H2].
        apply key_eqb_true in Hgk as [H3 H4].
        apply key_ltb_true. split; [eapply key_leb_trans; eauto|].
        destruct (Sql.key_leb (key r) (Sql.head_key key g')) eqn:E; auto.
        now rewrite (key_leb_trans _ _ _ H3 E) in H2.
  - intros o Ho.
    destruct (Forall2_In_r _ _ _ _ Hout Ho) as (g & Hg & _ & Hsel).
    destruct (Hkey g o Hg Hsel) as (Hne & _ & Heq).
    rewrite <- Heq. auto.
Qed.

End ReportFacts.

(** ** Sums that do not overflow *)

Lemma sum_ints_ok l : forall acc,
  Z.abs acc + fold_right Z.add 0 (map Z.abs l) <= Int64.max_int ->
  Sql.sum_ints acc l = Ok (acc + fold_right Z.add 0 l).
Proof.
  induction l as [|z l IH]; simpl; intros acc H.
  - f_equal. lia.
  - assert (Hnn : 0 <= fold_right Z.add 0 (map Z.abs l)).
    { clear. induction l; simpl; lia. }
    assert (Hr : Int64.in_range (acc + z) = true).
    { unfold Int64.in_range, Int64.min_int, Int64.max_int in *.
      apply andb_true_iff. split; apply Z.leb_le; lia. }
    rewrite Hr, IH; [f_equal; lia | lia].
Qed.

Lemma sum_filter_le {A} (f : A -> Z) (p : A -> bool) l :
  (forall a, In a l -> 0 <= f a) ->
  0 <= fold_right Z.add 0 (map f (List.filter p l))
       <= fold_right Z.add 0 (map f l).
Proof.
  induction l as [|a l IH]; simpl; intros H; [lia|].
  assert (Ha : 0 <= f a) by (apply H; now left).
  assert (IH' := IH (fun b Hb => H b (or_intror Hb))).
  destruct (p a); simpl; lia.
Qed.

Lemma no_overflow_filter rows k (p : row -> bool) :
  no_overflow rows k -> no_overflow (List.filter p rows) k.
Proof.
  unfold no_overflow, column_ints. rewrite !map_map. intros H.
  pose proof (sum_filter_le (fun r => Z.abs (integer_of (cell k r))) p rows
                (fun a _ => Z.abs_nonneg _)).
  lia.
Qed.

Lemma non_null_map {A} (c : A -> value) l :
  Sql.non_null (map c l)
  = map c (List.filter (fun r => negb (Sql.rank (c r) =? 0)%nat) l).
Proof.
  unfold Sql.non_null. induction l as [|a l IH]; simpl; auto.
  destruct (negb (Sql.rank (c a) =? 0)%nat); simpl; now rewrite IH.
Qed.

Lemma non_null_numbers vs :
  forallb (fun v => Sql.is_int v || is_finite_real v) vs = true ->
  Sql.non_null vs = vs.
Proof.
  unfold Sql.non_null. induction vs as [|v vs IH]; simpl; auto.
  intros H. apply andb_prop in H as [Hv Hvs]. rewrite (IH Hvs).
  destruct v as [|z|[q| | |]|]; try discriminate; reflexivity.
Qed.

Lemma forallb_weaken {A} (p q : A -> bool) l :
  (forall a, p a = true -> q a = true) -> forallb p l = true -> forallb q l = true.
Proof.
  intros H. rewrite !forallb_forall. auto.
Qed.

(** [SUM] over integers that do not overflow is their sum. *)
Lemma agg_sum_ints vs :
  vs <> [] -> forallb Sql.is_int vs = true ->
  fold_right Z.add 0 (map Z.abs (map Sql.int_of vs)) <= Int64.max_int ->
  Sql.agg_sum vs = Ok (VInt (fold_right Z.add 0 (map Sql.int_of vs))).
Proof.
  intros Hne Hi Hb. unfold Sql.agg_sum.
  rewrite non_null_numbers
    by (eapply forallb_weaken; [|exact Hi]; intros a ->; reflexivity).
  destruct vs as [|v vs']; [congruence|].
  rewrite Hi, sum_ints_ok by (simpl in *; lia).
  reflexivity.
Qed.

Local Open Scope Q_scope.

Lemma sum_finite vs :
  forallb is_finite_real vs = true -> forall a,
  fold_left Float.add (map Sql.num vs) (Float.fin a)
  = Float.fin (a + fold_right Qplus 0 (map real_of vs)).
Proof.
  induction vs as [|v vs IH]; intros H a.
  - simpl. unfold Float.fin. f_equal. apply Qred_complete. ring.
  - cbn [forallb] in H. apply andb_prop in H as [Hv Hvs].
    destruct v as [|z|[q| | |]|]; try discriminate.
    cbn [map fold_left fold_right Sql.num real_of].
    change (Float.add (Float.fin a) (Float.Fin q)) with (Float.fin (Qred a + q)).
    rewrite (IH Hvs). unfold Float.fin. f_equal. apply Qred_complete.
    rewrite Qred_correct. ring.
Qed.

Lemma sum_reals_finite vs :
  forallb is_finite_real vs = true ->
  Sql.sum_reals (map Sql.num vs) = Float.fin (fold_right Qplus 0 (map real_of vs)).
Proof.
  intros H. unfold Sql.sum_reals. change Float.zero with (Float.fin 0).
  rewrite (sum_finite vs H). unfold Float.fin. f_equal. apply Qred_complete. ring.
Qed.

Lemma finite_not_int v vs :
  is_finite_real v = true -> forallb Sql.is_int (v :: vs) = false.
Proof. destruct v as [|z|[q| | |]|]; try discriminate. reflexivity. Qed.

(** [SUM] over finite reals is their sum. *)
Lemma agg_sum_reals vs :
  vs <> [] -> forallb is_finite_real vs = true ->
  Sql.agg_sum vs = Ok (VReal (Float.fin (fold_right Qplus 0 (map real_of vs)))).
Proof.
  intros Hne Hf. unfold Sql.agg_sum.
  rewrite non_null_numbers
    by (eapply forallb_weaken; [|exact Hf]; intros a ->; apply orb_true_r).
  destruct vs as [|v vs']; [congruence|].
  rewrite (finite_not_int v vs') by (cbn [forallb] in Hf; now apply andb_prop in Hf).
  now rewrite (sum_reals_finite _ Hf).
Qed.

(** [AVG] over finite reals is their mean. *)
Lemma agg_avg_reals vs :
  vs <> [] -> forallb is_finite_real vs = true ->
  Sql.agg_avg vs
  = VReal (Float.fin (fold_right Qplus 0 (map real_of vs)
                      / inject_Z (Z.of_nat (length vs)))).
Proof.
  intros Hne Hf. unfold Sql.agg_avg.
  rewrite non_null_numbers
    by (eapply forallb_weaken; [|exact Hf]; intros a ->; apply orb_true_r).
  destruct vs as [|v vs']; [congruence|].
  rewrite (sum_reals_finite _ Hf).
  set (l := v :: vs') in *.
  assert (Hn : (0 < Z.of_nat (length l))%Z) by (unfold l; simpl; lia).
  set (n := Z.of_nat (length l)) in *.
  unfold Float.div, Float.of_Z, Float.fin.
  assert (Hsign : Float.qsign (inject_Z n) = Gt).
  { unfold Float.qsign. change (Qnum (inject_Z n)) with n.
    now apply Z.compare_gt_iff. }
  rewrite Hsign. unfold cell_of_float, Float.fin. simpl. do 2 f_equal.
  apply Qred_complete. now rewrite Qred_correct.
Qed.

Local Close Scope Q_scope.

(** ** Frames read from result rows *)

Lemma nth_map_lt {A B} (f : A -> B) l i (d : A) (e : B) :
  (i < length l)%nat -> nth i (map f l) e = f (nth i l d).
Proof.
  intros Hi. rewrite (nth_indep _ e (f d)) by now rewrite length_map.
  apply map_nth.
Qed.

Lemma map_nth_seq {A B} (f : A -> B) (F : nat -> B) l (d : A) :
  (forall i, (i < length l)%nat -> F i = f (nth i l d)) ->
  map F (seq 0 (length l)) = map f l.
Proof.
  revert F. induction l as [|a l IH]; intros F HF; simpl; [reflexivity|].
  f_equal; [apply (HF 0%nat); simpl; lia|].
  rewrite <- seq_shift, map_map. apply IH.
  intros i Hi. apply (HF (S i)). simpl. lia.
Qed.

Lemma read_back_ints vs :
  forallb Sql.is_int vs = true -> map VInt (map Sql.int_of vs) = vs.
Proof.
  induction vs as [|v vs IH]; intros H; [reflexivity|].
  cbn [forallb] in H. apply andb_prop in H as [Hv H].
  cbn [map]. rewrite (IH H). destruct v; try discriminate. reflexivity.
Qed.

Lemma read_back_nulls vs :
  forallb text_or_null vs = true ->
  forallb (fun v => negb (Sql.rank v =? 2)%nat) vs = true ->
  map cell_of_float
      (map (fun v => if (Sql.rank v =? 0)%nat then Float.NaN else Sql.num v) vs)
  = vs.
Proof.
  induction vs as [|v vs IH]; intros H Hr; [reflexivity|].
  cbn [forallb] in H, Hr.
  apply andb_prop in H as [Hv H]. apply andb_prop in Hr as [Hv' Hr].
  cbn [map]. rewrite (IH H Hr). destruct v; try discriminate. reflexivity.
Qed.

Lemma read_back_texts vs :
  forallb text_or_null vs = true -> map cell_of_object vs = vs.
Proof.
  induction vs as [|v vs IH]; intros H; [reflexivity|].
  cbn [forallb] in H. apply andb_prop in H as [Hv H].
  cbn [map]. rewrite (IH H). destruct v; try discriminate; reflexivity.
Qed.

Lemma read_back_reals vs :
  forallb is_finite_real vs = true ->
  map cell_of_float
      (map (fun v => if (Sql.rank v =? 0)%nat then Float.NaN else Sql.num v) vs)
  = vs.
Proof.
  induction vs as [|v vs IH]; intros H; [reflexivity|].
  cbn [forallb] in H. apply andb_prop in H as [Hv H].
  cbn [map]. rewrite (IH H). destruct v as [|z|[q| | |]|]; try discriminate.
  reflexivity.
Qed.

Lemma kinds_read_back kd vs :
  In kd column_kinds -> forallb kd vs = true -> cells (series_of_cells vs) = vs.
Proof.
  intros Hk Hvs. unfold series_of_cells.
  destruct (forallb Sql.is_int vs) eqn:Hi; [now apply read_back_ints|].
  destruct Hk as [<-|[<-|[<-|[]]]]; [congruence| |].
  - destruct (forallb (fun v => negb (Sql.rank v =? 2)%nat) vs) eqn:Ht.
    + now apply read_back_nulls.
    + now apply read_back_texts.
  - assert (Ht : forallb (fun v => negb (Sql.rank v =? 2)%nat) vs = true).
    { eapply forallb_weaken; [|exact Hvs].
      intros [|z|[q| | |]|]; try discriminate. reflexivity. }
    rewrite Ht. now apply read_back_reals.
Qed.

Lemma frame_columns_fst header : forall k rows,
  map fst (frame_columns k header rows) = header.
Proof.
  induction header as [|c header IH]; intros k rows; simpl; [reflexivity|].
  now rewrite IH.
Qed.

Lemma of_kinds_nth ks o j kd :
  of_kinds ks o -> nth_error ks j = Some kd -> kd (nth j o VNull) = true.
Proof.
  intros H. revert j. induction H as [|k0 v ks o Hv H IH]; intros [|j]; simpl;
    try discriminate.
  - now intros [= <-].
  - apply IH.
Qed.

Lemma column_of_kind ks out j kd :
  Forall (of_kinds ks) out -> nth_error ks j = Some kd ->
  forallb kd (map (fun r => nth j r VNull) out) = true.
Proof.
  intros H Hj. induction H as [|o out Ho H IH]; simpl; [reflexivity|].
  now rewrite (of_kinds_nth ks o j kd Ho Hj), IH.
Qed.

Lemma frame_row_of_rows ks out i :
  Forall (fun kd => In kd column_kinds) ks -> Forall (of_kinds ks) out ->
  (i < length out)%nat ->
  forall header k,
    (forall j, (j < length header)%nat -> is_Some (nth_error ks (k + j))) ->
    map (fun cs => nth i (cells (snd cs)) VNull) (frame_columns k header out)
    = map (fun j => nth j (nth i out []) VNull) (seq k (length header)).
Proof.
  intros Hks Hout Hi. induction header as [|c header IH]; intros k Hk; [reflexivity|].
  cbn [frame_columns map length seq snd].
  destruct (Hk 0%nat ltac:(simpl; lia)) as [kd Hkd]. rewrite Nat.add_0_r in Hkd.
  assert (Hin : In kd column_kinds).
  { rewrite List.Forall_forall in Hks. apply Hks. eapply nth_error_In; eauto. }
  rewrite (kinds_read_back kd _ Hin (column_of_kind ks out k kd Hout Hkd)).
  rewrite (nth_map_lt (fun r => nth k r VNull) out i [] VNull Hi).
  f_equal. apply IH. intros j Hj.
  replace (S k + j)%nat with (k + S j)%nat by lia. apply Hk. simpl. lia.
Qed.

(** A frame read from rows whose columns each hold one kind of cell has
    the header as its labels and the rows as its rows. *)
Lemma frame_rows_of_rows header ks out :
  length ks = length header ->
  Forall (fun kd => In kd column_kinds) ks -> Forall (of_kinds ks) out ->
  df_columns (frame_of_rows header out) = header /\
  frame_rows (frame_of_rows header out) = out.
Proof.
  intros Hlen Hks Hout. split; [apply frame_columns_fst|].
  unfold frame_rows, frame_of_rows. cbn [df_index].
  transitivity (map (fun o : list value => o) out); [|apply map_id].
  apply (map_nth_seq (fun o => o) _ out []). intros i Hi.
  unfold frame_row. cbn [df_data].
  rewrite (frame_row_of_rows ks out i Hks Hout Hi header 0).
  - assert (Ho : length (nth i out []) = length header).
    { rewrite List.Forall_forall in Hout.
      rewrite <- Hlen. symmetry. eapply List.Forall2_length.
      apply Hout. now apply nth_In. }
    rewrite <- Ho.
    transitivity (map (fun v : value => v) (nth i out [])); [|apply map_id].
    apply (map_nth_seq (fun v => v) _ (nth i out []) VNull). reflexivity.
  - intros j Hj. simpl. destruct (nth_error ks j) eqn:E; [eauto|].
    apply nth_error_None in E. lia.
Qed.

(** ** Cells that are a given number *)

Lemma is_real_fin q : is_real q (VReal (Float.fin q)).
Proof. exists (Qred q). split; [reflexivity | apply Qred_correct]. Qed.

(** ** The daily performance *)

Lemma campaign_row_inv r :
  campaign_row r = true ->
  is_text (cell c_tenant_id r) = true /\ text_or_null (cell c_date r) = true /\
  Sql.is_int (cell c_impressions r) = true /\ Sql.is_int (cell c_clicks r) = true /\
  Sql.is_int (cell c_conversions r) = true /\
  is_finite_real (cell c_spend r) = true /\ is_finite_real (cell c_revenue r) = true /\
  is_finite_real (cell c_ctr r) = true /\ is_finite_real (cell c_roi r) = true.
Proof.
  unfold campaign_row. cbn [forallb]. rewrite !andb_true_iff. tauto.
Qed.

Lemma typed_column (P : value -> bool) k g :
  (forall r, campaign_row r = true -> P (cell k r) = true) ->
  forallb campaign_row g = true -> forallb P (map (cell k) g) = true.
Proof.
  intros H Hg. rewrite forallb_forall in *. intros v Hv.
  apply in_map_iff in Hv as (r & <- & Hr). auto.
Qed.

Lemma typed_filter (p : row -> bool) rows :
  forallb campaign_row rows = true ->
  forallb campaign_row (List.filter p rows) = true.
Proof.
  rewrite !forallb_forall. intros H r Hr. apply filter_In in Hr as [Hr _]. auto.
Qed.

Lemma typed_head g :
  g <> [] -> forallb campaign_row g = true ->
  text_or_null (head_cell c_tenant_id g) = true /\
  text_or_null (head_cell c_date g) = true.
Proof.
  destruct g as [|r g]; [congruence|]. intros _ H. cbn [forallb] in H.
  apply andb_prop in H as [H _]. apply campaign_row_inv in H as (H1 & H2 & _).
  cbn [head_cell]. split; [unfold text_or_null; now rewrite H1 | exact H2].
Qed.

Lemma map_cells_nonempty k (g : list row) : g <> [] -> map (cell k) g <> [].
Proof. destruct g; [congruence | discriminate]. Qed.

Lemma int_column_total k g :
  g <> [] -> forallb Sql.is_int (map (cell k) g) = true -> no_overflow g k ->
  Sql.agg_sum (map (cell k) g) = Ok (VInt (int_total k g)).
Proof.
  intros Hne Hi Hb. rewrite agg_sum_ints; auto using map_cells_nonempty.
  - unfold int_total, column_ints. rewrite map_map. reflexivity.
  - unfold no_overflow, column_ints in Hb.
    rewrite <- (map_map (cell k) integer_of g) in Hb. exact Hb.
Qed.

Lemma real_column_total k g :
  g <> [] -> forallb is_finite_real (map (cell k) g) = true ->
  Sql.agg_sum (map (cell k) g) = Ok (VReal (Float.fin (real_total k g))).
Proof.
  intros Hne Hf. rewrite agg_sum_reals; auto using map_cells_nonempty.
  unfold real_total. now rewrite map_map.
Qed.

Lemma daily_select_ok g o :
  daily_performance_select c_tenant_id c_date c_conversions c_revenue c_spend g = Ok o ->
  exists a b c,
    Sql.agg_sum (map (cell c_conversions) g) = Ok a /\
    Sql.agg_sum (map (cell c_revenue) g) = Ok b /\
    Sql.agg_sum (map (cell c_spend) g) = Ok c /\
    o = [head_cell c_tenant_id g; head_cell c_date g; a; b; c].
Proof.
  unfold daily_performance_select.
  destruct (Sql.agg_sum (map (cell c_conversions) g)) as [a|]; [|discriminate].
  destruct (Sql.agg_sum (map (cell c_revenue) g)) as [b|]; [|discriminate].
  destruct (Sql.agg_sum (map (cell c_spend) g)) as [c|]; [|discriminate].
  simpl. intros [= <-]. exists a, b, c. auto.
Qed.

(** The SELECT list of [daily_performance] over a group of typed rows. *)
Lemma daily_select_typed g :
  g <> [] -> forallb campaign_row g = true -> no_overflow g c_conversions ->
  daily_performance_select c_tenant_id c_date c_conversions c_revenue c_spend g
  = Ok [ head_cell c_tenant_id g; head_cell c_date g;
         VInt (int_total c_conversions g);
         VReal (Float.fin (real_total c_revenue g));
         VReal (Float.fin (real_total c_spend g)) ].
Proof.
  intros Hne Ht Hb. unfold daily_performance_select.
  rewrite (int_column_total c_conversions g Hne), (real_column_total c_revenue g Hne),
    (real_column_total c_spend g Hne);
    auto; apply typed_column; auto; intros r Hr; apply campaign_row_inv in Hr; tauto.
Qed.

Lemma daily_performance_unfold t :
  tbl_columns t = fact_campaigns_columns ->
  daily_performance t
  = map_result
      (daily_performance_select c_tenant_id c_date c_conversions c_revenue c_spend)
      (firstn 50 (Sql.group_by day_key (tbl_rows t))).
Proof.
  intros H. unfold daily_performance, column_of. rewrite H. reflexivity.
Qed.




(** ** Averages and their rounding *)

Local Open Scope Q_scope.

Lemma round_away_mono (x y : Q) : x <= y -> (Float.round_away x <= Float.round_away y)%Z.
Proof.
  destruct x as [n1 d1], y as [n2 d2]. unfold Qle, Float.round_away. simpl.
  intros H.
  assert (Hf : forall a b c d : Z, (0 < b)%Z -> (0 < d)%Z -> (a * d <= c * b)%Z ->
               (a / b <= c / d)%Z).
  { intros a b c d Hb Hd Hle.
    apply Z.div_le_lower_bound; auto.
    assert (Hq : (b * (a / b) <= a)%Z) by (apply Z.mul_div_le; lia).
    apply (Z.mul_le_mono_pos_l _ _ b); [lia|]. nia. }
  destruct (Z.compare_spec n1 0) as [E1|E1|E1];
    destruct (Z.compare_spec n2 0) as [E2|E2|E2]; subst; try nia;
    first
      [ apply Hf; lia
      | apply Z.opp_le_mono; rewrite !Z.opp_involutive; apply Hf; lia
      | match goal with
        | |- (- (?x / ?y) <= ?u / ?v)%Z =>
            assert (0 <= x / y)%Z by (apply Z.div_pos; lia);
            assert (0 <= u / v)%Z by (apply Z.div_pos; lia); lia
        end ].
Qed.

Lemma round_q_mono n (x y : Q) : x <= y -> round_q n x <= round_q n y.
Proof.
  intros H. unfold round_q, Qle. simpl.
  apply Z.mul_le_mono_nonneg_r; [lia|].
  apply round_away_mono. apply Qmult_le_compat_r; [exact H|].
  unfold Qle. simpl. lia.
Qed.

Lemma finite_num v q :
  finite_q v = Some q -> Sql.num v = Float.Fin q /\ Sql.rank v = 1%nat.
Proof.
  destruct v as [|z|[x| | |]|]; simpl; try discriminate; intros [= <-]; auto.
Qed.

Lemma within_non_null lo hi vs : within lo hi vs -> Sql.non_null vs = vs.
Proof.
  unfold within, Sql.non_null. induction 1 as [|v vs (q & Hq & _) H IH]; simpl; auto.
  destruct (finite_num v q Hq) as [_ ->]. simpl. now rewrite IH.
Qed.

Lemma sum_within lo hi vs : within lo hi vs -> forall acc,
  exists s, fold_left Float.add (map Sql.num vs) (Float.Fin acc) = Float.Fin s /\
    acc + inject_Z (Z.of_nat (length vs)) * lo <= s /\
    s <= acc + inject_Z (Z.of_nat (length vs)) * hi.
Proof.
  induction 1 as [|v vs (q & Hq & Hlo & Hhi) H IH]; intros acc.
  - exists acc. split; [reflexivity|].
    change (inject_Z (Z.of_nat (length (@nil value)))) with 0. split; lra.
  - destruct (finite_num v q Hq) as [Hn _].
    cbn [map fold_left length]. rewrite Hn. simpl Float.add.
    destruct (IH (Qred (acc + q))) as (s & Hs & H1 & H2).
    exists s. split; [exact Hs|].
    rewrite Nat2Z.inj_succ. unfold Z.succ. rewrite inject_Z_plus.
    rewrite Qred_correct in H1, H2.
    set (n := inject_Z (Z.of_nat (length vs))) in *.
    assert (E1 : (n + inject_Z 1) * lo == n * lo + lo) by (simpl; ring).
    assert (E2 : (n + inject_Z 1) * hi == n * hi + hi) by (simpl; ring).
    rewrite E1, E2. split; lra.
Qed.

(** The average of finite values lies between their bounds. *)
Lemma agg_avg_within lo hi vs :
  vs <> [] -> within lo hi vs ->
  exists a, Sql.agg_avg vs = VReal (Float.Fin a) /\ lo <= a /\ a <= hi.
Proof.
  intros Hne Hw. unfold Sql.agg_avg. rewrite (within_non_null _ _ _ Hw).
  destruct vs as [|v vs]; [congruence|].
  set (l := v :: vs) in *.
  destruct (sum_within lo hi l Hw 0) as (s & Hs & H1 & H2).
  unfold Sql.sum_reals. change Float.zero with (Float.Fin 0). rewrite Hs.
  assert (Hn : (0 < Z.of_nat (length l))%Z) by (unfold l; simpl; lia).
  set (n := Z.of_nat (length l)) in *.
  assert (Hq : 0 < inject_Z n) by (unfold Qlt; simpl; lia).
  unfold Float.div, Float.of_Z.
  assert (Hsign : Float.qsign (inject_Z n) = Gt).
  { unfold Float.qsign. change (Qnum (inject_Z n)) with n.
    now apply Z.compare_gt_iff. }
  rewrite Hsign. unfold Float.fin, cell_of_float. simpl.
  eexists. split; [reflexivity|]. rewrite Qred_correct. split.
  - apply Qle_shift_div_l; [exact Hq|]. lra.
  - apply Qle_shift_div_r; [exact Hq|]. lra.
Qed.

Lemma round_away_eq (x y : Q) : x == y -> Float.round_away x = Float.round_away y.
Proof.
  intros H. apply Z.le_antisymm; apply round_away_mono; rewrite H; apply Qle_refl.
Qed.

Lemma round_away_integer z : Float.round_away (inject_Z z) = z.
Proof.
  assert (H : forall w : Z, ((2 * w + 1) / 2 = w)%Z).
  { intros w. rewrite (Z.mul_comm 2 w), Z.div_add_l by lia.
    change (1 / 2)%Z with 0%Z. lia. }
  unfold Float.round_away. cbn [Qnum Qden inject_Z].
  change (2 * Z.pos 1)%Z with 2%Z.
  destruct (z ?= 0)%Z; rewrite H; lia.
Qed.

(** Rounding leaves a value with no more decimals as it is. *)
Lemma round_q_grid n q : on_grid n q -> round_q n q == q.
Proof.
  intros [z Hz]. unfold round_q.
  assert (E : q * inject_Z (Z.pos (Float.scale n)) == inject_Z z).
  { rewrite Hz. unfold Qeq, Qmult, inject_Z. simpl. lia. }
  rewrite (round_away_eq _ _ E), round_away_integer. now rewrite Hz.
Qed.

Lemma round_fin n a :
  Sql.round n (VReal (Float.fin a)) = VReal (Float.fin (round_q n a)).
Proof.
  unfold Sql.round, Float.fin. simpl. unfold cell_of_float, Float.fin. simpl.
  unfold round_q. do 4 f_equal. apply round_away_eq. now rewrite Qred_correct.
Qed.

(** Rounding moves a value by at most half a unit of the last place. *)
Lemma round_away_error (x : Q) : Qabs (inject_Z (Float.round_away x) - x) <= 1 # 2.
Proof.
  destruct x as [n d]. unfold Float.round_away. cbn [Qnum Qden].
  set (D := Z.pos d). assert (HD : (0 < D)%Z) by (unfold D; lia).
  apply Qabs_Qle_condition.
  destruct (Z.compare_spec n 0) as [E|E|E].
  - pose proof (Z.mul_div_le (2 * n + D) (2 * D) ltac:(lia)) as H1.
    pose proof (Z.mul_succ_div_gt (2 * n + D) (2 * D) ltac:(lia)) as H2.
    set (k := ((2 * n + D) / (2 * D))%Z) in *.
    unfold Qle, Qminus, Qplus, Qopp, inject_Z. cbn [Qnum Qden]. fold D. split; lia.
  - pose proof (Z.mul_div_le (2 * - n + D) (2 * D) ltac:(lia)) as H1.
    pose proof (Z.mul_succ_div_gt (2 * - n + D) (2 * D) ltac:(lia)) as H2.
    set (k := ((2 * - n + D) / (2 * D))%Z) in *.
    unfold Qle, Qminus, Qplus, Qopp, inject_Z. cbn [Qnum Qden]. fold D. split; lia.
  - pose proof (Z.mul_div_le (2 * n + D) (2 * D) ltac:(lia)) as H1.
    pose proof (Z.mul_succ_div_gt (2 * n + D) (2 * D) ltac:(lia)) as H2.
    set (k := ((2 * n + D) / (2 * D))%Z) in *.
    unfold Qle, Qminus, Qplus, Qopp, inject_Z. cbn [Qnum Qden]. fold D. split; lia.
Qed.

Lemma is_rounded_fin n m :
  Float.scale n = Pos.of_nat (10 ^ n) ->
  is_rounded n m (VReal (Float.fin (round_q n m))).
Proof.
  intros Hs. unfold is_rounded. rewrite <- Hs.
  set (s := Float.scale n).
  exists (Qred (round_q n m)), (Float.round_away (m * inject_Z (Z.pos s))).
  split; [reflexivity|]. rewrite Qred_correct. unfold round_q. fold s.
  split; [reflexivity|].
  set (k := Float.round_away (m * inject_Z (Z.pos s))).
  pose proof (round_away_error (m * inject_Z (Z.pos s))) as He. fold k in He.
  assert (E : (k # s) - m == (inject_Z k - m * inject_Z (Z.pos s)) * (1 # s)).
  { rewrite (Qmake_Qdiv k s), (Qmake_Qdiv 1 s).
    change (inject_Z 1) with 1%Q. field. discriminate. }
  rewrite E, Qabs_Qmult.
  assert (E1 : Qabs (1 # s) == 1 # s) by (apply Qabs_pos; discriminate).
  assert (E2 : 1 # (2 * s) == (1 # 2) * (1 # s)) by reflexivity.
  rewrite E1, E2. apply Qmult_le_compat_r; [exact He | discriminate].
Qed.

(** [AVG] over a column of finite reals is the mean of the column, and
    the mean lies between the bounds of its values. *)
Lemma avg_column k g :
  g <> [] -> forallb is_finite_real (map (cell k) g) = true ->
  Sql.agg_avg (map (cell k) g) = VReal (Float.fin (mean k g)).
Proof.
  intros Hne Hf. rewrite agg_avg_reals; auto.
  - unfold mean, real_total. now rewrite map_map, length_map.
  - destruct g; [congruence | discriminate].
Qed.

Lemma mean_within lo hi k g :
  g <> [] -> forallb is_finite_real (map (cell k) g) = true ->
  within lo hi (map (cell k) g) -> lo <= mean k g /\ mean k g <= hi.
Proof.
  intros Hne Hf Hw.
  assert (Hm : map (cell k) g <> []) by (destruct g; [congruence | discriminate]).
  destruct (agg_avg_within lo hi _ Hm Hw) as (a & Ha & H1 & H2).
  rewrite (avg_column k g Hne Hf) in Ha. unfold Float.fin in Ha.
  injection Ha as Ha.
  assert (E : a == mean k g) by (rewrite <- Ha; apply Qred_correct).
  rewrite <- E. auto.
Qed.

(** ... and its rounded value lies between the rounded bounds. *)
Lemma round_avg_within n lo hi k g :
  g <> [] -> forallb is_finite_real (map (cell k) g) = true ->
  within lo hi (map (cell k) g) ->
  average_within n lo hi (mean k g) (VReal (Float.fin (round_q n (mean k g)))).
Proof.
  intros Hne Hf Hw. destruct (mean_within lo hi k g Hne Hf Hw) as [H1 H2].
  split; [auto|]. unfold Float.fin. eexists. split; [reflexivity|].
  rewrite Qred_correct.
  pose proof (round_q_mono n _ _ H1) as R1.
  pose proof (round_q_mono n _ _ H2) as R2.
  split; [reflexivity|]. split; [exact R1|]. split; [exact R2|]. split; intros Hg.
  - now rewrite <- (round_q_grid n lo Hg).
  - now rewrite <- (round_q_grid n hi Hg).
Qed.

Local Close Scope Q_scope.

(** ** The campaign summary *)

Lemma campaign_select_ok g o :
  campaign_summary_select c_tenant_id c_impressions c_clicks c_conversions c_spend
    c_revenue c_ctr c_roi g = Ok o ->
  exists a b c d e,
    Sql.agg_sum (map (cell c_impressions) g) = Ok a /\
    Sql.agg_sum (map (cell c_clicks) g) = Ok b /\
    Sql.agg_sum (map (cell c_conversions) g) = Ok c /\
    Sql.agg_sum (map (cell c_spend) g) = Ok d /\
    Sql.agg_sum (map (cell c_revenue) g) = Ok e /\
    o = [ head_cell c_tenant_id g; Sql.agg_count g; a; b; c; d; e;
          Sql.round 4 (Sql.agg_avg (map (cell c_ctr) g));
          Sql.round 2 (Sql.agg_avg (map (cell c_roi) g)) ].
Proof.
  unfold campaign_summary_select.
  destruct (Sql.agg_sum (map (cell c_impressions) g)) as [a|]; [|discriminate].
  destruct (Sql.agg_sum (map (cell c_clicks) g)) as [b|]; [|discriminate].
  destruct (Sql.agg_sum (map (cell c_conversions) g)) as [c|]; [|discriminate].
  destruct (Sql.agg_sum (map (cell c_spend) g)) as [d|]; [|discriminate].
  destruct (Sql.agg_sum (map (cell c_revenue) g)) as [e|]; [|discriminate].
  simpl. intros [= <-]. exists a, b, c, d, e. repeat split; auto.
Qed.

(** The SELECT list of [campaign_summary] over a group of typed rows. *)
Lemma campaign_select_typed g :
  g <> [] -> forallb campaign_row g = true ->
  no_overflow g c_impressions -> no_overflow g c_clicks ->
  no_overflow g c_conversions ->
  campaign_summary_select c_tenant_id c_impressions c_clicks c_conversions c_spend
    c_revenue c_ctr c_roi g
  = Ok [ head_cell c_tenant_id g; VInt (Z.of_nat (length g));
         VInt (int_total c_impressions g); VInt (int_total c_clicks g);
         VInt (int_total c_conversions g);
         VReal (Float.fin (real_total c_spend g));
         VReal (Float.fin (real_total c_revenue g));
         VReal (Float.fin (round_q 4 (mean c_ctr g)));
         VReal (Float.fin (round_q 2 (mean c_roi g))) ].
Proof.
  intros Hne Ht H1 H2 H3. unfold campaign_summary_select.
  rewrite (int_column_total c_impressions g Hne), (int_column_total c_clicks g Hne),
    (int_column_total c_conversions g Hne), (real_column_total c_spend g Hne),
    (real_column_total c_revenue g Hne), (avg_column c_ctr g Hne),
    (avg_column c_roi g Hne), !round_fin;
    auto; apply typed_column; auto; intros r Hr; apply campaign_row_inv in Hr; tauto.
Qed.

Lemma campaign_summary_unfold t :
  tbl_columns t = fact_campaigns_columns ->
  campaign_summary t
  = map_result
      (campaign_summary_select c_tenant_id c_impressions c_clicks c_conversions
         c_spend c_revenue c_ctr c_roi)
      (Sql.group_by tenant_key (tbl_rows t)).
Proof.
  intros H. unfold campaign_summary, column_of. rewrite H. reflexivity.
Qed.




(** * Further properties of the pipeline *)

(** ** The Metric Transformer: errors, repetition, bounds *)

Lemma lookup_col_mem c cols :
  lookup_col c cols = None <-> mem c (map fst cols) = false.
Proof.
  induction cols as [|[c' s] cols IH]; simpl; [tauto|].
  destruct (String.eqb c c'); simpl; [split; discriminate | exact IH].
Qed.

Lemma first_missing_head d c cs :
  first_missing d (c :: cs)
  = match lookup_col c (df_data d) with
    | Some _ => first_missing d cs
    | None => Some c
    end.
Proof.
  unfold first_missing, df_columns. simpl.
  destruct (lookup_col c (df_data d)) eqn:E.
  - destruct (mem c (map fst (df_data d))) eqn:M; [reflexivity|].
    apply lookup_col_mem in M. congruence.
  - apply lookup_col_mem in E. now rewrite E.
Qed.

Lemma truediv_object a b :
  as_floats a = None \/ as_floats b = None -> truediv a b = Raise TypeError.
Proof.
  unfold truediv. intros [H|H]; rewrite H; [reflexivity|].
  now destruct (as_floats a).
Qed.

Lemma bind_raise {S A B} (m : M S A) (k : A -> M S B) h e h' :
  m h = (Raise e, h') -> bind m k h = (Raise e, h').
Proof. intros E. unfold bind. now rewrite E. Qed.

Lemma getitem_missing (h : heap) df d c :
  h !! df = Some d -> lookup_col c (df_data d) = None ->
  getitem df c h = (Raise (KeyError c), h).
Proof. intros Hd Hc. unfold getitem. now rewrite Hd, Hc. Qed.

(** A transform whose first ratio lacks an input column raises
    [KeyError] with the label it looked up first and found missing; one
    whose input columns are there but hold text raises [TypeError].  In
    both cases no frame has been touched. *)
Theorem transform_input_errors (k : record_set) (h : heap) (df : loc) (d : DataFrame) :
  h !! df = Some d ->
  (forall c, first_missing d (first_inputs k) = Some c ->
     transform k df h = (Raise (KeyError c), h)) /\
  (first_missing d (first_inputs k) = None ->
   (exists c, In c (first_inputs k) /\ floats_of d c = None) ->
   transform k df h = (Raise TypeError, h)).
Proof.
  intros Hd.
  destruct k; cbn [first_inputs transform];
    unfold transform_campaigns, transform_targets, transform_customers;
    rewrite !first_missing_head; unfold floats_of;
    (match goal with
     | |- context [match lookup_col ?c (df_data d) with _ => _ end] =>
         destruct (lookup_col c (df_data d)) as [a|] eqn:Ea
     end;
     [| split; [intros c [= <-]; apply bind_raise; now apply getitem_missing with d
               | discriminate]]);
    (match goal with
     | |- context [match lookup_col ?c (df_data d) with _ => _ end] =>
         destruct (lookup_col c (df_data d)) as [b|] eqn:Eb
     end;
     [| split; [intros c [= <-]; run_getitem Hd; apply bind_raise;
                now apply getitem_missing with d
               | discriminate]]);
    (split; [discriminate|]);
    intros _ (c & Hc & Hn);
    run_getitem Hd; run_getitem Hd; apply bind_raise; unfold lift;
    (rewrite truediv_object; [reflexivity|]);
    simpl in Hc; destruct Hc as [<-|[<-|[]]];
    (rewrite Ea in Hn || rewrite Eb in Hn); auto.
Qed.

Lemma transform_input_errors_witness :
  transform Customers 0%nat
    {[ 0%nat := mkDataFrame 1 [("total_spent", SFloat [Float.fin 500])] ]}
  = (Raise (KeyError "total_orders"),
     {[ 0%nat := mkDataFrame 1 [("total_spent", SFloat [Float.fin 500])] ]}).
Proof.
  apply (proj1 (transform_input_errors Customers _ 0%nat
                  (mkDataFrame 1 [("total_spent", SFloat [Float.fin 500])])
                  (lookup_singleton_eq _ _))).
  reflexivity.
Defined.

(** [transform_campaigns] writes [ctr] before it reads [revenue] and
    [spend]: on a frame with numeric [clicks] and [impressions] that
    lacks one of the two, it raises [KeyError] with the missing label and
    leaves the frame of the caller with a [ctr] column that is rounded
    but not yet filled (a [0/0] row holds [NaN]). *)
Theorem transform_campaigns_fails_half_way (h : heap) (df : loc) (d : DataFrame)
    (x y : list Float.t) (c : string) :
  h !! df = Some d ->
  floats_of d "clicks" = Some x ->
  floats_of d "impressions" = Some y ->
  first_missing d roi_inputs = Some c ->
  transform_campaigns df h
  = (Raise (KeyError c),
     <[df := df_set "ctr" (SFloat (map (Float.np_round 4) (zip_with Float.div x y))) d]> h).
Proof.
  intros Hd Hx Hy Hc.
  apply floats_of_Some in Hx as (clicks & Hcl & Hx).
  apply floats_of_Some in Hy as (impressions & Him & Hy).
  unfold transform_campaigns.
  run_getitem Hd. run_getitem Hd.
  erewrite bind_ok; [|unfold lift, truediv; rewrite Hx, Hy; reflexivity].
  erewrite bind_ok; [|apply setitem_ok; exact Hd].
  set (d1 := df_set "ctr" _ d).
  assert (Hd1 : (<[df := d1]> h) !! df = Some d1) by apply lookup_insert_eq.
  unfold roi_inputs in Hc. rewrite !first_missing_head in Hc.
  destruct (lookup_col "revenue" (df_data d)) as [revenue|] eqn:Hr.
  - destruct (lookup_col "spend" (df_data d)) as [spend|] eqn:Hs; [discriminate|].
    injection Hc as <-.
    erewrite bind_ok;
      [|eapply getitem_ok; [exact Hd1|]; simpl;
        rewrite lookup_set_col_ne by discriminate; exact Hr].
    apply bind_raise. eapply getitem_missing; [exact Hd1|]. simpl.
    now rewrite lookup_set_col_ne by discriminate.
  - injection Hc as <-.
    apply bind_raise. eapply getitem_missing; [exact Hd1|]. simpl.
    now rewrite lookup_set_col_ne by discriminate.
Qed.

Lemma transform_campaigns_fails_half_way_witness :
  transform_campaigns 0%nat
    {[ 0%nat := mkDataFrame 1 [("clicks", SInt [0]); ("impressions", SInt [0])] ]}
  = (Raise (KeyError "revenue"),
     <[ 0%nat := mkDataFrame 1 [("clicks", SInt [0]); ("impressions", SInt [0]);
                                ("ctr", SFloat [Float.NaN])] ]>
       {[ 0%nat := mkDataFrame 1 [("clicks", SInt [0]); ("impressions", SInt [0])] ]}).
Proof.
  apply (transform_campaigns_fails_half_way _ 0%nat
           (mkDataFrame 1 [("clicks", SInt [0]); ("impressions", SInt [0])])
           [Float.of_Z 0] [Float.of_Z 0] "revenue");
    [apply lookup_singleton_eq | reflexivity | reflexivity | reflexivity].
Defined.

(** Running a transform a second time on the frame it has transformed
    changes nothing: the derived columns are recomputed from the same
    inputs and written over themselves. *)
Theorem transform_twice_is_once (k : record_set) (h : heap) (df : loc) (d : DataFrame) :
  h !! df = Some d ->
  inputs_numeric k d = true ->
  exists h1, transform k df h = (Ok df, h1) /\ transform k df h1 = (Ok df, h1).
Proof.
  intros Hd Hin.
  assert (Hf := fun f => inputs_numeric_field k d f Hin).
  destruct k; simpl in Hf |- *.
  - destruct (Hf _ (or_introl eq_refl)) as (x & y & Hx & Hy).
    destruct (Hf _ (or_intror (or_introl eq_refl))) as (z & w & Hz & Hw).
    simpl in Hx, Hy, Hz, Hw.
    apply floats_of_Some in Hx as (clicks & Hc & Hx).
    apply floats_of_Some in Hy as (impressions & Hi & Hy).
    apply floats_of_Some in Hw as (spend & Hs & Hw).
    destruct (lookup_col "revenue" (df_data d)) as [revenue|] eqn:Hr; [|discriminate].
    rewrite Hs in Hz.
    destruct (series_sub revenue spend) as [net|] eqn:Hnet; [|discriminate].
    eexists. split; [eapply transform_campaigns_run; eauto|].
    erewrite transform_campaigns_run;
      [ | apply lookup_insert_eq
        | simpl; rewrite !lookup_set_col_ne by discriminate; exact Hc
        | simpl; rewrite !lookup_set_col_ne by discriminate; exact Hi
        | simpl; rewrite !lookup_set_col_ne by discriminate; exact Hr
        | simpl; rewrite !lookup_set_col_ne by discriminate; exact Hs
        | exact Hx | exact Hy | exact Hnet | exact Hz | exact Hw ].
    rewrite insert_insert_eq. do 2 f_equal.
    unfold df_set. simpl. f_equal.
    rewrite (set_col_comm "ctr" "roi") by (try discriminate; apply set_col_In).
    now rewrite !set_col_twice.
  - destruct (Hf _ (or_introl eq_refl)) as (x & y & Hx & Hy).
    simpl in Hx, Hy.
    apply floats_of_Some in Hx as (num & Hc & Hx).
    apply floats_of_Some in Hy as (den & Hi & Hy).
    eexists. split; [eapply transform_targets_run; eauto|].
    erewrite transform_targets_run;
      [ | apply lookup_insert_eq
        | simpl; rewrite !lookup_set_col_ne by discriminate; exact Hc
        | simpl; rewrite !lookup_set_col_ne by discriminate; exact Hi
        | exact Hx | exact Hy ].
    rewrite insert_insert_eq. do 2 f_equal.
    unfold df_set. simpl. f_equal. apply set_col_twice.
  - destruct (Hf _ (or_introl eq_refl)) as (x & y & Hx & Hy).
    simpl in Hx, Hy.
    apply floats_of_Some in Hx as (num & Hc & Hx).
    apply floats_of_Some in Hy as (den & Hi & Hy).
    eexists. split; [eapply transform_customers_run; eauto|].
    erewrite transform_customers_run;
      [ | apply lookup_insert_eq
        | simpl; rewrite !lookup_set_col_ne by discriminate; exact Hc
        | simpl; rewrite !lookup_set_col_ne by discriminate; exact Hi
        | exact Hx | exact Hy ].
    rewrite insert_insert_eq. do 2 f_equal.
    unfold df_set. simpl. f_equal. apply set_col_twice.
Qed.

Lemma transform_twice_is_once_witness :
  exists h1,
    transform Campaigns 0%nat {[ 0%nat := campaign_frame 120 4000 900 300 ]}
    = (Ok 0%nat, h1) /\
    transform Campaigns 0%nat h1 = (Ok 0%nat, h1).
Proof.
  apply (transform_twice_is_once Campaigns _ 0%nat (campaign_frame 120 4000 900 300));
    [apply lookup_singleton_eq | reflexivity].
Defined.

(** Whether a transform returns or raises, every frame of the heap is
    still there afterwards with the same number of rows and the same
    original columns (label, place among the originals, dtype and
    values), and only the frame that was passed in can differ at all. *)
Theorem transform_loses_no_data (k : record_set) (df : loc) (h h' : heap)
    (r : result loc) (l : loc) (d : DataFrame) :
  transform k df h = (r, h') ->
  h !! l = Some d ->
  exists d', h' !! l = Some d' /\
    df_index d' = df_index d /\
    originals k d' = originals k d /\
    (l <> df -> d' = d).
Proof.
  intros E Hl. exact (transforms_keep_originals k df h r h' E l d Hl).
Qed.

Lemma transform_loses_no_data_witness :
  exists d',
    snd (transform Campaigns 0%nat
           {[ 0%nat := mkDataFrame 1 [("clicks", SInt [5]); ("impressions", SInt [10]);
                                      ("spend", SObject [VText "n/a"])] ]})
      !! 0%nat = Some d' /\
    df_index d' = 1%nat /\
    originals Campaigns d'
    = [("clicks", SInt [5]); ("impressions", SInt [10]); ("spend", SObject [VText "n/a"])] /\
    (0%nat <> 0%nat -> d' = mkDataFrame 1 [("clicks", SInt [5]); ("impressions", SInt [10]);
                                           ("spend", SObject [VText "n/a"])]).
Proof.
  apply (transform_loses_no_data Campaigns 0%nat
           {[ 0%nat := mkDataFrame 1 [("clicks", SInt [5]); ("impressions", SInt [10]);
                                      ("spend", SObject [VText "n/a"])] ]}
           _ (fst (transform Campaigns 0%nat
                     {[ 0%nat := mkDataFrame 1 [("clicks", SInt [5]); ("impressions", SInt [10]);
                                                ("spend", SObject [VText "n/a"])] ]}))
           0%nat (mkDataFrame 1 [("clicks", SInt [5]); ("impressions", SInt [10]);
                                 ("spend", SObject [VText "n/a"])]));
    [apply surjective_pairing | apply lookup_singleton_eq].
Defined.

(** *** Bounds of the rounded ratios *)

Lemma rint_between (q : Q) (a b : Z) :
  (inject_Z a <= q)%Q -> (q <= inject_Z b)%Q -> a <= Float.rint q <= b.
Proof.
  destruct q as [n d]. unfold Qle, Float.rint. simpl. intros Ha Hb.
  rewrite Z.mul_1_r in Ha, Hb.
  pose proof (Z.div_mod n (Zpos d) ltac:(lia)) as Hdm.
  pose proof (Z.mod_pos_bound n (Zpos d) ltac:(lia)) as Hr.
  assert (a <= n / Zpos d) by (apply Z.div_le_lower_bound; lia).
  assert (n / Zpos d <= b) by (apply Z.div_le_upper_bound; lia).
  destruct (Z.compare_spec (2 * (n mod Zpos d)) (Zpos d)) as [E|E|E];
    [destruct (Z.even (n / Zpos d))| |]; split; try lia; nia.
Qed.

Lemma np_round_between n q (lo hi : Z) :
  (inject_Z lo <= q)%Q -> (q <= inject_Z hi)%Q ->
  finite_between lo hi (Float.np_round n (Float.Fin q)).
Proof.
  intros Hlo Hhi. unfold Float.np_round, Float.fin.
  set (s := Float.scale n).
  destruct (rint_between (q * inject_Z (Zpos s)) (lo * Zpos s) (hi * Zpos s)) as [H1 H2].
  - rewrite inject_Z_mult. apply Qmult_le_compat_r; [exact Hlo|]. now unfold Qle.
  - rewrite inject_Z_mult. apply Qmult_le_compat_r; [exact Hhi|]. now unfold Qle.
  - eexists. split; [reflexivity|]. rewrite Qred_correct.
    unfold Qle. simpl. lia.
Qed.

Lemma ratio_between n (x y : Q) (lo hi : Z) :
  (0 < y)%Q -> (inject_Z lo * y <= x)%Q -> (x <= inject_Z hi * y)%Q ->
  finite_between lo hi (ratio n (Float.Fin x) (Float.Fin y)).
Proof.
  intros Hy Hlo Hhi.
  rewrite ratio_nonzero_den by (intros E; rewrite E in Hy; discriminate Hy).
  unfold Float.fin. apply np_round_between; rewrite Qred_correct.
  - now apply Qle_shift_div_l.
  - now apply Qle_shift_div_r.
Qed.

(** Where every record has [0 <= clicks <= impressions] and at least one
    impression, [transform_campaigns] leaves in every row a [ctr] that is
    a finite number between 0 and 1. *)
Theorem ctr_is_a_proportion (h : heap) (df : loc) (d : DataFrame)
    (clicks impressions : list Z) :
  h !! df = Some d ->
  inputs_numeric Campaigns d = true ->
  lookup_col "clicks" (df_data d) = Some (SInt clicks) ->
  lookup_col "impressions" (df_data d) = Some (SInt impressions) ->
  Forall2 (fun c i => 0 <= c <= i /\ 0 < i) clicks impressions ->
  exists h' ctr,
    transform_campaigns df h = (Ok df, h') /\
    column_at h' df "ctr" = Some ctr /\
    length ctr = length clicks /\
    Forall (finite_between 0 1) ctr.
Proof.
  intros Hd Hin Hc Hi Hb.
  destruct (transform_run Campaigns h df d Hd Hin) as (d' & Hrun & _ & Hf).
  destruct (Hf _ (or_introl eq_refl)) as (xs & ys & Hx & Hy & Hl).
  simpl in Hx, Hy, Hl. unfold floats_of in Hx, Hy. rewrite Hc in Hx. rewrite Hi in Hy.
  injection Hx as <-. injection Hy as <-.
  exists (<[df := d']> h), (zip_with (ratio 4) (map Float.of_Z clicks)
                              (map Float.of_Z impressions)).
  split; [exact Hrun|]. split.
  { unfold column_at, floats_of. now rewrite lookup_insert_eq, Hl. }
  clear -Hb. induction Hb as [|c i cl il [Hci Hpos] _ [IH1 IH2]]; [split; constructor|].
  simpl. split; [now rewrite IH1|]. constructor; [|exact IH2].
  apply ratio_between; unfold Qlt, Qle; simpl; lia.
Qed.

Lemma ctr_is_a_proportion_witness :
  exists h' ctr,
    transform_campaigns 0%nat {[ 0%nat := campaign_frame 120 4000 900 300 ]}
    = (Ok 0%nat, h') /\
    column_at h' 0%nat "ctr" = Some ctr /\
    length ctr = 1%nat /\
    Forall (finite_between 0 1) ctr.
Proof.
  apply (ctr_is_a_proportion _ 0%nat (campaign_frame 120 4000 900 300) [120] [4000]);
    [apply lookup_singleton_eq | reflexivity | reflexivity | reflexivity |].
  repeat constructor; lia.
Defined.

(** ** The Schema Manager and the connection *)

Lemma create_table_lookup name cols (d : db) n :
  create_table_if_not_exists name cols d !! n
  = match d !! n with
    | Some t => Some t
    | None => if decide (n = name) then Some (mkTable cols [] 0) else None
    end.
Proof.
  unfold create_table_if_not_exists.
  destruct (d !! name) as [t|] eqn:E.
  - destruct (d !! n) eqn:En; [reflexivity|].
    destruct (decide (n = name)) as [->|]; [congruence | reflexivity].
  - destruct (decide (n = name)) as [->|Hne].
    + now rewrite lookup_insert_eq, E.
    + rewrite lookup_insert_ne by congruence. now destruct (d !! n).
Qed.

Lemma has_name_lookup (st : db) name :
  has_name name (table_names st) = false -> st !! name = None.
Proof.
  intros H. destruct (st !! name) as [t|] eqn:E; [exfalso | reflexivity].
  assert (Hin : In name (table_names st)).
  { unfold table_names. apply in_map_iff. exists (name, t). split; [reflexivity|].
    apply list_elem_of_In. now apply elem_of_map_to_list. }
  assert (Ht : has_name name (table_names st) = true).
  { unfold has_name. apply existsb_exists. exists name.
    split; [exact Hin | apply same_name_refl]. }
  congruence.
Qed.

(** When [setup_database] returns, on a store of tables, it has only
    added what was missing:
    a table of the store is left as it is, whatever its columns and rows
    (so a table of one of the three names with other columns is neither
    migrated nor reported); each of the three tables whose name no table
    of the store has (as SQLite compares names) is created empty with the
    declared columns; and no other name is touched, the names SQLite
    keeps for its own tables apart. *)
Theorem setup_database_only_adds_missing_tables (s s' : state) :
  setup_database s = (Ok tt, s') ->
  (forall n t, st_store s !! n = Some t -> st_store s' !! n = Some t) /\
  (forall n cols, In (n, cols) warehouse_schema ->
     has_name n (table_names (st_store s)) = false ->
     st_store s' !! n = Some (mkTable cols [] 0)) /\
  (forall n, ~ In n warehouse_tables -> reserved_name n = false ->
     st_store s' !! n = st_store s !! n).
Proof.
  intros [= <-]. simpl.
  repeat split.
  - intros n t H. rewrite !create_table_lookup. now rewrite H.
  - intros n cols Hin Hn. apply has_name_lookup in Hn.
    rewrite !create_table_lookup, Hn.
    simpl in Hin. destruct Hin as [[= <- <-]|[[= <- <-]|[[= <- <-]|[]]]]; reflexivity.
  - intros n Hn _. rewrite !create_table_lookup.
    destruct (st_store s !! n); [reflexivity|].
    simpl in Hn.
    repeat (destruct (decide _) as [->|_]; [exfalso; apply Hn; auto|]).
    reflexivity.
Qed.

Lemma setup_database_only_adds_missing_tables_witness :
  (forall n t, st_store (snd (boot migrated_store)) !! n = Some t ->
     st_store (snd (setup_database (snd (boot migrated_store)))) !! n = Some t) /\
  (forall n cols, In (n, cols) warehouse_schema ->
     has_name n (table_names (st_store (snd (boot migrated_store)))) = false ->
     st_store (snd (setup_database (snd (boot migrated_store)))) !! n
     = Some (mkTable cols [] 0)) /\
  (forall n, ~ In n warehouse_tables -> reserved_name n = false ->
     st_store (snd (setup_database (snd (boot migrated_store)))) !! n
     = st_store (snd (boot migrated_store)) !! n).
Proof.
  apply (setup_database_only_adds_missing_tables (snd (boot migrated_store))
           (snd (setup_database (snd (boot migrated_store))))).
  reflexivity.
Defined.

(** Every call of [setup_database] opens a connection of its own and
    makes it [self.conn] without closing the one it replaces: after two
    calls and a [close_connection], the first connection is still open. *)
Theorem setup_database_leaves_old_connection_open (s : state) :
  let s1 := snd (setup_database s) in
  let s2 := snd (setup_database s1) in
  let s3 := snd (close_connection s2) in
  st_conn s1 = Some (st_next s) /\
  st_conn s2 = Some (S (st_next s)) /\
  st_next s ∈ st_open s3 /\
  S (st_next s) ∉ st_open s3.
Proof.
  simpl. split; [reflexivity|]. split; [reflexivity|].
  rewrite !elem_of_difference, !elem_of_union, !elem_of_singleton.
  split; [split; [auto | lia] | tauto].
Qed.

Lemma usable_after_close s c :
  st_conn s = Some c -> usable_conn (snd (close_connection s)) = false.
Proof.
  intros Hc. unfold close_connection, usable_conn. rewrite Hc. simpl.
  apply bool_decide_eq_false. rewrite elem_of_difference, elem_of_singleton. tauto.
Qed.



(** ** The Warehouse Loader: failures, keys, other tables *)

Lemma to_sql_other now d name (st : db) n :
  n <> name -> snd (to_sql now d name st) !! n = st !! n.
Proof.
  intros Hne. unfold to_sql.
  destruct (first_identifier_error _); [reflexivity|].
  destruct (st !! name);
    [destruct (insert_frame now d _)
    | destruct (df_data d);
      [|destruct (create_table_error _ _ _); [|destruct (insert_frame now d _)]]];
    simpl; rewrite ?lookup_insert_ne by congruence; reflexivity.
Qed.

(** A load that raises has added no row anywhere: the connection and
    every table of the store are as before (the rows inserted before the
    failing one are rolled back), and the only table that can be new is
    the empty one pandas creates when the name was not in the store. *)
Theorem failed_load_adds_no_row (now : string) (d : DataFrame) (name : string)
    (s s' : state) (e : exn) :
  load_to_database now d name s = (Raise e, s') ->
  st_open s' = st_open s /\
  st_conn s' = st_conn s /\
  (is_Some (st_store s !! name) -> s' = s) /\
  (forall n t, st_store s !! n = Some t -> st_store s' !! n = Some t) /\
  (forall n t, st_store s' !! n = Some t -> st_store s !! n = None ->
     n = name /\ tbl_rows t = []).
Proof.
  unfold load_to_database.
  destruct (usable_conn s).
  2: { intros [= <- <-]. do 4 (split; [auto|]). intros n t H1 H2. congruence. }
  unfold to_sql.
  destruct (first_identifier_error _).
  { intros [= <- <-]. rewrite with_store_same.
    do 4 (split; [auto|]). intros n t H1 H2. congruence. }
  destruct (st_store s !! name) as [t0|] eqn:Ht.
  - destruct (insert_frame now d t0); [discriminate|].
    intros [= <- <-]. rewrite with_store_same.
    do 4 (split; [auto|]). intros n t H1 H2. congruence.
  - assert (Hs : forall x, with_store s x = s' ->
                 (x = st_store s \/ x = <[name := table_of_frame d]> (st_store s)) ->
                 st_open s' = st_open s /\ st_conn s' = st_conn s /\
                 (is_Some (@None table) -> s' = s) /\
                 (forall n t, st_store s !! n = Some t -> st_store s' !! n = Some t) /\
                 (forall n t, st_store s' !! n = Some t -> st_store s !! n = None ->
                    n = name /\ tbl_rows t = [])).
    { intros x <- Hx. simpl. split; [reflexivity|]. split; [reflexivity|].
      split; [intros [? [=]]|].
      destruct Hx as [->| ->].
      - split; [auto|]. intros n t H1 H2. congruence.
      - split.
        + intros n t H. rewrite lookup_insert_ne; [exact H|]. congruence.
        + intros n t H1 H2. destruct (decide (n = name)) as [->|Hne].
          * rewrite lookup_insert_eq in H1. injection H1 as <-. auto.
          * rewrite lookup_insert_ne in H1 by congruence. congruence. }
    destruct (df_data d) eqn:Hdata.
    + intros [= <- <-]. eapply Hs; [reflexivity | auto].
    + destruct (create_table_error _ _ _).
      * intros [= <- <-]. eapply Hs; [reflexivity | auto].
      * destruct (insert_frame now d (table_of_frame d)); [discriminate|].
        intros [= <- <-]. eapply Hs; [reflexivity | auto].
Qed.

Lemma failed_load_adds_no_row_witness :
  let s := loaded in
  let s' := snd (load_to_database "2024-12-02 00:00:00"
                   (mkDataFrame 2 [("tenant_id", SObject [VText "tenant_a"; VNull])])
                   "fact_campaigns" s) in
  st_open s' = st_open s /\
  st_conn s' = st_conn s /\
  (is_Some (st_store s !! "fact_campaigns") -> s' = s) /\
  (forall n t, st_store s !! n = Some t -> st_store s' !! n = Some t) /\
  (forall n t, st_store s' !! n = Some t -> st_store s !! n = None ->
     n = "fact_campaigns" /\ tbl_rows t = []).
Proof.
  intros s s'.
  apply (failed_load_adds_no_row "2024-12-02 00:00:00"
           (mkDataFrame 2 [("tenant_id", SObject [VText "tenant_a"; VNull])])
           "fact_campaigns" s s'
           (IntegrityError "NOT NULL constraint failed")).
  vm_compute. reflexivity.
Defined.

Lemma insert_rows_raises now cols rows vals t :
  In vals rows ->
  (forall t0, tbl_columns t0 = tbl_columns t ->
     exists e, insert_row now cols vals t0 = Raise e) ->
  exists e, insert_rows now cols rows t = Raise e.
Proof.
  revert t. induction rows as [|r rows IH]; intros t Hin Hr; [destruct Hin|].
  simpl. destruct (insert_row now cols r t) as [t1|e] eqn:E; [|eauto].
  destruct Hin as [->|Hin].
  - destruct (Hr t eq_refl) as [e He]. congruence.
  - apply insert_row_ok in E as (rid & _ & ->).
    apply IH; [exact Hin|]. intros t0 H0. apply Hr. exact H0.
Qed.

Lemma insert_row_null now cols vals t cd :
  In cd (tbl_columns t) -> col_not_null cd = true -> col_rowid cd = false ->
  lookup_cell (col_name cd) cols vals = Some VNull ->
  exists e, insert_row now cols vals t = Raise e.
Proof.
  intros Hin Hn Hr Hl. unfold insert_row.
  destruct (negb (forallb value_in_range vals)); [eauto|].
  destruct (choose_rowid now cols vals t) as [rid|e]; [|eauto].
  assert (Hv : violates_not_null t (build_cells now cols vals rid t) = true).
  { unfold violates_not_null, build_cells. apply existsb_exists.
    eexists. split; [apply In_combine_map; exact Hin|]. simpl.
    rewrite Hn, Hr. unfold offered. now rewrite Hl. }
  rewrite Hv. eauto.
Qed.

Lemma lookup_cell_Some_cols c cols vals v :
  lookup_cell c cols vals = Some v -> cols <> [].
Proof. destruct cols; [discriminate | congruence]. Qed.

(** A record set in which some record has no value ([None] or [NaN])
    in a column the table declares NOT NULL is rejected as a whole: the
    load raises and the store keeps none of its records. *)
Theorem load_rejects_null_in_required_column (now : string) (d : DataFrame)
    (name : string) (s : state) (t : table) (cd : column_def) (i : nat) :
  st_store s !! name = Some t ->
  In cd (tbl_columns t) ->
  col_not_null cd = true ->
  col_rowid cd = false ->
  (i < df_index d)%nat ->
  lookup_cell (col_name cd) (df_columns d) (frame_row d i) = Some VNull ->
  exists e, load_to_database now d name s = (Raise e, s).
Proof.
  intros Ht Hin Hn Hr Hi Hl. unfold load_to_database.
  destruct (usable_conn s); [|eauto].
  assert (E : exists e, insert_frame now d t = Raise e).
  { unfold insert_frame.
    destruct (Nat.eqb_spec (df_index d) 0) as [Hz|Hz]; [lia|].
    pose proof (lookup_cell_Some_cols _ _ _ _ Hl) as Hc.
    destruct (df_columns d) as [|c cols] eqn:Ec; [congruence|]. rewrite <- Ec in *.
    destruct (unknown_column t (df_columns d)); [eauto|].
    apply insert_rows_raises with (frame_row d i).
    - unfold frame_rows. apply in_map. apply in_seq. lia.
    - intros t0 H0. apply insert_row_null with cd; auto. now rewrite H0. }
  destruct (to_sql_raise_existing now d name (st_store s) t Ht E) as [e ->].
  rewrite with_store_same. eauto.
Qed.

Lemma load_rejects_null_in_required_column_witness :
  exists e,
    load_to_database "2024-12-02 00:00:00"
      (mkDataFrame 2 [("tenant_id", SObject [VText "tenant_a"; VNull]);
                      ("campaign_id", SObject [VText "camp_1"; VText "camp_2"])])
      "fact_campaigns" ready
    = (Raise e, ready).
Proof.
  apply (load_rejects_null_in_required_column "2024-12-02 00:00:00"
           (mkDataFrame 2 [("tenant_id", SObject [VText "tenant_a"; VNull]);
                           ("campaign_id", SObject [VText "camp_1"; VText "camp_2"])])
           "fact_campaigns" ready (mkTable fact_campaigns_columns [] 0)
           (required "tenant_id" TEXT) 1%nat);
    [vm_compute; reflexivity | simpl; auto | reflexivity | reflexivity | simpl; lia
    | reflexivity].
Defined.

Lemma max_rowid_ge t z : In z (rowids t) -> z <= max_rowid t.
Proof.
  unfold max_rowid. induction (rowids t) as [|x l IH]; simpl; [tauto|].
  intros [->|H]; [lia|]. apply IH in H. lia.
Qed.

Lemma next_rowid_fresh t rid : next_rowid t = Ok rid -> ~ In rid (rowids t).
Proof.
  unfold next_rowid. destruct (Int64.max_int <=? max_rowid t); [discriminate|].
  intros [= <-] H. apply max_rowid_ge in H. lia.
Qed.

Lemma choose_rowid_fresh now cols vals t rid :
  choose_rowid now cols vals t = Ok rid -> ~ In rid (rowids t).
Proof.
  unfold choose_rowid.
  destruct (find col_rowid (tbl_columns t)) as [cd|]; [|apply next_rowid_fresh].
  destruct (rowid_of (offered now cols vals cd)) as [[z|]|]; [| |discriminate].
  - destruct (existsb (Z.eqb z) (rowids t)) eqn:E; [discriminate|].
    intros [= <-] H.
    assert (existsb (Z.eqb z) (rowids t) = true); [|congruence].
    apply existsb_exists. exists z. split; [exact H | apply Z.eqb_refl].
  - apply next_rowid_fresh.
Qed.

Lemma insert_row_unique now cols vals t t' :
  NoDup (rowids t) -> insert_row now cols vals t = Ok t' -> NoDup (rowids t').
Proof.
  intros Hn E. apply insert_row_ok in E as (rid & Hrid & ->).
  apply choose_rowid_fresh in Hrid.
  unfold rowids in *. simpl. rewrite map_app. simpl.
  apply NoDup_app. split; [exact Hn|]. split.
  - intros x Hx Hx'. apply list_elem_of_In in Hx.
    apply list_elem_of_singleton in Hx'. subst x. contradiction.
  - apply NoDup_singleton.
Qed.

Lemma insert_rows_unique now cols rows t t' :
  NoDup (rowids t) -> insert_rows now cols rows t = Ok t' -> NoDup (rowids t').
Proof.
  revert t. induction rows as [|r rows IH]; intros t Hn; simpl.
  - now intros [= <-].
  - destruct (insert_row now cols r t) as [t1|] eqn:E; [|discriminate].
    apply IH. eapply insert_row_unique; eauto.
Qed.

Lemma insert_frame_unique now d t t' :
  NoDup (rowids t) -> insert_frame now d t = Ok t' -> NoDup (rowids t').
Proof.
  intros Hn. unfold insert_frame.
  destruct (df_index d =? 0)%nat; [now intros [= <-]|].
  destruct (df_columns d); [discriminate|].
  destruct (unknown_column t _); [discriminate|].
  now apply insert_rows_unique.
Qed.

Lemma keys_unique_insert (st : db) name t :
  keys_unique st -> NoDup (rowids t) -> keys_unique (<[name := t]> st).
Proof.
  intros Hk Ht n t0. destruct (decide (n = name)) as [->|Hne].
  - rewrite lookup_insert_eq. now intros [= <-].
  - rewrite lookup_insert_ne by congruence. apply Hk.
Qed.

Lemma to_sql_unique now d name (st : db) :
  keys_unique st -> keys_unique (snd (to_sql now d name st)).
Proof.
  intros Hk. unfold to_sql.
  destruct (first_identifier_error _); [exact Hk|].
  destruct (st !! name) as [t|] eqn:Ht.
  - destruct (insert_frame now d t) as [t'|] eqn:E; simpl; [|exact Hk].
    apply keys_unique_insert; [exact Hk|].
    eapply insert_frame_unique; [|exact E]. eapply Hk; eauto.
  - destruct (df_data d); [exact Hk|].
    destruct (create_table_error _ _ _); [exact Hk|].
    destruct (insert_frame now d (table_of_frame d)) as [t'|] eqn:E; simpl;
      (apply keys_unique_insert; [exact Hk|]).
    + eapply insert_frame_unique; [|exact E]. apply NoDup_nil_2.
    + apply NoDup_nil_2.
Qed.

Lemma load_to_database_unique now d name s :
  keys_unique (st_store s) ->
  keys_unique (st_store (snd (load_to_database now d name s))).
Proof.
  intros Hk. unfold load_to_database.
  destruct (usable_conn s); [|exact Hk].
  pose proof (to_sql_unique now d name (st_store s) Hk) as H.
  destruct (to_sql now d name (st_store s)). exact H.
Qed.

Lemma setup_database_unique s :
  keys_unique (st_store s) -> keys_unique (st_store (snd (setup_database s))).
Proof.
  intros Hk n t. simpl. rewrite !create_table_lookup.
  destruct (st_store s !! n) as [t0|] eqn:E.
  - intros [= <-]. eapply Hk; eauto.
  - repeat (destruct (decide _); [intros [= <-]; apply NoDup_nil_2|]).
    discriminate.
Qed.

(** Rowids stay unique: whatever a load is given (record sets with an
    [id] column of their own included) and whether it returns or raises,
    no table of the store ends up with two rows of the same rowid if none
    had before. *)
Theorem load_keeps_rowids_unique (now : string) (d : DataFrame) (name : string)
    (s : state) :
  keys_unique (st_store s) ->
  keys_unique (st_store (snd (load_to_database now d name s))).
Proof. apply load_to_database_unique. Qed.

Lemma load_keeps_rowids_unique_witness :
  keys_unique
    (st_store (snd (load_to_database "2024-12-02 00:00:00"
                      (mkDataFrame 2 [("id", SInt [7; 7]);
                                      ("tenant_id", SObject [VText "a"; VText "b"]);
                                      ("campaign_id", SObject [VText "c1"; VText "c2"])])
                      "fact_campaigns" ready))).
Proof.
  apply (load_keeps_rowids_unique "2024-12-02 00:00:00"
           (mkDataFrame 2 [("id", SInt [7; 7]);
                           ("tenant_id", SObject [VText "a"; VText "b"]);
                           ("campaign_id", SObject [VText "c1"; VText "c2"])])
           "fact_campaigns" ready).
  apply (setup_database_unique (snd (boot ∅))).
  intros n t H. simpl in H. rewrite lookup_empty in H. discriminate.
Defined.



Lemma find_rowid_none cols :
  Forall unconstrained cols -> find col_rowid cols = None.
Proof.
  induction 1 as [|cd cols (_ & Hr & _) _ IH]; simpl; [reflexivity|].
  now rewrite Hr.
Qed.

Lemma not_null_unconstrained cols cs :
  Forall unconstrained cols ->
  existsb (fun p : column_def * value => col_not_null (fst p) && is_null (snd p))
          (combine cols cs) = false.
Proof.
  intros H. revert cs. induction H as [|cd cols (Hn & _ & _) _ IH]; intros cs; simpl;
    [reflexivity|].
  destruct cs as [|v cs]; [reflexivity|]. simpl. now rewrite Hn, IH.
Qed.

Lemma insert_rows_unconstrained now cols rows t :
  Forall unconstrained (tbl_columns t) ->
  forallb (forallb value_in_range) rows = true ->
  max_rowid t + Z.of_nat (length rows) <= Int64.max_int ->
  exists t', insert_rows now cols rows t = Ok t'.
Proof.
  revert t. induction rows as [|r rows IH]; intros t Hu Hv Hm; simpl; [eauto|].
  simpl in Hv. apply andb_prop in Hv as [Hr Hv].
  unfold insert_row at 1. rewrite Hr. simpl.
  unfold choose_rowid. rewrite (find_rowid_none _ Hu).
  unfold next_rowid.
  destruct (Z.leb_spec Int64.max_int (max_rowid t)) as [L|L];
    [simpl length in Hm; lia|].
  unfold violates_not_null. rewrite (not_null_unconstrained _ _ Hu).
  apply IH; [exact Hu | exact Hv |].
  rewrite max_rowid_insert. simpl length in Hm. lia.
Qed.

Lemma unknown_column_own d :
  unknown_column (table_of_frame d) (df_columns d) = None.
Proof.
  unfold unknown_column.
  destruct (find _ (df_columns d)) as [c|] eqn:E; [|reflexivity].
  apply find_some in E as [Hc Hm]. apply negb_true_iff in Hm.
  assert (mem c (column_names (table_of_frame d)) = true); [|congruence].
  apply mem_In. unfold column_names, table_of_frame, df_columns in *. simpl.
  rewrite map_map. simpl. exact Hc.
Qed.

Lemma table_of_frame_unconstrained d :
  Forall unconstrained (tbl_columns (table_of_frame d)).
Proof.
  unfold table_of_frame. simpl. apply List.Forall_forall. intros cd Hcd.
  apply in_map_iff in Hcd as (cs & <- & _). repeat split.
Qed.

(** The load does not need the table to exist.  With a usable
    connection, a table name that pandas accepts, that SQLite does not
    reserve and that no table of the store has (as SQLite compares
    names), a record set with at least one and at most 999 columns,
    whose labels pandas accepts and no two of which are the same name,
    and with integers that fit [int64], is loaded into a table made for
    it: with exactly the columns of the record set, none of them
    constrained (no identifier, no timestamp, no NOT NULL), and one row
    per record. *)
Theorem load_creates_missing_table (now : string) (d : DataFrame) (name : string)
    (s : state) :
  usable_conn s = true ->
  forallb valid_identifier (df_columns d ++ [name]) = true ->
  reserved_name name = false ->
  has_name name (table_names (st_store s)) = false ->
  df_data d <> [] ->
  (length (df_columns d) <= max_parameters)%nat ->
  distinct_names (df_columns d) = true ->
  ints_in_range d = true ->
  Z.of_nat (df_index d) <= Int64.max_int ->
  exists t',
    load_to_database now d name s
    = (Ok tt, with_store s (<[name := t']> (st_store s))) /\
    st_store s !! name = None /\
    column_names t' = df_columns d /\
    Forall unconstrained (tbl_columns t') /\
    length (tbl_rows t') = df_index d.
Proof.
  intros Hu Hv Hres Hname Hd Hlen Hdis Hr Hm.
  pose proof (has_name_lookup _ _ Hname) as Hn.
  assert (E : exists t', insert_frame now d (table_of_frame d) = Ok t').
  { unfold insert_frame. destruct (df_index d =? 0)%nat; [eauto|].
    destruct (df_columns d) as [|c cols] eqn:Ec.
    { unfold df_columns in Ec. destruct (df_data d); [congruence | discriminate]. }
    rewrite <- Ec. rewrite unknown_column_own.
    apply insert_rows_unconstrained.
    - apply table_of_frame_unconstrained.
    - exact Hr.
    - rewrite frame_rows_length. unfold max_rowid. simpl. lia. }
  destruct E as [t' E]. exists t'. split; [|split; [exact Hn|]].
  - unfold load_to_database. rewrite Hu. unfold to_sql.
    rewrite (first_identifier_error_valid _ Hv), Hn.
    assert (Hmax : (max_columns <? length (df_columns d))%nat = false).
    { apply Nat.ltb_ge. etransitivity; [exact Hlen|].
      apply Nat.leb_le. vm_compute. reflexivity. }
    assert (Hc : create_table_error name (df_columns d) (st_store s) = None).
    { unfold create_table_error. now rewrite Hres, Hname, Hdis, Hmax. }
    rewrite Hc. destruct (df_data d) eqn:Ed; [congruence|]. cbv zeta. now rewrite E.
  - apply insert_frame_ok in E as (new & Hc & Hrows & Hl & _).
    unfold column_names. rewrite Hc. split; [|split].
    + unfold table_of_frame, df_columns. simpl. now rewrite map_map.
    + apply table_of_frame_unconstrained.
    + rewrite Hrows. simpl. exact Hl.
Qed.

Lemma load_creates_missing_table_witness :
  exists t',
    load_to_database "2024-12-02 00:00:00" eighth_fact "fact_campaign" ready
    = (Ok tt, with_store ready (<["fact_campaign" := t']> (st_store ready))) /\
    st_store ready !! "fact_campaign" = None /\
    column_names t' = df_columns eighth_fact /\
    Forall unconstrained (tbl_columns t') /\
    length (tbl_rows t') = df_index eighth_fact.
Proof.
  apply (load_creates_missing_table "2024-12-02 00:00:00" eighth_fact "fact_campaign" ready);
    [ vm_compute; reflexivity | vm_compute; reflexivity | vm_compute; reflexivity
    | vm_compute; reflexivity | discriminate | apply Nat.leb_le; vm_compute; reflexivity
    | vm_compute; reflexivity | vm_compute; reflexivity | vm_compute; discriminate ].
Defined.

(** ** The Report Engine: the counts of [campaign_summary] *)

Lemma insert_sorted_length {A} (key : A -> list value) x l :
  length (Sql.insert_sorted key x l) = S (length l).
Proof.
  induction l as [|y l IH]; simpl; [reflexivity|].
  destruct (Sql.key_leb (key x) (key y)); simpl; [reflexivity | now rewrite IH].
Qed.

Lemma sort_by_length {A} (key : A -> list value) l :
  length (Sql.sort_by key l) = length l.
Proof.
  induction l as [|x l IH]; simpl; [reflexivity|].
  unfold Sql.sort_by in *. simpl. now rewrite insert_sorted_length, IH.
Qed.

Lemma campaign_select_count a b c d e f g h grp o :
  campaign_summary_select a b c d e f g h grp = Ok o ->
  field 1 o = VInt (Z.of_nat (length grp)).
Proof.
  unfold campaign_summary_select.
  unfold mbind, result_bind.
  repeat (match goal with
          | |- match Sql.agg_sum ?l with _ => _ end = _ -> _ =>
              destruct (Sql.agg_sum l); [|discriminate]
          end).
  now intros [= <-].
Qed.

Lemma counts_of_groups (sel : list row -> result (list value)) G out :
  (forall grp o, sel grp = Ok o -> field 1 o = VInt (Z.of_nat (length grp))) ->
  List.Forall2 (fun grp o => sel grp = Ok o) G out ->
  map (fun o => nth 1 o VNull) out = map (fun grp => VInt (Z.of_nat (length grp))) G.
Proof.
  intros Hsel H. induction H as [|grp o G out Ho _ IH]; simpl; [reflexivity|].
  f_equal; [exact (Hsel _ _ Ho) | exact IH].
Qed.

Lemma sum_of_lengths {A} (G : list (list A)) :
  fold_right Z.add 0 (map (fun grp => Z.of_nat (length grp)) G)
  = Z.of_nat (length (concat G)).
Proof.
  induction G as [|grp G IH]; simpl; [reflexivity|].
  rewrite length_app, IH. lia.
Qed.

(** The [total_campaigns] column of the campaign summary is an integer
    column, and its values add up to the number of rows of the fact
    table: every campaign record is counted for exactly one tenant. *)
Theorem campaign_counts_add_up (s s' : state) (f : DataFrame) :
  execute_dashboard_query "campaign_summary" s = (Ok f, s') ->
  exists counts,
    lookup_col "total_campaigns" (df_data f) = Some (SInt counts) /\
    fold_right Z.add 0 counts = Z.of_nat (length (tbl_rows (fact_table s))).
Proof.
  change (execute_dashboard_query "campaign_summary")
    with (read_sql_query campaign_summary_header campaign_summary).
  unfold read_sql_query, fact_table.
  destruct (usable_conn s); [|discriminate].
  destruct (st_store s !! "fact_campaigns") as [t|]; [|discriminate].
  destruct (campaign_summary t) as [out|] eqn:E; [|discriminate].
  intros [= <- <-]. simpl.
  unfold campaign_summary in E.
  unfold mbind, result_bind in E.
  repeat (match type of E with
          | match column_of ?c t with _ => _ end = _ =>
              destruct (column_of c t); [|discriminate]
          end).
  apply map_result_ok in E.
  pose proof (counts_of_groups _ _ _ (campaign_select_count _ _ _ _ _ _ _ _) E) as Hc.
  rewrite Hc. unfold series_of_cells.
  assert (Hi : forall G : list (list row),
             forallb Sql.is_int (map (fun grp => VInt (Z.of_nat (length grp))) G) = true).
  { intros G. induction G; simpl; auto. }
  rewrite Hi. eexists. split; [reflexivity|].
  rewrite map_map. simpl.
  rewrite sum_of_lengths. unfold Sql.group_by.
  now rewrite runs_concat, sort_by_length.
Qed.

Lemma campaign_counts_add_up_witness :
  exists counts,
    lookup_col "total_campaigns"
      (df_data (frame_of_rows campaign_summary_header
                  [ [VText "tenant_a"; VInt 1; VInt 2000; VInt 30; VInt 2;
                     VReal (Float.Fin 200); VReal (Float.Fin 100);
                     VReal (Float.Fin (3 # 200)); VReal (Float.Fin (- (1 # 2)))];
                    [VText "tenant_b"; VInt 2; VInt 5000; VInt 110; VInt 4;
                     VReal (Float.Fin 150); VReal (Float.Fin 225);
                     VReal (Float.Fin (513 # 10000)); VReal (Float.Fin (1 # 2))] ]))
    = Some (SInt counts) /\
    fold_right Z.add 0 counts = Z.of_nat (length (tbl_rows (fact_table loaded))).
Proof.
  apply (campaign_counts_add_up loaded loaded).
  vm_compute. reflexivity.
Defined.

(** ** The run as a whole *)

Lemma preserves_on_heap {A} P (m : M heap A) : preserves P (on_heap m).
Proof.
  intros [h s] r hs' E H. unfold on_heap in E. simpl in E.
  destruct (m h). inversion E; subst. exact H.
Qed.

Lemma preserves_lift {A} P (x : result A) : preserves P (lift x).
Proof. intros hs r hs' E H. inversion E; subst. exact H. Qed.

Lemma preserves_on_state {A} (P : state -> Prop) (m : M state A) :
  (forall s, P s -> P (snd (m s))) -> preserves P (on_state m).
Proof.
  intros Hm [h s] r hs' E H. unfold on_state in E. simpl in E.
  specialize (Hm s H). destruct (m s). inversion E; subst. exact Hm.
Qed.

Lemma preserves_bind {A B} P (m : M (heap * state) A) (k : A -> M (heap * state) B) :
  preserves P m -> (forall a, preserves P (k a)) -> preserves P (bind m k).
Proof.
  intros Hm Hk hs r hs' E H. unfold bind in E.
  destruct (m hs) as [[a|e] hs1] eqn:E1.
  - eapply Hk; [exact E|]. eapply Hm; eauto.
  - inversion E; subst. eapply Hm; eauto.
Qed.

(** What holds of the state before a run and is kept by the set-up, by
    every load and by closing the connection, holds after the run. *)
Lemma main_preserves (P : state -> Prop) (w : sources) :
  (forall s, P s -> P (snd (setup_database s))) ->
  (forall now d name s, P s -> P (snd (load_to_database now d name s))) ->
  (forall s, P s -> P (snd (close_connection s))) ->
  preserves P (main w).
Proof.
  intros Hsetup Hload Hclose.
  assert (Hl : forall now df name, preserves P (load now df name)).
  { intros now df name. unfold load. apply preserves_bind.
    - apply preserves_on_heap.
    - intros d. apply preserves_on_state. intros s. apply Hload. }
  assert (Hq : forall q, preserves P (on_state (execute_dashboard_query q))).
  { intros q. apply preserves_on_state. intros s H.
    unfold execute_dashboard_query.
    repeat (destruct (String.eqb q _); [now rewrite read_sql_query_state|]).
    exact H. }
  unfold main.
  repeat (apply preserves_bind;
          [ first [ apply preserves_on_heap | apply preserves_lift | apply Hl | apply Hq
                  | apply preserves_on_state; assumption ]
          | intros ? ]).
  apply preserves_on_state. assumption.
Qed.

Lemma extends_refl (d : db) : extends d d.
Proof. intros n t H. exists t, []. rewrite app_nil_r. auto. Qed.

Lemma extends_trans (d1 d2 d3 : db) : extends d1 d2 -> extends d2 d3 -> extends d1 d3.
Proof.
  intros H12 H23 n t H.
  destruct (H12 n t H) as (t2 & new2 & H2 & Hc2 & Hr2).
  destruct (H23 n t2 H2) as (t3 & new3 & H3 & Hc3 & Hr3).
  exists t3, (new2 ++ new3)%list. split; [exact H3|]. split; [congruence|].
  now rewrite Hr3, Hr2, <- app_assoc.
Qed.

Lemma setup_database_extends s : extends (st_store s) (st_store (snd (setup_database s))).
Proof.
  intros n t H. exists t, []. rewrite app_nil_r. split; [|auto].
  simpl. rewrite !create_table_lookup. now rewrite H.
Qed.

Lemma to_sql_extends now d name (st : db) : extends st (snd (to_sql now d name st)).
Proof.
  unfold to_sql. destruct (first_identifier_error _); [apply extends_refl|].
  destruct (st !! name) as [t|] eqn:Ht.
  - destruct (insert_frame now d t) as [t'|] eqn:E; simpl; [|apply extends_refl].
    apply insert_frame_ok in E as (new & Hc & Hr & _).
    intros n t0 H0. destruct (decide (n = name)) as [->|Hne].
    + rewrite Ht in H0. injection H0 as <-.
      exists t', new. now rewrite lookup_insert_eq.
    + exists t0, []. rewrite lookup_insert_ne by congruence.
      rewrite app_nil_r. auto.
  - assert (Hi : forall t', extends st (<[name := t']> st)).
    { intros t' n t0 H0. exists t0, []. rewrite app_nil_r.
      rewrite lookup_insert_ne by congruence. auto. }
    destruct (df_data d); [apply extends_refl|].
    destruct (create_table_error _ _ _); [apply extends_refl|].
    destruct (insert_frame now d (table_of_frame d)); simpl; apply Hi.
Qed.

Lemma load_to_database_extends now d name s :
  extends (st_store s) (st_store (snd (load_to_database now d name s))).
Proof.
  unfold load_to_database. destruct (usable_conn s); [|apply extends_refl].
  pose proof (to_sql_extends now d name (st_store s)) as H.
  destruct (to_sql now d name (st_store s)). exact H.
Qed.

Lemma close_connection_store s : st_store (snd (close_connection s)) = st_store s.
Proof. unfold close_connection. now destruct (st_conn s). Qed.

(** A run only ever appends: whatever the sources deliver and wherever
    the run stops, every table the store held before is still there with
    its columns, and its rows are the first rows of the table, unchanged
    and in their order. *)
Theorem run_is_append_only (w : sources) (d : db) :
  extends d (store_after w d).
Proof.
  unfold store_after.
  destruct (main w (boot d)) as [r hs'] eqn:E.
  refine (main_preserves (fun s => extends d (st_store s)) w _ _ _ _ _ _ E _).
  - intros s H. eapply extends_trans; [exact H | apply setup_database_extends].
  - intros now df name s H.
    eapply extends_trans; [exact H | apply load_to_database_extends].
  - intros s H. now rewrite close_connection_store.
  - apply extends_refl.
Qed.

(** A run keeps the rowids unique: if no table of the store has two rows
    with the same rowid before the run, none has afterwards, whatever
    the sources deliver and wherever the run stops. *)
Theorem run_keeps_rowids_unique (w : sources) (d : db) :
  keys_unique d -> keys_unique (store_after w d).
Proof.
  intros Hk. unfold store_after.
  destruct (main w (boot d)) as [r hs'] eqn:E.
  refine (main_preserves (fun s => keys_unique (st_store s)) w _ _ _ _ _ _ E Hk).
  - apply setup_database_unique.
  - intros now df name s. apply load_to_database_unique.
  - intros s H. now rewrite close_connection_store.
Qed.

Lemma run_keeps_rowids_unique_witness :
  keys_unique (store_after sample_sources migrated_store).
Proof.
  apply (run_keeps_rowids_unique sample_sources migrated_store).
  intros n t. unfold migrated_store.
  destruct (decide (n = "dim_sales_targets")) as [->|H1];
    [rewrite lookup_insert_eq; intros [= <-]; apply NoDup_nil_2|].
  rewrite lookup_insert_ne by congruence.
  destruct (decide (n = "dim_customers")) as [->|H2];
    [rewrite lookup_insert_eq; intros [= <-]; apply NoDup_nil_2|].
  rewrite lookup_insert_ne by congruence. rewrite lookup_empty. discriminate.
Defined.

Lemma bind_inv {S A B} (m : M S A) (k : A -> M S B) s b s' :
  bind m k s = (Ok b, s') -> exists a s1, m s = (Ok a, s1) /\ k a s1 = (Ok b, s').
Proof.
  unfold bind. destruct (m s) as [[a|e] s1]; [eauto | discriminate].
Qed.

Lemma on_heap_inv {A} (m : M heap A) hs r hs' :
  on_heap m hs = (r, hs') -> m (fst hs) = (r, fst hs') /\ snd hs' = snd hs.
Proof.
  unfold on_heap. destruct (m (fst hs)). now intros [= <- <-].
Qed.

Lemma on_state_inv {A} (m : M state A) hs r hs' :
  on_state m hs = (r, hs') -> m (snd hs) = (r, snd hs') /\ fst hs' = fst hs.
Proof.
  unfold on_state. destruct (m (snd hs)). now intros [= <- <-].
Qed.

Lemma lift_inv {S A} (x : result A) (s s' : S) r :
  lift x s = (r, s') -> x = r /\ s' = s.
Proof. now intros [= <- <-]. Qed.

Lemma alloc_inv d (h h' : heap) r :
  alloc d h = (r, h') ->
  exists l, r = Ok l /\ h !! l = None /\ h' = <[l := d]> h.
Proof.
  unfold alloc. intros [= <- <-]. eexists. split; [reflexivity|]. split; [|reflexivity].
  apply not_elem_of_dom. apply is_fresh.
Qed.

(** What a returning single-ratio transform has done to its frame. *)
Lemma single_ratio_inv df out cnum cden n (h h' : heap) a :
  (x <- getitem df cnum ;;
   y <- getitem df cden ;;
   q <- lift (truediv x y) ;;
   setitem df out (series_round n (SFloat q)) ;;;
   r <- getitem df out ;;
   setitem df out (series_fillna0 r) ;;;
   ret df) h = (Ok a, h') ->
  a = df /\
  exists d d', h !! df = Some d /\ h' !! df = Some d' /\
    df_index d' = df_index d /\ mem out (df_columns d') = true.
Proof.
  intros E.
  apply bind_inv in E as (x & h1 & E1 & E).
  apply bind_inv in E as (y & h2 & E2 & E).
  apply bind_inv in E as (q & h3 & E3 & E).
  apply bind_inv in E as ([] & h4 & E4 & E).
  apply bind_inv in E as (z & h5 & E5 & E).
  apply bind_inv in E as ([] & h6 & E6 & E).
  injection E as <- <-. split; [reflexivity|].
  unfold getitem in E1. destruct (h !! df) as [d|] eqn:Hd; [|discriminate].
  destruct (lookup_col _ (df_data d)); [|discriminate]. injection E1 as <- <-.
  unfold getitem in E2. rewrite Hd in E2.
  destruct (lookup_col _ (df_data d)); [|discriminate]. injection E2 as <- <-.
  apply lift_inv in E3 as [_ ->].
  unfold setitem in E4. rewrite Hd in E4. injection E4 as <-.
  unfold getitem in E5. rewrite lookup_insert_eq in E5.
  destruct (lookup_col _ _); [|discriminate]. injection E5 as <- <-.
  unfold setitem in E6. rewrite lookup_insert_eq in E6. injection E6 as <-.
  exists d. eexists. split; [reflexivity|]. split; [apply lookup_insert_eq|].
  split; [reflexivity|].
  apply mem_In. unfold df_columns. simpl. apply set_col_In.
Qed.

Lemma load_to_database_mismatch now d name s tb r s' :
  st_store s !! name = Some tb ->
  df_index d <> 0%nat -> schema_mismatch tb d = true ->
  load_to_database now d name s = (r, s') -> is_ok r = false.
Proof.
  intros Ht Hn Hm. unfold load_to_database.
  destruct (usable_conn s); [|now intros [= <- _]].
  destruct (to_sql_raise_existing now d name (st_store s) tb Ht
              (insert_frame_mismatch now d tb Hn Hm)) as [e ->].
  now intros [= <- _].
Qed.

Lemma load_inv now df name hs hs' :
  load now df name hs = (Ok tt, hs') ->
  exists d, fst hs !! df = Some d /\ fst hs' = fst hs /\
    load_to_database now d name (snd hs) = (Ok tt, snd hs').
Proof.
  unfold load. intros E. apply bind_inv in E as (d & hs1 & E1 & E).
  apply on_heap_inv in E1 as [E1 Hs1]. apply on_state_inv in E as [E Hh].
  unfold deref in E1. destruct (fst hs !! df) as [d0|] eqn:Hd; [|discriminate].
  injection E1 as <- E1. exists d0. rewrite Hh, <- E1, <- Hs1. auto.
Qed.

(** The two dimension loads of a run that returns: the frames they were
    given carry the derived column, and the tables they went into are
    those the store had right after [setup_database]. *)
Lemma main_ok_inv (w : sources) (d : db) hs' :
  main w (boot d) = (Ok tt, hs') ->
  let s0 := snd (setup_database (snd (boot d))) in
  exists t t' c' st st1 sc sc1,
    excel_data w = Ok t /\
    df_index t' = df_index t /\ mem "target_roi" (df_columns t') = true /\
    load_to_database (clock w 1%nat) t' "dim_sales_targets" st = (Ok tt, st1) /\
    st_store st !! "dim_sales_targets" = st_store s0 !! "dim_sales_targets" /\
    df_index c' = df_index (api_data w) /\
    mem "avg_order_value" (df_columns c') = true /\
    load_to_database (clock w 2%nat) c' "dim_customers" sc = (Ok tt, sc1) /\
    st_store sc !! "dim_customers" = st_store s0 !! "dim_customers".
Proof.
  intros E s0. unfold main in E.
  apply bind_inv in E as ([] & hs1 & E1 & E).
  apply on_state_inv in E1 as [E1 Hh1].
  assert (Hs1 : snd hs1 = s0) by (injection E1 as <-; reflexivity).
  clear E1.
  apply bind_inv in E as ([] & hs2 & E2 & E). apply lift_inv in E2 as [_ ->].
  apply bind_inv in E as ([] & hs3 & E3 & E). apply lift_inv in E3 as [_ ->].
  apply bind_inv in E as (campaigns & hs4 & E4 & E). apply lift_inv in E4 as [_ ->].
  apply bind_inv in E as (lc & hs5 & E5 & E).
  apply on_heap_inv in E5 as [E5 Hs5].
  apply alloc_inv in E5 as (lc' & [= <-] & _ & Hh5).
  apply bind_inv in E as (t & hs6 & E6 & E). apply lift_inv in E6 as [E6 ->].
  apply bind_inv in E as (lt & hs7 & E7 & E).
  apply on_heap_inv in E7 as [E7 Hs7].
  apply alloc_inv in E7 as (lt' & [= <-] & Hfresh & Hh7).
  assert (Hlc : lc <> lt).
  { intros ->. rewrite Hh5, lookup_insert_eq in Hfresh. discriminate. }
  assert (Ht7 : fst hs7 !! lt = Some t) by (rewrite Hh7; apply lookup_insert_eq).
  assert (Hc7 : is_Some (fst hs7 !! lc)).
  { rewrite Hh7, lookup_insert_ne by congruence. rewrite Hh5, lookup_insert_eq. eauto. }
  apply bind_inv in E as (lcu & hs8 & E8 & E).
  apply on_heap_inv in E8 as [E8 Hs8].
  apply alloc_inv in E8 as (lcu' & [= <-] & Hfresh8 & Hh8).
  assert (Hlcu : lcu <> lt) by (intros ->; congruence).
  assert (Hlcu' : lcu <> lc).
  { intros ->. rewrite Hfresh8 in Hc7. now destruct Hc7. }
  assert (Ht8 : fst hs8 !! lt = Some t).
  { rewrite Hh8, lookup_insert_ne by exact Hlcu. exact Ht7. }
  assert (Hc8 : fst hs8 !! lcu = Some (api_data w)).
  { rewrite Hh8. apply lookup_insert_eq. }
  apply bind_inv in E as (a9 & hs9 & E9 & E).
  apply on_heap_inv in E9 as [E9 Hs9].
  destruct (transforms_keep_originals Campaigns lc _ _ _ E9 lt t Ht8)
    as (t9 & Ht9 & _ & _ & Hsame9).
  rewrite (Hsame9 ltac:(congruence)) in Ht9.
  destruct (transforms_keep_originals Campaigns lc _ _ _ E9 lcu _ Hc8)
    as (c9 & Hc9 & _ & _ & Hsamec9).
  rewrite (Hsamec9 ltac:(congruence)) in Hc9.
  apply bind_inv in E as (a10 & hs10 & E10 & E).
  apply on_heap_inv in E10 as [E10 Hs10].
  destruct (transforms_keep_originals Targets lt _ _ _ E10 lcu _ Hc9)
    as (c10 & Hc10 & _ & _ & Hsamec10).
  rewrite (Hsamec10 ltac:(congruence)) in Hc10.
  apply single_ratio_inv in E10 as (-> & t0 & t10 & Ht0 & Ht10 & Hi10 & Hm10).
  rewrite Ht9 in Ht0. injection Ht0 as <-.
  apply bind_inv in E as (a11 & hs11 & E11 & E).
  apply on_heap_inv in E11 as [E11 Hs11].
  destruct (transforms_keep_originals Customers lcu _ _ _ E11 lt t10 Ht10)
    as (t11 & Ht11 & _ & _ & Hsame11).
  rewrite (Hsame11 ltac:(congruence)) in Ht11.
  apply single_ratio_inv in E11 as (-> & c0 & c11 & Hc0 & Hc11 & Hi11 & Hm11).
  rewrite Hc10 in Hc0. injection Hc0 as <-.
  apply bind_inv in E as ([] & hs12 & E12 & E).
  apply load_inv in E12 as (dc & _ & Hh12 & E12).
  assert (Hs12 : forall n, n <> "fact_campaigns" ->
                 st_store (snd hs12) !! n = st_store (snd hs11) !! n).
  { intros n Hn.
    pose proof (to_sql_other (clock w 0%nat) dc "fact_campaigns" (st_store (snd hs11))
                  n Hn) as H.
    unfold load_to_database in E12. destruct (usable_conn (snd hs11)); [|discriminate].
    destruct (to_sql _ dc _ _). injection E12 as _ <-. exact H. }
  apply bind_inv in E as ([] & hs13 & E13 & E).
  apply load_inv in E13 as (dt & Hdt & Hh13 & E13).
  rewrite Hh12, Ht11 in Hdt. injection Hdt as <-.
  assert (Hs13 : st_store (snd hs13) !! "dim_customers"
                 = st_store (snd hs12) !! "dim_customers").
  { pose proof (to_sql_other (clock w 1%nat) t10 "dim_sales_targets"
                  (st_store (snd hs12)) "dim_customers" ltac:(discriminate)) as H.
    unfold load_to_database in E13. destruct (usable_conn (snd hs12)); [|discriminate].
    destruct (to_sql _ t10 _ _). injection E13 as _ <-. exact H. }
  apply bind_inv in E as ([] & hs14 & E14 & _).
  apply load_inv in E14 as (dcu & Hdcu & _ & E14).
  rewrite Hh13, Hh12, Hc11 in Hdcu. injection Hdcu as <-.
  assert (Hs11' : snd hs11 = s0) by congruence.
  exists t, t10, c11, (snd hs12), (snd hs13), (snd hs13), (snd hs14).
  split; [exact E6|]. split; [exact Hi10|]. split; [exact Hm10|].
  split; [exact E13|].
  split; [rewrite Hs12 by discriminate; now rewrite Hs11'|].
  split; [exact Hi11|]. split; [exact Hm11|]. split; [exact E14|].
  rewrite Hs13, Hs12 by discriminate. now rewrite Hs11'.
Qed.

Lemma setup_lookup_lacks d name cols c :
  In (name, cols) warehouse_schema ->
  has_name c (map col_name cols) = false ->
  (forall tb, d !! name = Some tb -> has_name c (column_names tb) = false) ->
  exists tb, st_store (snd (setup_database (snd (boot d)))) !! name = Some tb /\
    has_name c (column_names tb) = false.
Proof.
  intros Hin Hc Hd. simpl. rewrite !create_table_lookup.
  destruct (d !! name) as [tb|] eqn:E; [eauto|].
  simpl in Hin. destruct Hin as [[= <- <-]|[[= <- <-]|[[= <- <-]|[]]]]; simpl; eauto.
Qed.

Lemma has_unknown_column tb fr c :
  mem c (df_columns fr) = true ->
  has_name c (column_names tb) = false -> has_name c rowid_aliases = false ->
  schema_mismatch tb fr = true.
Proof.
  intros H1 H2 H3. unfold schema_mismatch. apply orb_true_intro. left.
  apply existsb_exists. exists c. split; [now apply mem_In | now rewrite H2, H3].
Qed.

(** On a store whose [dim_sales_targets] table has no [target_roi]
    column (a new store, or one that [setup_database] created on an
    earlier run), a run that is given any sales target does not complete:
    it raises.  So does, with [dim_customers] and [avg_order_value], a
    run that is given any customer.  The table has no such column when
    none of its columns has that name as SQLite compares names, that is
    whatever the case of the letters. *)
Theorem run_fails_on_the_schema_it_creates (w : sources) (d : db) :
  (exists t, excel_data w = Ok t /\ df_index t <> 0%nat /\
     forall tb, d !! "dim_sales_targets" = Some tb ->
       has_name "target_roi" (column_names tb) = false) \/
  (df_index (api_data w) <> 0%nat /\
   forall tb, d !! "dim_customers" = Some tb ->
     has_name "avg_order_value" (column_names tb) = false) ->
  exists e, fst (main w (boot d)) = Raise e.
Proof.
  intros H.
  destruct (main w (boot d)) as [[[]|e] hs'] eqn:E; [exfalso | simpl; eauto].
  apply main_ok_inv in E
    as (t & t' & c' & st & st1 & sc & sc1 & Hex & Hit & Hmt & Elt & Hst & Hic & Hmc
        & Elc & Hsc).
  assert (Hok : is_ok (Ok tt) = false); [|discriminate Hok].
  destruct H as [(t0 & Hex0 & Hn & Hcol)|[Hn Hcol]].
  - rewrite Hex in Hex0. injection Hex0 as <-.
    destruct (setup_lookup_lacks d "dim_sales_targets" dim_sales_targets_columns
                "target_roi" ltac:(simpl; auto) eq_refl Hcol) as (tb & Htb & Hmem).
    eapply (load_to_database_mismatch _ t' "dim_sales_targets" st tb);
      [ now rewrite Hst | congruence
      | now apply has_unknown_column with "target_roi"
      | exact Elt ].
  - destruct (setup_lookup_lacks d "dim_customers" dim_customers_columns
                "avg_order_value" ltac:(simpl; auto) eq_refl Hcol) as (tb & Htb & Hmem).
    eapply (load_to_database_mismatch _ c' "dim_customers" sc tb);
      [ now rewrite Hsc | congruence
      | now apply has_unknown_column with "avg_order_value"
      | exact Elc ].
Qed.

Lemma run_fails_on_the_schema_it_creates_witness :
  exists e, fst (main sample_sources (boot ∅)) = Raise e.
Proof.
  apply (run_fails_on_the_schema_it_creates sample_sources ∅).
  left. eexists. split; [reflexivity|]. split; [discriminate|].
  intros tb H. rewrite lookup_empty in H. discriminate.
Defined.

(** ** The customer source *)

Lemma for_each_inv {A B} (f : A -> Gen B) l : forall p bs p',
  for_each f l p = (Some bs, p') ->
  List.Forall2 (fun a b => exists p1 p2, f a p1 = (Some b, p2)) l bs.
Proof.
  induction l as [|a l IH]; intros p bs p'; simpl.
  - intros [= <- _]. constructor.
  - unfold gbind at 1. destruct (f a p) as [[b|] p1] eqn:E1; [|discriminate].
    unfold gbind at 1. destruct (for_each f l p1) as [[bs'|] p2] eqn:E2; [|discriminate].
    intros [= <- _]. constructor; [eauto | eapply IH; eauto].
Qed.

Lemma for_each_total {A B} (f : A -> Gen B) l :
  (forall a p, In a l -> exists b p', f a p = (Some b, p')) ->
  forall p, exists bs p', for_each f l p = (Some bs, p').
Proof.
  induction l as [|a l IH]; intros Hf p; simpl; [unfold gret; eauto|].
  destruct (Hf a p (or_introl eq_refl)) as (b & p1 & E1).
  destruct (IH (fun a p H => Hf a p (or_intror H)) p1) as (bs & p2 & E2).
  unfold gbind. rewrite E1, E2. unfold gret. eauto.
Qed.

Lemma Forall2_concat_map {A B C} (R : B -> C -> Prop) (S : A -> list C -> Prop)
    (g : A -> list B) l css :
  (forall a cs, S a cs -> List.Forall2 R (g a) cs) ->
  List.Forall2 S l css -> List.Forall2 R (concat (map g l)) (concat css).
Proof.
  intros HS H. induction H as [|a cs l css Ha _ IH]; simpl; [constructor|].
  apply List.Forall2_app; [now apply HS | exact IH].
Qed.

Lemma customer_data_total draw r rs tenant i p :
  exists c p', customer_data draw (r :: rs) tenant i p = (Some c, p').
Proof. eexists. eexists. reflexivity. Qed.

Lemma customer_data_inv draw regions tenant i p c p' :
  customer_data draw regions tenant i p = (Some c, p') ->
  customer_of (tenant, i) c.
Proof.
  unfold customer_data. destruct regions as [|r rs]; [discriminate|].
  unfold gbind, choice, uniform, randint, random, randbelow, gret.
  intros [= <- _]. unfold customer_of. simpl.
  split; [reflexivity|]. split; [reflexivity|].
  pose proof (N.mod_upper_bound (draw (S (S p))) (2 ^ 53) ltac:(discriminate)) as Hu.
  pose proof (N.mod_upper_bound (draw (S (S (S p)))) 20 ltac:(discriminate)) as Ho.
  set (u := (draw (S (S p)) mod 2 ^ 53)%N) in *.
  assert (H0 : (0 <= Z.of_N u # 2 ^ 53)%Q) by (unfold Qle; simpl; lia).
  assert (H1 : (Z.of_N u # 2 ^ 53 <= 1)%Q).
  { unfold Qle. simpl. change (Z.pos (2 ^ 53)) with (Z.of_N (2 ^ 53)). lia. }
  split; [lra|]. split; [lra|].
  change (N.pos (19 + 1)) with 20%N. clear -Ho.
  set (o := (draw (S (S (S p))) mod 20)%N) in *. lia.
Qed.

Lemma customer_records_inv draw tenants regions p data p' :
  customer_records draw tenants regions p = (Some data, p') ->
  List.Forall2 customer_of (customer_keys tenants) data.
Proof.
  unfold customer_records, gbind at 1.
  destruct (for_each _ tenants p) as [[per|] p1] eqn:E; [|discriminate].
  intros [= <- _]. apply for_each_inv in E. unfold customer_keys, numbered.
  eapply Forall2_concat_map; [|exact E].
  intros tenant cs (p2 & p3 & E2). apply for_each_inv in E2.
  clear -E2. revert cs E2.
  induction (seq 0 50) as [|i l IH]; intros cs E2; inversion E2; subst; simpl;
    constructor; auto.
  destruct H1 as (p1 & p2 & H1). eapply customer_data_inv; eauto.
Qed.

Lemma customer_records_total draw tenants r rs p :
  exists data p', customer_records draw tenants (r :: rs) p = (Some data, p').
Proof.
  unfold customer_records.
  destruct (for_each_total
              (fun tenant => for_each (customer_data draw (r :: rs) tenant) (seq 0 50))
              tenants) with (p := p) as (per & p1 & E).
  - intros tenant q _. apply for_each_total. intros i q' _. apply customer_data_total.
  - unfold gbind. rewrite E. unfold gret. eauto.
Qed.

Lemma customer_records_no_region draw tenant tenants p :
  customer_records draw (tenant :: tenants) [] p = (None, p).
Proof. reflexivity. Qed.

Lemma customer_keys_length tenants : length (customer_keys tenants) = (50 * length tenants)%nat.
Proof.
  unfold customer_keys, numbered. induction tenants as [|t ts IH]; [reflexivity|].
  cbn [map concat]. rewrite length_app, IH, length_map, length_seq.
  cbn [length]. lia.
Qed.

Lemma extract_api_data_inv draw tenants regions p d p' :
  extract_api_data draw tenants regions p = (Some d, p') ->
  exists data p0, customer_records draw tenants regions p0 = (Some data, p') /\
    d = customers_frame data.
Proof.
  unfold extract_api_data, generate_mock_customer_data, gbind.
  destruct (customer_records draw tenants regions p) as [[data|] p1] eqn:E.
  - unfold gret. intros [= <- <-]. eauto.
  - destruct (customer_records draw tenants regions p1) as [[data|] p2] eqn:E2;
      [|discriminate].
    unfold gret. intros [= <- <-]. eauto.
Qed.

Lemma customers_frame_columns data :
  data <> [] -> df_columns (customers_frame data) = customer_columns.
Proof. destruct data; [congruence | reflexivity]. Qed.

Lemma customers_frame_index data : df_index (customers_frame data) = length data.
Proof. now destruct data. Qed.

(** [extract_api_data] raises exactly when there is a tenant and no
    region to choose from (the fallback repeats the same loops and
    cannot succeed where they failed); otherwise it returns fifty
    records per tenant, with the seven customer columns as soon as there
    is a tenant. *)
Theorem extract_api_data_outcome (draw : nat -> N) (tenants regions : list string)
    (p : nat) :
  match fst (extract_api_data draw tenants regions p) with
  | Some d =>
      (regions <> [] \/ tenants = []) /\
      df_index d = (50 * length tenants)%nat /\
      (tenants <> [] -> df_columns d = customer_columns)
  | None => regions = [] /\ tenants <> []
  end.
Proof.
  destruct (extract_api_data draw tenants regions p) as [[d|] p'] eqn:E; simpl.
  - apply extract_api_data_inv in E as (data & p0 & E & ->).
    pose proof (customer_records_inv _ _ _ _ _ _ E) as H.
    apply List.Forall2_length in H. rewrite customer_keys_length in H.
    split; [|split].
    + destruct regions; [|left; discriminate]. right.
      destruct tenants; [reflexivity|].
      rewrite customer_records_no_region in E. discriminate.
    + now rewrite customers_frame_index.
    + intros Hn. apply customers_frame_columns. intros ->.
      destruct tenants; [congruence | discriminate].
  - unfold extract_api_data, generate_mock_customer_data, gbind in E.
    destruct regions as [|r rs].
    + split; [reflexivity|]. intros ->. discriminate.
    + destruct (customer_records_total draw tenants r rs p) as (data & p1 & E1).
      rewrite E1 in E. discriminate.
Qed.

Lemma Forall2_right {A B} (R : A -> B -> Prop) (P : B -> Prop) l r :
  (forall a b, R a b -> P b) -> List.Forall2 R l r -> Forall P r.
Proof. intros HR H. induction H; constructor; eauto. Qed.

Lemma zip_with_maps {A} (P : A -> Prop) (Q : Float.t -> Prop)
    (f : Float.t -> Float.t -> Float.t) (g k : A -> Float.t) l :
  (forall c, P c -> Q (f (g c) (k c))) -> Forall P l ->
  length (zip_with f (map g l) (map k l)) = length l /\
  Forall Q (zip_with f (map g l) (map k l)).
Proof.
  intros HQ H. induction H as [|c l Hc _ [IH1 IH2]]; simpl; [split; constructor|].
  split; [now rewrite IH1 | constructor; auto].
Qed.

Lemma order_value_between (q : Q) (n : Z) :
  (100 <= q)%Q -> (q <= 5000)%Q -> 1 <= n <= 20 ->
  finite_between 5 5000 (ratio 2 (Float.fin q) (Float.of_Z n)).
Proof.
  intros H1 H2 Hn. unfold Float.fin, Float.of_Z.
  apply ratio_between; rewrite ?Qred_correct.
  - unfold Qlt. simpl. lia.
  - apply Qle_trans with 100%Q; [|exact H1].
    rewrite <- inject_Z_mult. unfold Qle. simpl. lia.
  - apply Qle_trans with 5000%Q; [exact H2|].
    rewrite <- inject_Z_mult. unfold Qle. simpl. lia.
Qed.

(** The customers that [extract_api_data] makes up never have zero
    orders: on the frame it returns for at least one tenant,
    [transform_customers] succeeds and every [avg_order_value] is a
    finite number between 5 and 5000, one per customer. *)
Theorem mock_customers_have_finite_order_values (draw : nat -> N)
    (tenants regions : list string) (p p' : nat) (d : DataFrame)
    (h : heap) (l : loc) :
  extract_api_data draw tenants regions p = (Some d, p') ->
  tenants <> [] ->
  h !! l = Some d ->
  exists h' avg,
    transform_customers l h = (Ok l, h') /\
    column_at h' l "avg_order_value" = Some avg /\
    length avg = (50 * length tenants)%nat /\
    Forall (finite_between 5 5000) avg.
Proof.
  intros E Ht Hl.
  apply extract_api_data_inv in E as (data & p0 & E & ->).
  pose proof (customer_records_inv _ _ _ _ _ _ E) as H.
  pose proof (List.Forall2_length H) as Hlen. rewrite customer_keys_length in Hlen.
  assert (Hb : Forall (fun c => (100 <= cu_total_spent c)%Q /\
                                (cu_total_spent c <= 5000)%Q /\
                                1 <= cu_total_orders c <= 20) data).
  { eapply Forall2_right; [|exact H]. intros k c (_ & _ & H1 & H2 & H3). auto. }
  destruct data as [|c0 data'] eqn:Ed.
  { destruct tenants; [congruence | simpl in Hlen; lia]. }
  rewrite <- Ed in *.
  assert (Hd : df_data (customers_frame data)
               = [ ("tenant_id", SObject (map (fun c => VText (cu_tenant_id c)) data));
                   ("customer_id", SObject (map (fun c => VText (cu_customer_id c)) data));
                   ("customer_name",
                    SObject (map (fun c => VText (cu_customer_name c)) data));
                   ("region", SObject (map (fun c => VText (cu_region c)) data));
                   ("product_preference",
                    SObject (map (fun c => VText (cu_product_preference c)) data));
                   ("total_spent",
                    SFloat (map (fun c => Float.fin (cu_total_spent c)) data));
                   ("total_orders", SInt (map cu_total_orders data)) ])
    by (rewrite Ed; reflexivity).
  eexists. eexists. split.
  { eapply transform_customers_run;
      [exact Hl | rewrite Hd; reflexivity | rewrite Hd; reflexivity
      | reflexivity | reflexivity]. }
  split.
  { unfold column_at, floats_of. rewrite lookup_insert_eq. simpl.
    rewrite lookup_set_col_eq. reflexivity. }
  rewrite map_map.
  destruct (zip_with_maps _ (finite_between 5 5000) (ratio 2)
              (fun c => Float.fin (cu_total_spent c))
              (fun c => Float.of_Z (cu_total_orders c)) data
              (fun c Hc => order_value_between _ _ (proj1 Hc) (proj1 (proj2 Hc))
                             (proj2 (proj2 Hc))) Hb)
    as [L F].
  split; [rewrite L; lia | exact F].
Qed.

Lemma mock_customers_have_finite_order_values_witness :
  exists h' avg,
    transform_customers 0%nat
      {[ 0%nat := default (mkDataFrame 0 [])
                    (fst (extract_api_data (fun n => N.of_nat n) ["tenant_a"] ["North"]
                            0%nat)) ]}
    = (Ok 0%nat, h') /\
    column_at h' 0%nat "avg_order_value" = Some avg /\
    length avg = (50 * length ["tenant_a"])%nat /\
    Forall (finite_between 5 5000) avg.
Proof.
  apply (mock_customers_have_finite_order_values (fun n => N.of_nat n)
           ["tenant_a"] ["North"] 0%nat
           (snd (extract_api_data (fun n => N.of_nat n) ["tenant_a"] ["North"] 0%nat))
           (default (mkDataFrame 0 [])
              (fst (extract_api_data (fun n => N.of_nat n) ["tenant_a"] ["North"] 0%nat))));
    [ vm_compute; reflexivity | discriminate | apply lookup_singleton_eq ].
Defined.

Lemma string_length_app (a b : string) :
  String.length (a ++ b) = (String.length a + String.length b)%nat.
Proof. induction a as [|c a IH]; simpl; [reflexivity | now rewrite IH]. Qed.

Lemma string_app_inj (a b c d : string) :
  String.length c = String.length d -> a ++ c = b ++ d -> a = b /\ c = d.
Proof.
  revert b. induction a as [|x a IH]; intros [|y b] Hl E; simpl in E.
  - auto.
  - apply (f_equal String.length) in E. simpl in E.
    rewrite ?string_length_app in E. simpl in E. lia.
  - apply (f_equal String.length) in E. simpl in E.
    rewrite ?string_length_app in E. simpl in E. lia.
  - injection E as -> E. destruct (IH b Hl E) as [-> ->]. auto.
Qed.

Lemma string_app_inj_l (a b c : string) : a ++ b = a ++ c -> b = c.
Proof. induction a as [|x a IH]; simpl; [auto|]. intros [= E]. auto. Qed.

Lemma concat_map_length {A B} (g : A -> list B) n l :
  (forall a, length (g a) = n) -> length (concat (map g l)) = (length l * n)%nat.
Proof.
  intros Hg. induction l as [|a l IH]; simpl; [reflexivity|].
  now rewrite length_app, Hg, IH.
Qed.

Lemma pad3_length i : (i < 100)%nat -> String.length (pad3 i) = 3%nat.
Proof.
  intros Hi.
  assert (H : Forall (fun i => String.length (pad3 i) = 3%nat) (seq 0 100)).
  { apply (bool_decide_unpack _). vm_compute. exact I. }
  rewrite List.Forall_forall in H. apply H. apply in_seq. lia.
Qed.

Lemma pad3_inj i j : (i < 100)%nat -> (j < 100)%nat -> pad3 i = pad3 j -> i = j.
Proof.
  intros Hi Hj E.
  assert (H : NoDup (map pad3 (seq 0 100))).
  { apply (bool_decide_unpack _). vm_compute. exact I. }
  apply (NoDup_lookup _ i j (pad3 i) H).
  - rewrite list_lookup_fmap, lookup_seq_lt by exact Hi. reflexivity.
  - rewrite list_lookup_fmap, lookup_seq_lt by exact Hj. simpl. now rewrite E.
Qed.

Lemma numbered_elem n tenants k :
  k ∈ numbered n tenants -> fst k ∈ tenants /\ (snd k < n)%nat.
Proof.
  unfold numbered. induction tenants as [|t ts IH]; cbn [map concat].
  - intros H. inversion H.
  - rewrite elem_of_app. intros [H|H].
    + apply list_elem_of_fmap in H as (i & -> & Hi). simpl.
      apply elem_of_seq in Hi. split; [left | lia].
    + destruct (IH H). split; [now right | auto].
Qed.

Lemma numbered_NoDup n tenants : NoDup tenants -> NoDup (numbered n tenants).
Proof.
  intros H. induction H as [|t ts Ht _ IH]; [constructor|].
  unfold numbered in *. cbn [map concat].
  apply NoDup_app. split; [|split].
  - apply NoDup_fmap_2; [intros i j [=]; auto | apply NoDup_seq].
  - intros k Hk Hk'. apply list_elem_of_fmap in Hk as (i & -> & _).
    apply (numbered_elem n) in Hk' as [Hk' _]. simpl in Hk'. contradiction.
  - exact IH.
Qed.

Lemma numbered_length n tenants : length (numbered n tenants) = (n * length tenants)%nat.
Proof.
  unfold numbered. rewrite (concat_map_length _ n); [lia|].
  intros t. now rewrite length_map, length_seq.
Qed.

Lemma record_id_inj prefix k1 k2 :
  (snd k1 < 100)%nat -> (snd k2 < 100)%nat ->
  record_id prefix k1 = record_id prefix k2 -> k1 = k2.
Proof.
  destruct k1 as [t1 i], k2 as [t2 j]. unfold record_id. cbn [fst snd].
  intros Hi Hj E. apply string_app_inj_l in E.
  destruct (string_app_inj t1 t2 ("_" ++ pad3 i) ("_" ++ pad3 j)) as [Ht E'];
    [ rewrite !string_length_app, !pad3_length by assumption; reflexivity
    | exact E | ].
  apply string_app_inj_l in E'. apply pad3_inj in E'; auto. now subst.
Qed.

Lemma record_ids_NoDup prefix n tenants :
  (n <= 100)%nat -> NoDup tenants ->
  NoDup (map (fun k => VText (record_id prefix k)) (numbered n tenants)).
Proof.
  intros Hn Ht. apply NoDup_fmap_2_strong; [|now apply numbered_NoDup].
  intros k1 k2 H1 H2 Hk.
  assert (Hk' : record_id prefix k1 = record_id prefix k2) by congruence.
  apply numbered_elem in H1 as [_ H1]. apply numbered_elem in H2 as [_ H2].
  apply record_id_inj with prefix; [lia | lia | exact Hk'].
Qed.

(** The customer identifiers that [extract_api_data] makes up are
    pairwise distinct whenever the configured tenants are (so they are
    unique across tenants, not only within one). *)
Theorem mock_customer_ids_are_unique (draw : nat -> N) (tenants regions : list string)
    (p p' : nat) (d : DataFrame) (ids : list value) :
  extract_api_data draw tenants regions p = (Some d, p') ->
  NoDup tenants ->
  lookup_col "customer_id" (df_data d) = Some (SObject ids) ->
  NoDup ids.
Proof.
  intros E Ht Hids.
  apply extract_api_data_inv in E as (data & p0 & E & ->).
  pose proof (customer_records_inv _ _ _ _ _ _ E) as H.
  assert (Hmap : map (fun c => VText (cu_customer_id c)) data
                 = map (fun k => VText (customer_id_of k)) (customer_keys tenants)).
  { clear -H. induction H as [|k c ks cs (_ & Hc & _) _ IH]; simpl; [reflexivity|].
    now rewrite IH, Hc. }
  destruct data as [|c0 data'] eqn:Ed; [discriminate|]. rewrite <- Ed in *.
  assert (ids = map (fun c => VText (cu_customer_id c)) data).
  { rewrite Ed in Hids |- *. simpl in Hids. now injection Hids as <-. }
  subst ids. rewrite Hmap.
  apply (record_ids_NoDup "cust_" 50 tenants); [lia | exact Ht].
Qed.

Lemma mock_customer_ids_are_unique_witness :
  NoDup
    (match lookup_col "customer_id"
             (df_data (default (mkDataFrame 0 [])
                         (fst (extract_api_data (fun n => N.of_nat n)
                                 ["tenant_a"; "tenant_b"] ["North"] 0%nat)))) with
     | Some (SObject ids) => ids
     | _ => []
     end).
Proof.
  destruct (lookup_col "customer_id" _) as [[l|l|ids]|] eqn:El; try apply NoDup_nil_2.
  apply (mock_customer_ids_are_unique (fun n => N.of_nat n) ["tenant_a"; "tenant_b"]
           ["North"] 0%nat
           (snd (extract_api_data (fun n => N.of_nat n) ["tenant_a"; "tenant_b"]
                   ["North"] 0%nat))
           (default (mkDataFrame 0 [])
              (fst (extract_api_data (fun n => N.of_nat n) ["tenant_a"; "tenant_b"]
                      ["North"] 0%nat))) ids).
  - vm_compute. reflexivity.
  - apply (bool_decide_unpack _). vm_compute. exact I.
  - exact El.
Defined.

(** ** The generator of sales targets *)

Lemma for_each_concat_inv {A B C} (f : A -> Gen (list C)) (g : A -> list B)
    (R : B -> C -> Prop) l p out p' :
  (forall a cs p1 p2, f a p1 = (Some cs, p2) -> List.Forall2 R (g a) cs) ->
  (x <~ for_each f l ;; gret (concat x)) p = (Some out, p') ->
  List.Forall2 R (concat (map g l)) out.
Proof.
  intros Hf. unfold gbind.
  destruct (for_each f l p) as [[x|] p1] eqn:E; [|discriminate].
  intros [= <- _]. apply for_each_inv in E.
  eapply Forall2_concat_map; [|exact E].
  intros a cs (p2 & p3 & E2). eapply Hf; eauto.
Qed.

Lemma for_each_map_inv {A B C} (f : A -> Gen C) (g : A -> B) (R : B -> C -> Prop)
    l p out p' :
  (forall a c p1 p2, f a p1 = (Some c, p2) -> R (g a) c) ->
  for_each f l p = (Some out, p') -> List.Forall2 R (map g l) out.
Proof.
  intros Hf E. apply for_each_inv in E.
  induction E as [|a c l out (p1 & p2 & Ha) _ IH]; simpl; constructor; eauto.
Qed.

Lemma unit_interval (u : N) :
  (u < 2 ^ 53)%N -> (0 <= Z.of_N u # 2 ^ 53)%Q /\ (Z.of_N u # 2 ^ 53 <= 1)%Q.
Proof.
  intros Hu. split; unfold Qle; simpl; [lia|].
  change (Z.pos (2 ^ 53)) with (Z.of_N (2 ^ 53)). lia.
Qed.

Lemma target_data_inv draw tenant region product month p t p' :
  target_data draw tenant region product month p = (Some t, p') ->
  target_of (tenant, region, product, month) t.
Proof.
  unfold target_data, gbind, uniform, randint, random, randbelow, gret.
  intros [= <- _]. unfold target_of. simpl.
  split; [reflexivity|]. split; [reflexivity|].
  destruct (unit_interval (draw p mod 2 ^ 53)%N) as [A0 A1];
    [apply N.mod_upper_bound; discriminate|].
  destruct (unit_interval (draw (S (S p)) mod 2 ^ 53)%N) as [B0 B1];
    [apply N.mod_upper_bound; discriminate|].
  pose proof (N.mod_upper_bound (draw (S p)) 451 ltac:(discriminate)) as Ho.
  split; [lra|]. split; [lra|]. split; [lra|]. split; [lra|].
  change (N.pos (450 + 1)) with 451%N. clear -Ho.
  set (o := (draw (S p) mod 451)%N) in *. lia.
Qed.

Lemma target_data_total draw tenant region product month p :
  exists t p', target_data draw tenant region product month p = (Some t, p').
Proof. eexists. eexists. reflexivity. Qed.

Lemma target_records_inv draw tenants regions p data p' :
  target_records draw tenants regions p = (Some data, p') ->
  List.Forall2 target_of (planning_cells tenants regions) data.
Proof.
  unfold target_records, planning_cells.
  apply for_each_concat_inv. intros tenant cs1 p1 p2.
  apply for_each_concat_inv. intros region cs2 p3 p4.
  apply for_each_concat_inv. intros product cs3 p5 p6.
  apply for_each_map_inv. intros month t p7 p8. apply target_data_inv.
Qed.

Lemma planning_cells_length tenants regions :
  length (planning_cells tenants regions)
  = (length tenants * length regions * 60)%nat.
Proof.
  unfold planning_cells.
  rewrite (concat_map_length _ (length regions * 60)); [lia|].
  intros tenant. rewrite (concat_map_length _ 60); [reflexivity|].
  intros region. rewrite (concat_map_length _ 12); [reflexivity|].
  intros product. now rewrite length_map.
Qed.

Lemma NoDup_concat_map {A B} (tag : B -> A) (g : A -> list B) l :
  NoDup l ->
  (forall a x, In x (g a) -> tag x = a) ->
  (forall a, NoDup (g a)) ->
  NoDup (concat (map g l)).
Proof.
  intros Hl Htag Hg. induction Hl as [|a l Ha _ IH]; simpl; [constructor|].
  apply NoDup_app. split; [apply Hg|]. split; [|exact IH].
  intros x Hx Hx'. apply list_elem_of_In in Hx, Hx'.
  apply List.in_concat in Hx' as (ys & Hys & Hx').
  apply in_map_iff in Hys as (b & <- & Hb).
  apply Htag in Hx, Hx'. apply Ha. apply list_elem_of_In. congruence.
Qed.

Lemma In_concat_map_tag {A B C} (tag : B -> C) (c : C) (g : A -> list B) l x :
  (forall a y, In y (g a) -> tag y = c) -> In x (concat (map g l)) -> tag x = c.
Proof.
  intros Hg Hx. apply List.in_concat in Hx as (ys & Hys & Hx).
  apply in_map_iff in Hys as (a & <- & _). eauto.
Qed.

Lemma planning_cells_NoDup tenants regions :
  NoDup tenants -> NoDup regions -> NoDup (planning_cells tenants regions).
Proof.
  intros Ht Hr. unfold planning_cells.
  assert (Hm : forall (tenant region product : string) x,
             In x (map (fun month : Z => (tenant, region, product, month)) months) ->
             x.1 = (tenant, region, product)).
  { intros tenant region product x Hx.
    apply in_map_iff in Hx as (m & <- & _). reflexivity. }
  apply (NoDup_concat_map (fun x => x.1.1.1)); [exact Ht | |].
  { intros tenant x Hx.
    apply (In_concat_map_tag (fun x => x.1.1.1) tenant) in Hx; [exact Hx|].
    intros region y Hy.
    apply (In_concat_map_tag (fun x => x.1.1.1) tenant) in Hy; [exact Hy|].
    intros product z Hz. apply Hm in Hz. now rewrite Hz. }
  intros tenant. apply (NoDup_concat_map (fun x => x.1.1.2)); [exact Hr | |].
  { intros region x Hx.
    apply (In_concat_map_tag (fun x => x.1.1.2) region) in Hx; [exact Hx|].
    intros product z Hz. apply Hm in Hz. now rewrite Hz. }
  intros region. apply (NoDup_concat_map (fun x => x.1.2)).
  - apply (bool_decide_unpack _). vm_compute. exact I.
  - intros product z Hz. apply Hm in Hz. now rewrite Hz.
  - intros product. apply NoDup_fmap_2; [intros m1 m2 [=]; auto|].
    apply (bool_decide_unpack _). vm_compute. exact I.
Qed.

Lemma frame_rows_targets data : frame_rows (targets_frame data) = map target_row data.
Proof.
  destruct data as [|t0 data']; [reflexivity|].
  unfold targets_frame, frame_rows, frame_row. cbn [df_index df_data].
  generalize (t0 :: data'). intros D.
  apply (map_nth_seq target_row _ D t0). intros i Hi.
  cbn [map snd cells]. unfold target_row. rewrite !map_map.
  rewrite !(fun f => nth_map_lt f D i t0 VNull Hi). reflexivity.
Qed.

Lemma generate_sales_targets_inv draw tenants regions to_excel p d p' :
  generate_sales_targets draw tenants regions to_excel p = (Some (Ok d), p') ->
  exists data, target_records draw tenants regions p = (Some data, p') /\
    d = targets_frame data.
Proof.
  unfold generate_sales_targets, gbind.
  destruct (target_records draw tenants regions p) as [[data|] p1]; [|discriminate].
  unfold gret. destruct (to_excel (targets_frame data)); [|discriminate].
  intros [= <- <-]. eauto.
Qed.

Lemma targets_frame_index data : df_index (targets_frame data) = length data.
Proof. now destruct data. Qed.

(** The frame [generate_sales_targets] returns has exactly one row per
    planning cell: sixty rows (five products, twelve months) for every
    pair of a tenant and a region, and, where the configured tenants
    and regions are pairwise distinct, no two rows with the same
    (tenant, region, product, month, year). *)
Theorem generated_targets_one_per_planning_cell (draw : nat -> N)
    (tenants regions : list string) (to_excel : DataFrame -> result unit)
    (p p' : nat) (d : DataFrame) :
  generate_sales_targets draw tenants regions to_excel p = (Some (Ok d), p') ->
  NoDup tenants -> NoDup regions ->
  df_index d = (length tenants * length regions * 60)%nat /\
  NoDup (map cell_key (frame_rows d)).
Proof.
  intros E Ht Hr.
  apply generate_sales_targets_inv in E as (data & E & ->).
  apply target_records_inv in E.
  split.
  - rewrite targets_frame_index, <- (List.Forall2_length E).
    apply planning_cells_length.
  - rewrite frame_rows_targets, map_map.
    assert (Hk : map (fun t => cell_key (target_row t)) data
                 = map planning_key (planning_cells tenants regions)).
    { clear -E. induction E as [|k t ks ts (Hk & Hy & _) _ IH]; simpl; [reflexivity|].
      rewrite IH. f_equal. subst k. unfold cell_key. simpl. now rewrite Hy. }
    rewrite Hk. apply NoDup_fmap_2; [|now apply planning_cells_NoDup].
    intros [[[t1 r1] p1] m1] [[[t2 r2] p2] m2] [=]. congruence.
Qed.

Lemma generated_targets_one_per_planning_cell_witness :
  df_index sample_targets_frame
  = (length ["tenant_a"; "tenant_b"] * length ["North"; "South"] * 60)%nat /\
  NoDup (map cell_key (frame_rows sample_targets_frame)).
Proof.
  apply (generated_targets_one_per_planning_cell (fun n => N.of_nat n)
           ["tenant_a"; "tenant_b"] ["North"; "South"] (fun _ => Ok tt) 0%nat
           (snd sample_targets) sample_targets_frame).
  - vm_compute. reflexivity.
  - apply (bool_decide_unpack _). vm_compute. exact I.
  - apply (bool_decide_unpack _). vm_compute. exact I.
Defined.

Lemma target_roi_between (x y : Q) :
  (5000 <= x)%Q -> (x <= 50000)%Q -> (2000 <= y)%Q -> (y <= 20000)%Q ->
  finite_between 0 25 (ratio 2 (Float.fin x) (Float.fin y)).
Proof.
  intros H1 H2 H3 H4. unfold Float.fin.
  apply ratio_between; rewrite ?Qred_correct.
  - apply Qlt_le_trans with 2000%Q; [reflexivity | exact H3].
  - change (inject_Z 0) with 0%Q. lra.
  - change (inject_Z 25) with 25%Q. lra.
Qed.

(** The targets [generate_sales_targets] makes up never have a zero
    spend: on the frame it returns, when it has rows,
    [transform_targets] succeeds and every [target_roi] is a finite
    number between 0 and 25, one per row. *)
Theorem generated_targets_have_finite_roi (draw : nat -> N)
    (tenants regions : list string) (to_excel : DataFrame -> result unit)
    (p p' : nat) (d : DataFrame) (h : heap) (l : loc) :
  generate_sales_targets draw tenants regions to_excel p = (Some (Ok d), p') ->
  df_index d <> 0%nat ->
  h !! l = Some d ->
  exists h' roi,
    transform_targets l h = (Ok l, h') /\
    column_at h' l "target_roi" = Some roi /\
    length roi = df_index d /\
    Forall (finite_between 0 25) roi.
Proof.
  intros E Hn Hl.
  apply generate_sales_targets_inv in E as (data & E & ->).
  apply target_records_inv in E.
  assert (Hb : Forall (fun t => ((5000 <= tg_target_revenue t)%Q /\
                                 (tg_target_revenue t <= 50000)%Q) /\
                                (2000 <= tg_target_spend t)%Q /\
                                (tg_target_spend t <= 20000)%Q) data).
  { eapply Forall2_right; [|exact E]. intros k t (_ & _ & H1 & H2 & H3 & H4 & _). auto. }
  rewrite targets_frame_index in *.
  destruct data as [|t0 data']; [simpl in Hn; congruence|].
  revert Hb Hl. unfold targets_frame. generalize (t0 :: data'). intros D Hb Hl.
  eexists. eexists. split.
  { eapply transform_targets_run;
      [exact Hl | reflexivity | reflexivity | reflexivity | reflexivity]. }
  split.
  { unfold column_at, floats_of. rewrite lookup_insert_eq. reflexivity. }
  destruct (zip_with_maps _ (finite_between 0 25) (ratio 2)
              (fun t => Float.fin (tg_target_revenue t))
              (fun t => Float.fin (tg_target_spend t)) D
              (fun t Ht => target_roi_between _ _ (proj1 (proj1 Ht)) (proj2 (proj1 Ht))
                             (proj1 (proj2 Ht)) (proj2 (proj2 Ht))) Hb)
    as [L F].
  split; [exact L | exact F].
Qed.

Lemma generated_targets_have_finite_roi_witness :
  exists h' roi,
    transform_targets 0%nat {[ 0%nat := sample_targets_frame ]} = (Ok 0%nat, h') /\
    column_at h' 0%nat "target_roi" = Some roi /\
    length roi = df_index sample_targets_frame /\
    Forall (finite_between 0 25) roi.
Proof.
  apply (generated_targets_have_finite_roi (fun n => N.of_nat n)
           ["tenant_a"; "tenant_b"] ["North"; "South"] (fun _ => Ok tt) 0%nat
           (snd sample_targets) sample_targets_frame);
    [ vm_compute; reflexivity | vm_compute; discriminate | apply lookup_singleton_eq ].
Defined.

(** ** The generator of campaigns *)

Lemma mod_between (x n : N) (a b : Z) :
  Z.of_N n = b - a + 1 -> (0 < n)%N -> a <= a + Z.of_N (x mod n) <= b.
Proof.
  intros Hn Hp. pose proof (N.mod_upper_bound x n ltac:(lia)) as H.
  set (o := (x mod n)%N) in *. lia.
Qed.

Lemma uniform_between (u : N) (a b : Q) :
  (a <= b)%Q -> (u < 2 ^ 53)%N ->
  (a <= a + (b - a) * (Z.of_N u # 2 ^ 53))%Q /\
  (a + (b - a) * (Z.of_N u # 2 ^ 53) <= b)%Q.
Proof.
  intros Hab Hu. destruct (unit_interval u Hu) as [H0 H1].
  set (x := (Z.of_N u # 2 ^ 53)%Q) in *. split; nra.
Qed.

Lemma campaign_data_inv draw date_string regions tenant i p c p' :
  campaign_data draw date_string regions tenant i p = (Some c, p') ->
  campaign_of (tenant, i) c.
Proof.
  unfold campaign_data. destruct regions as [|r rs]; [discriminate|].
  unfold gbind, choice, uniform, randint, random, randbelow, gret.
  intros [= <- _]. unfold campaign_of. cbn [ca_campaign_id ca_impressions ca_clicks
    ca_spend ca_revenue].
  split; [reflexivity|].
  split; [apply mod_between; reflexivity|].
  split; [apply mod_between; reflexivity|].
  eexists. eexists.
  split; [|split; [|split; [|split; [|split; reflexivity]]]].
  - apply uniform_between; [discriminate | apply N.mod_upper_bound; discriminate].
  - apply uniform_between; [discriminate | apply N.mod_upper_bound; discriminate].
  - apply uniform_between; [discriminate | apply N.mod_upper_bound; discriminate].
  - apply uniform_between; [discriminate | apply N.mod_upper_bound; discriminate].
Qed.

Lemma campaign_records_inv draw date_string tenants regions p data p' :
  campaign_records draw date_string tenants regions p = (Some data, p') ->
  List.Forall2 campaign_of (numbered 100 tenants) data.
Proof.
  unfold campaign_records, numbered.
  apply for_each_concat_inv. intros tenant cs p1 p2.
  apply for_each_map_inv. intros i c p3 p4. apply campaign_data_inv.
Qed.

Lemma generate_marketing_campaigns_inv draw date_string tenants regions to_csv p d p' :
  generate_marketing_campaigns draw date_string tenants regions to_csv p
  = (Some (Ok d), p') ->
  exists data, campaign_records draw date_string tenants regions p = (Some data, p') /\
    d = campaigns_frame data.
Proof.
  unfold generate_marketing_campaigns, gbind.
  destruct (campaign_records draw date_string tenants regions p) as [[data|] p1];
    [|discriminate].
  unfold gret. destruct (to_csv (campaigns_frame data)); [|discriminate].
  intros [= <- <-]. eauto.
Qed.

Lemma campaigns_frame_index data : df_index (campaigns_frame data) = length data.
Proof. now destruct data. Qed.

(** The frame [generate_marketing_campaigns] returns has a hundred
    campaigns per tenant, and its campaign identifiers are pairwise
    distinct whenever the configured tenants are. *)
Theorem generated_campaign_ids_are_unique (draw : nat -> N) (date_string : Z -> string)
    (tenants regions : list string) (to_csv : DataFrame -> result unit)
    (p p' : nat) (d : DataFrame) :
  generate_marketing_campaigns draw date_string tenants regions to_csv p
  = (Some (Ok d), p') ->
  NoDup tenants ->
  df_index d = (100 * length tenants)%nat /\
  forall ids, lookup_col "campaign_id" (df_data d) = Some (SObject ids) -> NoDup ids.
Proof.
  intros E Ht.
  apply generate_marketing_campaigns_inv in E as (data & E & ->).
  apply campaign_records_inv in E.
  split.
  - rewrite campaigns_frame_index, <- (List.Forall2_length E). apply numbered_length.
  - intros ids Hids.
    assert (Hmap : map (fun c => VText (ca_campaign_id c)) data
                   = map (fun k => VText (record_id "camp_" k)) (numbered 100 tenants)).
    { clear -E. induction E as [|k c ks cs (Hc & _) _ IH]; simpl; [reflexivity|].
      now rewrite IH, Hc. }
    destruct data as [|c0 data']; [discriminate|].
    revert Hids Hmap. unfold campaigns_frame. generalize (c0 :: data'). intros D Hids Hmap.
    simpl in Hids. injection Hids as <-. rewrite Hmap.
    apply record_ids_NoDup; [lia | exact Ht].
Qed.

Lemma generated_campaign_ids_are_unique_witness :
  df_index sample_campaigns_frame = (100 * length ["tenant_a"; "tenant_b"])%nat /\
  forall ids,
    lookup_col "campaign_id" (df_data sample_campaigns_frame) = Some (SObject ids) ->
    NoDup ids.
Proof.
  apply (generated_campaign_ids_are_unique (fun n => N.of_nat n) (fun k => pretty k)
           ["tenant_a"; "tenant_b"] ["North"] (fun _ => Ok tt) 0%nat
           (snd sample_campaigns) sample_campaigns_frame).
  - vm_compute. reflexivity.
  - apply (bool_decide_unpack _). vm_compute. exact I.
Defined.

Lemma rint_error (q : Q) :
  (q - (1 # 2) <= inject_Z (Float.rint q))%Q /\ (inject_Z (Float.rint q) <= q + (1 # 2))%Q.
Proof.
  destruct q as [n d]. unfold Float.rint. cbn [Qnum Qden].
  pose proof (Z.div_mod n (Zpos d) ltac:(lia)) as Hdm.
  pose proof (Z.mod_pos_bound n (Zpos d) ltac:(lia)) as Hr.
  set (f := n / Zpos d) in *. set (r := n mod Zpos d) in *.
  assert (H : f - 1 < f /\ 2 * Zpos d * f <= 2 * n + Zpos d /\
              2 * n - Zpos d <= 2 * Zpos d * (f + 1)) by nia.
  unfold Qle, Qminus, Qplus, Qopp, inject_Z. cbn [Qnum Qden].
  rewrite !Pos2Z.inj_mul.
  destruct (Z.compare_spec (2 * r) (Zpos d)) as [E|E|E];
    [destruct (Z.even f)| |]; split; nia.
Qed.

Lemma rint_ge (q : Q) (a : Z) : (inject_Z a <= q)%Q -> a <= Float.rint q.
Proof.
  intros Ha. destruct (rint_error q) as [_ Hu].
  destruct (rint_between q a (Float.rint q + 1)) as [H _]; [exact Ha | | exact H].
  destruct (rint_error q) as [Hl _]. rewrite inject_Z_plus.
  change (inject_Z 1) with 1%Q. lra.
Qed.

Lemma rint_le_slack (q : Q) (b : Z) :
  (q < inject_Z b + (1 # 2))%Q -> Float.rint q <= b.
Proof.
  destruct q as [n d]. unfold Float.rint, Qlt, Qplus, inject_Z. cbn [Qnum Qden].
  rewrite !Pos2Z.inj_mul. intros Hb.
  pose proof (Z.div_mod n (Zpos d) ltac:(lia)) as Hdm.
  pose proof (Z.mod_pos_bound n (Zpos d) ltac:(lia)) as Hr.
  set (f := n / Zpos d) in *. set (r := n mod Zpos d) in *.
  assert (Hf : f <= b) by nia.
  destruct (Z.compare_spec (2 * r) (Zpos d)) as [E|E|E];
    [destruct (Z.even f)| |]; nia.
Qed.

Lemma py_round_error (x : Q) :
  (x - (1 # 200) <= py_round 2 x)%Q /\ (py_round 2 x <= x + (1 # 200))%Q.
Proof.
  unfold py_round. change (inject_Z (Z.pos (Float.scale 2))) with 100%Q.
  change (Float.scale 2) with 100%positive.
  destruct (rint_error (x * 100)) as [H1 H2].
  set (z := Float.rint (x * 100)) in *.
  assert (Hz : (z # 100 == inject_Z z * (1 # 100))%Q).
  { unfold Qeq, Qmult, inject_Z. simpl. lia. }
  rewrite Hz. split; lra.
Qed.

Lemma py_round_ge (x : Q) (a : Z) : (inject_Z a <= x)%Q -> (inject_Z a <= py_round 2 x)%Q.
Proof.
  intros Ha. unfold py_round. change (inject_Z (Z.pos (Float.scale 2))) with 100%Q.
  change (Float.scale 2) with 100%positive.
  assert (H : a * 100 <= Float.rint (x * 100)).
  { apply rint_ge. rewrite inject_Z_mult. change (inject_Z 100) with 100%Q. lra. }
  unfold Qle, inject_Z. simpl. lia.
Qed.

Lemma ratio_between_slack (x y : Q) (lo hi : Z) :
  (0 < y)%Q -> (inject_Z lo * y <= x)%Q -> (x < (inject_Z hi + (1 # 200)) * y)%Q ->
  finite_between lo hi (ratio 2 (Float.Fin x) (Float.Fin y)).
Proof.
  intros Hy Hlo Hhi.
  rewrite ratio_nonzero_den by (intros E; rewrite E in Hy; discriminate Hy).
  unfold Float.fin, Float.np_round.
  change (inject_Z (Z.pos (Float.scale 2))) with 100%Q.
  change (Float.scale 2) with 100%positive.
  assert (H1 : (inject_Z lo <= x / y)%Q) by now apply Qle_shift_div_l.
  assert (H2 : (x / y < inject_Z hi + (1 # 200))%Q) by now apply Qlt_shift_div_r.
  assert (Hz1 : lo * 100 <= Float.rint (Qred (x / y) * 100)).
  { apply rint_ge. rewrite Qred_correct, inject_Z_mult.
    change (inject_Z 100) with 100%Q. lra. }
  assert (Hz2 : Float.rint (Qred (x / y) * 100) <= hi * 100).
  { apply rint_le_slack. rewrite Qred_correct, inject_Z_mult.
    change (inject_Z 100) with 100%Q. lra. }
  eexists. split; [reflexivity|]. rewrite Qred_correct.
  unfold Qle, inject_Z. simpl. lia.
Qed.

Lemma generated_roi_between (s u : Q) :
  (100 <= s)%Q -> (s <= 10000)%Q -> (1 # 2 <= u)%Q -> (u <= 3)%Q ->
  finite_between (-1) 2
    (ratio 2 (Float.sub (Float.fin (py_round 2 (s * u))) (Float.fin (py_round 2 s)))
             (Float.fin (py_round 2 s))).
Proof.
  intros Hs1 Hs2 Hu1 Hu2.
  destruct (py_round_error s) as [Es1 Es2].
  destruct (py_round_error (s * u)) as [Er1 Er2].
  pose proof (py_round_ge s 100 Hs1) as Hsr. change (inject_Z 100) with 100%Q in Hsr.
  assert (Hsu : (0 <= s * u)%Q) by nra.
  pose proof (py_round_ge (s * u) 0 Hsu) as Hrr. change (inject_Z 0) with 0%Q in Hrr.
  assert (Hsu3 : (s * u <= 3 * s)%Q) by nra.
  set (sr := py_round 2 s) in *. set (rr := py_round 2 (s * u)) in *.
  unfold Float.sub, Float.opp, Float.add, Float.fin.
  apply ratio_between_slack; rewrite !Qred_correct;
    change (inject_Z (-1)) with (-1)%Q; change (inject_Z 2) with 2%Q; lra.
Qed.

Lemma roi_column (P : campaign -> Prop) (Q0 : Float.t -> Prop) (rev sp : campaign -> Float.t)
    l :
  (forall c, P c -> Q0 (ratio 2 (Float.sub (rev c) (sp c)) (sp c))) -> Forall P l ->
  length (zip_with (ratio 2) (zip_with Float.sub (map rev l) (map sp l)) (map sp l))
  = length l /\
  Forall Q0 (zip_with (ratio 2) (zip_with Float.sub (map rev l) (map sp l)) (map sp l)).
Proof.
  intros HQ H. induction H as [|c l Hc _ [IH1 IH2]]; simpl; [split; constructor|].
  split; [now rewrite IH1 | constructor; auto].
Qed.

Lemma campaign_ctr_between k c :
  campaign_of k c ->
  finite_between 0 1 (ratio 4 (Float.of_Z (ca_clicks c)) (Float.of_Z (ca_impressions c))).
Proof.
  intros (_ & Hi & Hc & _). unfold Float.of_Z.
  apply ratio_between; unfold Qlt, Qle; simpl; lia.
Qed.

Lemma campaign_roi_between k c :
  campaign_of k c ->
  finite_between (-1) 2
    (ratio 2 (Float.sub (Float.fin (ca_revenue c)) (Float.fin (ca_spend c)))
             (Float.fin (ca_spend c))).
Proof.
  intros (_ & _ & _ & s & u & H1 & H2 & H3 & H4 & -> & ->).
  now apply generated_roi_between.
Qed.

(** The campaigns [generate_marketing_campaigns] makes up have at least
    5000 impressions, at most 5000 clicks and a spend of at least 100:
    on the frame it returns, when it has rows, [transform_campaigns]
    succeeds, every [ctr] is a finite number between 0 and 1 and every
    [roi] a finite number between -1 and 2, one per campaign. *)
Theorem generated_campaigns_have_finite_metrics (draw : nat -> N)
    (date_string : Z -> string) (tenants regions : list string)
    (to_csv : DataFrame -> result unit) (p p' : nat) (d : DataFrame)
    (h : heap) (l : loc) :
  generate_marketing_campaigns draw date_string tenants regions to_csv p
  = (Some (Ok d), p') ->
  df_index d <> 0%nat ->
  h !! l = Some d ->
  exists h' ctr roi,
    transform_campaigns l h = (Ok l, h') /\
    column_at h' l "ctr" = Some ctr /\
    column_at h' l "roi" = Some roi /\
    length ctr = df_index d /\
    length roi = df_index d /\
    Forall (finite_between 0 1) ctr /\
    Forall (finite_between (-1) 2) roi.
Proof.
  intros E Hn Hl.
  apply generate_marketing_campaigns_inv in E as (data & E & ->).
  apply campaign_records_inv in E.
  assert (Hb : Forall (fun c => exists k, campaign_of k c) data).
  { eapply Forall2_right; [|exact E]. intros k c Hc. eauto. }
  rewrite campaigns_frame_index in *.
  destruct data as [|c0 data']; [simpl in Hn; congruence|].
  revert Hb Hl. unfold campaigns_frame. generalize (c0 :: data'). intros D Hb Hl.
  clear E Hn.
  assert (Hctr : forall c, (exists k, campaign_of k c) ->
            finite_between 0 1
              (ratio 4 (Float.of_Z (ca_clicks c)) (Float.of_Z (ca_impressions c)))).
  { intros c [k Hc]. now apply campaign_ctr_between with k. }
  assert (Hroi : forall c, (exists k, campaign_of k c) ->
            finite_between (-1) 2
              (ratio 2 (Float.sub (Float.fin (ca_revenue c)) (Float.fin (ca_spend c)))
                       (Float.fin (ca_spend c)))).
  { intros c [k Hc]. now apply campaign_roi_between with k. }
  destruct (zip_with_maps _ _ (ratio 4) _ _ D Hctr Hb) as [L1 F1].
  destruct (roi_column _ _ (fun c => Float.fin (ca_revenue c))
              (fun c => Float.fin (ca_spend c)) D Hroi Hb) as [L2 F2].
  eexists. eexists. eexists. split.
  { eapply transform_campaigns_run;
      [exact Hl | reflexivity | reflexivity | reflexivity | reflexivity
      | reflexivity | reflexivity | reflexivity | reflexivity | reflexivity]. }
  split; [unfold column_at, floats_of; rewrite lookup_insert_eq; reflexivity|].
  split; [unfold column_at, floats_of; rewrite lookup_insert_eq; reflexivity|].
  cbn [df_index]. rewrite !map_map. auto.
Qed.

Lemma generated_campaigns_have_finite_metrics_witness :
  exists h' ctr roi,
    transform_campaigns 0%nat {[ 0%nat := sample_campaigns_frame ]} = (Ok 0%nat, h') /\
    column_at h' 0%nat "ctr" = Some ctr /\
    column_at h' 0%nat "roi" = Some roi /\
    length ctr = df_index sample_campaigns_frame /\
    length roi = df_index sample_campaigns_frame /\
    Forall (finite_between 0 1) ctr /\
    Forall (finite_between (-1) 2) roi.
Proof.
  apply (generated_campaigns_have_finite_metrics (fun n => N.of_nat n)
           (fun k => pretty k) ["tenant_a"; "tenant_b"] ["North"] (fun _ => Ok tt) 0%nat
           (snd sample_campaigns) sample_campaigns_frame);
    [ vm_compute; reflexivity | vm_compute; discriminate | apply lookup_singleton_eq ].
Defined.
